(* ===== verification/_CoqProject ===== *)
-Q . S2P
Prelude.v
GoSort.v
MonitorConfig.v
MonitorConsulKV.v
ConsulKVHeap.v
Hcl.v
RootModule.v
Synthesize.v
Pipeline.v
FileMachine.v
Crash.v
Concurrency.v
Router.v
Swagger.v
