(* ===== verification/Prelude.v ===== *)
(** * A verification development of consul-terraform-sync's watch-source
    configuration, root-module synthesizer and generated HTTP router

    The repository slice under [src/] has three parts that run code:

    - [src/config/monitor_consul_kv.go]: the [ConsulKVMonitorConfig] watch
      source, one concrete kind of the [MonitorConfig] interface, with its
      lifecycle [Copy], [Merge], [Finalize], [Validate] and [GoString].
    - [src/templates/tftmpl/root.go]: the root-module synthesizer.
      [RootModuleInputData.Init] normalises a task's inputs (backend, sorted
      providers, sorted services); [NewMainTF] with its helpers
      [appendRootTerraformBlock], [appendRootProviderBlocks],
      [appendRootModuleBlock] and [appendComment] renders [main.tf];
      [InitRootModule] walks the four named files, skipping, creating or
      overwriting each one on disk; [Service.TemplateServiceID],
      [sortedKeys] and [Variables.Keys] are the helpers.
    - [src/api/oapigen/server.go]: the generated HTTP layer: two routes
      registered on a chi router, a wrapper per operation that binds the
      operation's parameter and runs the handler inside the middleware
      chain, and the embedded OpenAPI document with its decoder.
    The fourth file, [src/e2e/compatibility/consul_test.go], is an
    end-to-end test against a live Consul binary and is not modelled.

    How the parts interact: a scheduler (not in the slice) merges operator
    configuration fragments through [MonitorConfig.Merge], finalizes and
    validates them, builds a [RootModuleInputData], calls [Init] on it and
    hands it to [InitRootModule], which calls one rendering function per
    output file.  The HTTP layer receives task requests and hands them to
    a [ServerInterface] implemented outside the slice.

    ** Files, in dependency order

    - [Prelude] (this file): the [cts_scope] notations, the Go string order
      [go_lt] (byte-wise lexicographic, which is what Go's [<] on strings
      is), Go maps as association lists whose order is the (unspecified)
      iteration order, the [go_error] type, string splitting, tactics,
      the [cts] hint databases, generic lemmas on folds (a fold whose
      steps on distinct keys commute is invariant under permutation), and
      [Clean], Go's lexical path normalisation ([path.Clean]) as a stack of
      segments, with the lemma that joining a directory with a plain file
      name is injective in the name.
    - [GoSort]: the contract of Go's [sort.Slice]/[sort.Strings] as a class
      [SortSlice] (the output is a permutation, sorted by the key), its
      instance [insertion_sort] (the algorithm Go runs on slices of at most
      12 elements, [insertionSortLessFunc]), and the theorem every client
      uses: with pairwise distinct keys the result does not depend on the
      input order.
    - [MonitorConfig]: the interface a watch-source kind implements, as the
      classes [MonitorConfigOps] and [MonitorConfigLaws] (copy, merge with
      precedence, finalize, validate), and the resolution pipeline the
      scheduler runs, proved against the interface only.
    - [MonitorConsulKV]: the Go struct as a record of options ([None] is a
      nil pointer), the interface value [MonitorConfig] (untyped nil, typed
      nil, other kinds), and in [Module KV] the five methods translated
      line by line, with the abstract specifications [override] and
      [defaulted] they refine; the instance of the interface's laws.
    - [ConsulKVHeap]: the same methods over Go pointers.  A heap ([gmap]
      from addresses to string, bool and struct cells), a state monad
      [ST] threading it, allocation at a fresh address, and in
      [Module KVH] [String], [Bool], [StringCopy], [BoolCopy], [Copy],
      [Merge], [Finalize] (which assigns its receiver's fields in place)
      and [Validate] statement by statement; [read] maps a pointer back to
      the value model of [MonitorConsulKV].
    - [Hcl]: the values and the [hclwrite] body the renderer builds
      ([SetAttributeValue] replaces an attribute of the same name in place,
      otherwise appends; blocks, newlines, comments); a library, modelled
      from its documented behaviour.  Its invariant [body_wf] (no attribute
      name twice in a body, at any depth) and the lemmas that every body
      operation preserves it, in the hint database [hcl_wf].
    - [RootModule]: [Task], [Service], [TemplateServiceID], [namedBlock],
      [RootModuleInputData] and [Init], the [append*] helpers and
      [NewMainTF], each in the section [Render] over any [SortSlice]; the
      other three renderers, whose code is not in the slice, from the spec.
    - [Synthesize]: a file system ([Disk]: a [gmap] from path to the chunks
      written, the modes, and the paths on which [Stat], [Create], [Chmod]
      or [Write] fail) and [InitRootModule] as [processFile] (one loop
      iteration, lines 135-177) folded by [init_loop] over an explicit
      iteration order of the Go map [rootFileFuncs]; [join] is
      [filepath.Join] (empty elements dropped, the result cleaned).
    - [Pipeline]: the composition the scheduler runs: [Init], then
      [InitRootModule] with the four renderers of [rootFileFuncs], for
      two inputs holding the same data in different orders ([same_input]).
    - [FileMachine]: the spec's per-file state machine (absent, then skip,
      create or overwrite, then written or error) as the step relation
      [file_step] and the run relation [run], and the refinement of
      [InitRootModule] into it.
    - [Crash]: the loop body at the granularity of system calls: [pstep]
      takes one of [Stat], [Create], [Chmod] or one [Write] of a chunk,
      [rstep] runs the whole [range] loop with its early return; any
      intermediate disk is what a crash leaves.
    - [Concurrency]: two runs of [InitRootModule] on one disk, their
      [rstep]s interleaved by a schedule (the process scheduler), with
      the locality of each system call to the path it works on.
    - [Router]: [ServerInterfaceWrapper]'s two methods, the middleware
      loop, [HandlerWithOptions] and its three shorthands over a model of
      chi (routes matched segment by segment, 404 and 405), the parameter
      binders as the class [ParamBinding] with the runtime's behaviour as
      an instance (lines 1-141 of [server.go]).
    - [Swagger]: the embedded document (lines 143-254): [swaggerSpec]
      with the standard base64 decoder [DecodeString], [decodeSpec],
      [decodeSpecCached], [PathToRawSpec] and [GetSwagger] (gzip and the
      OpenAPI loader are arguments).

    ** Groups of theorems

    - Configuration ([MonitorConsulKV]): [Merge] overrides exactly the
      fields the other configuration sets; nil receivers and nil arguments
      give copies; merging with another kind returns the receiver; [Merge]
      is associative; [Finalize] leaves no field unset and is idempotent;
      [Validate] after [Finalize] fails exactly when no non-empty path was
      given; [GoString] does not change under [Finalize].
    - Pointers ([ConsulKVHeap]): [Merge] and [Copy] on the heap return
      what the value model computes and leave their arguments' cells
      unchanged (refinement); every cell their result reaches was
      allocated by the call, so writing through the result never changes
      the receiver or the argument (no aliasing); [Finalize] changes the
      receiver's struct in place, so every pointer equal to the receiver
      sees the finalized value and every other pointer its old one;
      [Validate] only reads, and after [Finalize] it fails exactly when
      the receiver's path was nil or empty.
    - Sorting ([GoSort]): any sort meeting the contract is deterministic on
      distinct keys; with equal keys Go's insertion sort lets the input
      order through (a counterexample built on the spec's own scenario).
    - Rendering ([RootModule]): [Init] sorts providers and services (in
      place: [Services] and [services] are one slice) and is not
      idempotent when no backend was given (the second call makes a
      [backend ""] block appear); provider blocks reference
      [var.<provider>.<attr>] in sorted order and drop [alias]; the module
      block's shape, and a variable named like a module argument replacing
      it; the rendered [main.tf] does not depend on the order of
      providers, provider information or variables when names are
      distinct; [TemplateServiceID] round-trips through a parser when
      names avoid the separators, and is not injective otherwise (it
      ignores [Namespace], and a [.] or [@] in a name mimics a tag or a
      datacenter); the spec's scenario, for any sort.
    - Synthesis ([Synthesize]): a second run without [force] after a
      successful one changes nothing; without [force] an existing file is
      never touched; [force] restores the canonical [main.tf]; the
      module-variables file is written exactly when there are variables; a
      successful run gives the same disk for every iteration order of the
      file map; a failed write leaves an empty file that later non-forced
      runs keep.
    - Refinement ([FileMachine]): every run of [InitRootModule], in any
      iteration order, is a run of the spec's machine; a successful run
      leaves each file exactly as the machine decides on the starting disk;
      a failed run reports an I/O error on the file it stopped at and
      changed nothing after it.
    - Crash points ([Crash]): the system-call machine finishes within
      [steps_needed] steps and agrees with [processFile]; the whole loop
      reaches a final state with [InitRootModule]'s result (liveness); a
      crash at any point of the loop leaves the disk of a successful run
      over the entries already finished, except that the entry in
      progress may hold a prefix of its rendering (files before it
      written, files after it untouched).
    - Composition ([Pipeline]): [Init] followed by [InitRootModule] gives
      the same disk and error for two inputs holding the same providers,
      provider information, variables and services in different orders
      (names distinct): the spec's determinism promise for all four
      files, on every disk, iteration order and [force].
    - Concurrency ([Concurrency]): two runs whose paths are disjoint (two
      task directories) commute system call by system call, so every
      interleaving that lets both finish ends with the disk and results
      of running them one after the other.
    - Shape ([RootModule]): the [lastIdx] arithmetic of the provider
      loop gives exactly [n - 1] blank lines between [n] provider blocks;
      every [main.tf] body is well formed ([body_wf]), which follows from
      [hclwrite]'s replace-on-set and holds for any body built with it.
    - HTTP ([Router]): the two routes and their 405s; middleware order
      (the last listed runs outermost); the binding of [run] (absent,
      once, repeated); binding errors answered before any middleware; a
      bad base URL panics; [HandlerFromMux] keeps the router's other
      routes.
    - Embedded document ([Swagger]): [GetSwagger]'s resolver fails on
      every external reference; the embedded text is valid base64 of a
      gzip member.

    Every theorem with hypotheses has a witness, in the [Witnesses] module
    of its file or next to it, applying it to a concrete input.

    ** Bounds and fuel

    Nothing needs fuel: every function is structurally recursive on a
    list, a string or a record ([b64_quanta] takes four characters per
    step).  The system-call machines of [Crash] are iterated a given
    number of steps ([psteps], [rsteps]); [steps_needed] (four calls
    plus one per chunk) is proved enough for one iteration, and for the
    loop the theorem states that some number of steps is enough and that
    more steps change nothing.  [Concurrency] likewise states that some
    number of turns for each run is enough for any schedule that grants
    them, and counts turns with [turns].  Integers are [Z]: the file
    mode, passed through unchanged; HTTP status codes; the bytes of the
    decoded document ([[]byte] in Go, whose type already bounds them).  Heap
    addresses are [positive]; a new cell goes to [fresh (dom h)], which is
    never an address in use.  Concrete checks ([vm_compute]) run on
    the 2808-character embedded document and on inputs of a few
    elements.

    ** Not modelled

    The live Consul client, the Terraform binary, logging ([log.Printf]
    only prints), [hclwrite.Format] (whitespace only: the model keeps the
    syntax tree the formatter prints), [f.Sync] and [f.Close] (their
    errors are ignored by the code), gzip decompression and the OpenAPI
    loader (arguments of [decodeSpec] and [GetSwagger]), percent-decoding
    in the parameter binders, chi's preference of static over parameter
    segments among overlapping patterns, the request context (passed
    through unchanged), and concurrency: the spec requires callers to
    serialise synthesis per directory, and every function modelled here
    runs sequentially, except that [Concurrency] interleaves two runs.

    Two runs on one task directory are not modelled: the spec itself
    calls them unsafe, and what they leave depends on each open file's
    own write offset, which the chunk-level model of a file (a list of
    the chunks written, each [Write] appending) does not represent; the
    model is faithful for one writer per file, which is what
    [Concurrency]'s hypothesis (disjoint paths) guarantees.  The
    failure of a single [Write] call that a later one does not share
    (which would show the ignored preamble error of [NewMainTF]) needs
    a per-call fault model; faults here are per path.  Go's sort
    algorithm on slices longer than 12 (pdqsort from Go 1.19, an
    introsort before) is not modelled: the slice does not pin the Go
    version, and every theorem depends only on the documented contract
    [SortSlice].

    ** Possible extensions

    The configuration pipeline over several watch-source kinds (only
    consul-kv is in the slice); rendering to bytes through a model of
    [hclwrite.Format]; a byte-level file model with per-handle offsets,
    for runs that share a directory. *)

From stdpp Require Export base list strings sorting sets.
From Stdlib Require Import String Ascii OrdersEx.

Declare Scope cts_scope.
Delimit Scope cts_scope with cts.
Open Scope cts_scope.

(** ** Go's [if o.X != nil { r.X = o.X }]: the set value of [o] wins *)
Definition opt_override {A} (r o : option A) : option A :=
  match o with Some _ => o | None => r end.
Infix "<~" := opt_override (at level 50, left associativity) : cts_scope.

(** Go's [if c.X == nil { c.X = d }]. *)
Definition opt_default {A} (d : A) (o : option A) : option A :=
  match o with Some _ => o | None => Some d end.

(** ** Errors: a Go [error] value, by the message or the failing call *)
Inductive go_error :=
| ErrorString (msg : string)
| ErrCreate (path : string)
| ErrChmod (path : string)
| ErrWrite (path : string).

#[export] Instance go_error_eq_dec : EqDecision go_error.
Proof. solve_decision. Defined.

(** ** Go's [<] on strings: byte-wise lexicographic order *)
Definition go_lt (s t : string) : bool := String.ltb s t.
(** [!(t < s)], the order [sort] leaves adjacent elements in. *)
Definition go_le (s t : string) : Prop := go_lt t s = false.

(** ** Go maps.  A [map[string]V] is an association list without duplicate
    keys; its order is the order a [range] loop visits it in, which Go
    leaves unspecified, so theorems quantify over all orders. *)
Definition gomap (V : Type) := list (string * V).
Definition gomap_keys {V} (m : gomap V) : list string := map fst m.
Definition gomap_wf {V} (m : gomap V) : Prop := NoDup (gomap_keys m).
Fixpoint gomap_lookup {V} (k : string) (m : gomap V) : option V :=
  match m with
  | [] => None
  | (k', v) :: m' => if String.eqb k k' then Some v else gomap_lookup k m'
  end.

(** ** Tactics *)
Ltac invc H := inversion H; subst; clear H.
Ltac destruct_opts :=
  repeat match goal with
         | |- context [match ?o with Some _ => _ | None => _ end] =>
             is_var o; destruct o
         end.

(** Decide [String.eqb] between literals (and a string with itself)
    without unfolding it into its byte-wise match. *)
Ltac simpl_eqb :=
  repeat match goal with
  | |- context [String.eqb ?a ?a] => rewrite (String.eqb_refl a)
  | |- context [String.eqb ?a ?b] =>
      let E := fresh "E" in
      assert (String.eqb a b = false) as E by reflexivity; rewrite E; clear E
  end.

Create HintDb cts.
Create Rewrite HintDb cts_rw.

(** ** Lemmas on the string order *)
Lemma string_compare_OT s t : String.compare s t = String_as_OT.compare s t.
Proof.
  revert t; induction s as [|a s IH]; intros [|b t]; simpl; try done.

Qed.

Lemma go_lt_spec s t : go_lt s t = true <-> String_as_OT.lt s t.
Proof.
  unfold go_lt, String.ltb, String_as_OT.lt. rewrite string_compare_OT.
  destruct (String_as_OT.compare s t); split; congruence.
Qed.

Lemma go_lt_irrefl s : go_lt s s = false.
Proof.
  destruct (go_lt s s) eqn:E; [|done].
  apply go_lt_spec in E. by destruct (StrictOrder_Irreflexive s).
Qed.

Lemma go_lt_trans s t u : go_lt s t = true -> go_lt t u = true -> go_lt s u = true.
Proof. rewrite !go_lt_spec. apply StrictOrder_Transitive. Qed.

Lemma go_lt_total s t : s <> t -> go_lt s t = true \/ go_lt t s = true.
Proof.
  intros Hne. rewrite !go_lt_spec.
  destruct (String_as_OT.compare_spec s t) as [Heq|Hlt|Hgt]; auto.
  by destruct Hne.
Qed.

Lemma go_lt_asym s t : go_lt s t = true -> go_lt t s = false.
Proof.
  intros H. destruct (go_lt t s) eqn:E; [|done].
  rewrite <- (go_lt_irrefl s). symmetry. eapply go_lt_trans; eauto.
Qed.

Lemma go_le_refl s : go_le s s.
Proof. apply go_lt_irrefl. Qed.

Lemma go_le_trans s t u : go_le s t -> go_le t u -> go_le s u.
Proof.
  unfold go_le. intros H1 H2.
  destruct (go_lt u s) eqn:E; [|done].
  destruct (decide (t = s)) as [->|Hne]; [congruence|].
  destruct (go_lt_total t s Hne) as [Hts|Hst]; [congruence|].
  by rewrite (go_lt_trans u s t E Hst) in H2.
Qed.

Lemma go_le_total s t : go_le s t \/ go_le t s.
Proof.
  unfold go_le. destruct (go_lt t s) eqn:E; [|auto].
  right. by apply go_lt_asym.
Qed.

Lemma go_le_antisym s t : go_le s t -> go_le t s -> s = t.
Proof.
  unfold go_le. intros H1 H2.
  destruct (decide (s = t)) as [|Hne]; [done|].
  destruct (go_lt_total s t Hne); congruence.
Qed.

Lemma string_eqb_neq s t : s <> t -> String.eqb s t = false.
Proof. intros Hne. destruct (String.eqb s t) eqn:E; [|done]. by apply String.eqb_eq in E. Qed.

(** ** Lemmas on options *)
Lemma opt_override_assoc {A} (a b c : option A) : a <~ b <~ c = a <~ (b <~ c).
Proof. by destruct a, b, c. Qed.

Lemma opt_override_None_l {A} (o : option A) : None <~ o = o.
Proof. by destruct o. Qed.

Lemma opt_override_idem {A} (o : option A) : o <~ o = o.
Proof. by destruct o. Qed.

Lemma opt_default_Some {A} (d : A) o : is_Some (opt_default d o).
Proof. destruct o; eauto. Qed.

Lemma opt_default_idem {A} (d : A) o : opt_default d (opt_default d o) = opt_default d o.
Proof. by destruct o. Qed.

#[export] Hint Rewrite @opt_override_None_l @opt_override_idem @opt_default_idem @opt_override_assoc : cts_rw.
#[export] Hint Resolve go_le_refl go_lt_irrefl opt_default_Some : cts.

(** ** Lemmas on lists keyed by a projection *)
Lemma NoDup_map_inj {A B} (f : A -> B) (l : list A) x y :
  NoDup (map f l) -> x ∈ l -> y ∈ l -> f x = f y -> x = y.
Proof.
  induction l as [|z l IH]; intros Hnd Hx Hy Hf; [set_solver|].
  simpl in Hnd. apply NoDup_cons in Hnd as [Hz Hnd].
  apply elem_of_cons in Hx as [->|Hx], Hy as [->|Hy]; auto.
  - destruct Hz. rewrite Hf. apply list_elem_of_In, in_map, list_elem_of_In, Hy.
  - destruct Hz. rewrite <- Hf. apply list_elem_of_In, in_map, list_elem_of_In, Hx.
Qed.

Lemma NoDup_map_perm {A B} (f : A -> B) (l1 l2 : list A) :
  l1 ≡ₚ l2 -> NoDup (map f l1) -> NoDup (map f l2).
Proof. intros Hp. by rewrite (Permutation_map f Hp). Qed.

Lemma foldl_ext_in {A B} (f g : A -> B -> A) (l : list B) (a : A) :
  (forall acc x, x ∈ l -> f acc x = g acc x) -> foldl f a l = foldl g a l.
Proof.
  revert a. induction l as [|x l IH]; intros a Hfg; simpl; [done|].
  rewrite Hfg by set_solver. apply IH. intros acc y Hy. apply Hfg. set_solver.
Qed.

(** Skipping some elements in a loop is looping over the others. *)
Lemma foldl_skip {A B} (P : B -> bool) (f : A -> B -> A) (l : list B) (a : A) :
  foldl (fun acc x => if P x then acc else f acc x) a l = foldl f a (filter (fun x => negb (P x)) l).
Proof.
  revert a. induction l as [|x l IH]; intros a; simpl; [done|].
  rewrite filter_cons. destruct (P x); simpl; apply IH.
Qed.

(** ** Lemmas on Go maps *)
Lemma gomap_lookup_elem {V} (m : gomap V) k v :
  gomap_wf m -> gomap_lookup k m = Some v <-> (k, v) ∈ m.
Proof.
  unfold gomap_wf, gomap_keys. induction m as [|[k' v'] m IH]; intros Hnd; simpl.
  - split; [done|]. intros Hin. by apply elem_of_nil in Hin.
  - apply NoDup_cons in Hnd as [Hk' Hnd]. rewrite elem_of_cons.
    destruct (String.eqb k k') eqn:E.
    + apply String.eqb_eq in E as ->. split.
      * intros [= ->]. by left.
      * intros [[= ->]|Hin]; [done|]. destruct Hk'.
        apply list_elem_of_In, in_map_iff. exists (k', v). split; [done|].
        by apply list_elem_of_In.
    + rewrite IH by done. split; [by right|]. intros [[= -> _]|Hin]; [|done].
      by rewrite String.eqb_refl in E.
Qed.

Lemma gomap_lookup_None {V} (m : gomap V) k :
  gomap_lookup k m = None <-> k ∉ gomap_keys m.
Proof.
  unfold gomap_keys. induction m as [|[k' v'] m IH]; simpl.
  - split; [intros _; apply not_elem_of_nil|done].
  - rewrite elem_of_cons. destruct (String.eqb k k') eqn:E.
    + apply String.eqb_eq in E as ->. split; [done|]. intros H. by destruct H; left.
    + rewrite IH. split; intros H; [intros [->|Hin]; [by rewrite String.eqb_refl in E|done]|].
      intros Hin. apply H. by right.
Qed.

(** Looking a key up does not depend on the iteration order. *)
Lemma gomap_lookup_perm {V} (m1 m2 : gomap V) k :
  gomap_wf m1 -> m1 ≡ₚ m2 -> gomap_lookup k m1 = gomap_lookup k m2.
Proof.
  intros Hwf Hp.
  assert (gomap_wf m2) as Hwf2 by (unfold gomap_wf, gomap_keys in *; by rewrite <- Hp).
  destruct (gomap_lookup k m1) as [v|] eqn:E1.
  - symmetry. apply gomap_lookup_elem; [done|]. rewrite <- Hp. by apply gomap_lookup_elem.
  - symmetry. apply gomap_lookup_None. apply gomap_lookup_None in E1.
    unfold gomap_keys in *. by rewrite <- Hp.
Qed.

Lemma gomap_keys_perm {V} (m1 m2 : gomap V) : m1 ≡ₚ m2 -> gomap_keys m1 ≡ₚ gomap_keys m2.
Proof. intros Hp. unfold gomap_keys. by rewrite Hp. Qed.

(** ** Strings split at a separator character *)
Fixpoint has_char (c : ascii) (s : string) : bool :=
  match s with
  | EmptyString => false
  | String a s' => Ascii.eqb a c || has_char c s'
  end.

(** The parts before and after the first [c]. *)
Fixpoint split_at (c : ascii) (s : string) : option (string * string) :=
  match s with
  | EmptyString => None
  | String a s' =>
      if Ascii.eqb a c then Some (EmptyString, s')
      else match split_at c s' with
           | Some (x, y) => Some (String a x, y)
           | None => None
           end
  end.

(** stdpp makes [String.append] [simpl never]; these two equations are
    its computation rules. *)
Lemma string_app_nil_l (t : string) : EmptyString +:+ t = t.
Proof. reflexivity. Qed.

Lemma string_app_cons a (s t : string) : String a s +:+ t = String a (s +:+ t).
Proof. reflexivity. Qed.

Lemma app_nil_r_string (s : string) : s +:+ EmptyString = s.
Proof. induction s as [|a s IH]; [done|]. by rewrite string_app_cons, IH. Qed.

Lemma string_app_assoc (x y z : string) : (x +:+ y) +:+ z = x +:+ y +:+ z.
Proof. induction x as [|a x IH]; [done|]. by rewrite !string_app_cons, IH. Qed.

Lemma has_char_app c x y : has_char c (x +:+ y) = has_char c x || has_char c y.
Proof.
  induction x as [|a x IH]; [done|]. rewrite string_app_cons. simpl. by rewrite IH, orb_assoc.
Qed.

(** [strings.Split(s, sep)]. *)
Fixpoint split_on (c : ascii) (s : string) : list string :=
  match s with
  | EmptyString => [EmptyString]
  | String a s' =>
      let rest := split_on c s' in
      if Ascii.eqb a c then EmptyString :: rest
      else match rest with
           | x :: r => String a x :: r
           | [] => [String a EmptyString]
           end
  end.

Lemma split_on_cons c s : exists x r, split_on c s = x :: r.
Proof.
  induction s as [|a s (x & r & IH)]; simpl; [by eexists _, _|].
  rewrite IH. destruct (Ascii.eqb a c); eauto.
Qed.

(** Splitting at a separator splits the parts on either side of it. *)
Lemma split_on_app_sep c x y : split_on c (x +:+ String c y) = split_on c x ++ split_on c y.
Proof.
  induction x as [|a x IH]; simpl.
  - by rewrite Ascii.eqb_refl.
  - rewrite IH. destruct (Ascii.eqb a c); [done|].
    by destruct (split_on_cons c x) as (u & r & ->).
Qed.

Lemma split_on_no_sep c y : has_char c y = false -> split_on c y = [y].
Proof.
  induction y as [|a y IH]; simpl; [done|].
  intros [Ha Hy]%orb_false_iff. by rewrite Ha, IH.
Qed.

(** ** [path.Clean] (and [filepath.Clean] on Unix)

    The path's segments are read left to right onto a stack: empty and
    [.] segments are dropped, [..] pops the last segment (or is kept at
    the start of a relative path, dropped at the root), any other segment
    is pushed. *)
Definition is_rooted (p : string) : bool :=
  match p with String "/" _ => true | _ => false end.

Definition clean_step (rooted : bool) (st : list string) (seg : string) : list string :=
  if String.eqb seg "" || String.eqb seg "." then st
  else if String.eqb seg ".." then
    match last st with
    | Some x => if String.eqb x ".." then st ++ [".."] else removelast st
    | None => if rooted then st else [".."]
    end
  else st ++ [seg].

Definition clean_stack (p : string) : list string :=
  foldl (clean_step (is_rooted p)) [] (split_on "/" p).

Definition Clean (p : string) : string :=
  if String.eqb p "" then "." else
  let st := clean_stack p in
  if is_rooted p then "/" +:+ String.concat "/" st
  else match st with [] => "." | _ => String.concat "/" st end.

(** A file name that [Clean] leaves alone inside a path. *)
Definition plain (f : string) : Prop :=
  f <> "" /\ has_char "/" f = false /\ f <> "." /\ f <> "..".

#[export] Instance plain_dec f : Decision (plain f).
Proof. unfold plain. apply _. Defined.

Lemma clean_step_plain rooted st f : plain f -> clean_step rooted st f = st ++ [f].
Proof.
  intros (H1 & _ & H3 & H4). unfold clean_step.
  rewrite !string_eqb_neq by congruence. done.
Qed.

(** The segments of a cleaned path, each followed by a slash. *)
Fixpoint slashed (st : list string) : string :=
  match st with [] => "" | x :: st' => x +:+ "/" +:+ slashed st' end.

Lemma concat_snoc (st : list string) f : String.concat "/" (st ++ [f]) = slashed st +:+ f.
Proof.
  induction st as [|x st IH]; [done|]. cbn [slashed app]. rewrite !string_app_assoc, <- IH.
  destruct (st ++ [f]) as [|y r] eqn:E; [by destruct st|]. reflexivity.
Qed.

Lemma is_rooted_app x y : x <> "" -> is_rooted (x +:+ y) = is_rooted x.
Proof. destruct x as [|a x]; [done|]. intros _. done. Qed.

(** Cleaning a path that ends in a plain file name cleans the directory
    part and appends the name. *)
Lemma Clean_plain dir f :
  dir <> "" -> plain f ->
  Clean (dir +:+ String "/" f) =
    (if is_rooted dir then "/" else "") +:+ slashed (foldl (clean_step (is_rooted dir)) [] (split_on "/" dir)) +:+ f.
Proof.
  intros Hd Hf. unfold Clean, clean_stack.
  rewrite string_eqb_neq by (destruct dir; [done|discriminate]).
  rewrite is_rooted_app by done.
  rewrite split_on_app_sep, (split_on_no_sep _ f) by apply Hf.
  rewrite foldl_app. simpl. rewrite clean_step_plain by done.
  destruct (is_rooted dir).
  - by rewrite concat_snoc.
  - destruct (foldl _ [] _ ++ [f]) eqn:E; [by destruct (foldl _ [] _)|].
    rewrite <- E, concat_snoc. done.
Qed.

Lemma Clean_plain_alone f : plain f -> Clean f = f.
Proof.
  intros Hf. destruct Hf as (H1 & H2 & H3 & H4). unfold Clean, clean_stack.
  rewrite string_eqb_neq by done.
  assert (is_rooted f = false) as ->.
  { destruct f as [|a f]; [done|]. simpl in H2. simpl.
    destruct (Ascii.eqb_spec a "/") as [->|Ha]; [done|].
    destruct a as [[] [] [] [] [] [] [] []]; done. }
  rewrite (split_on_no_sep _ f H2). simpl. by rewrite clean_step_plain by (split_and!; done).
Qed.



Lemma split_at_app c x y :
  has_char c x = false ->
  split_at c (x +:+ y) = (fun '(a, b) => (x +:+ a, b)) <$> split_at c y.
Proof.
  induction x as [|a x IH]; intros Hx.
  - rewrite string_app_nil_l. by destruct (split_at c y) as [[]|].
  - rewrite string_app_cons. simpl in *.
    apply orb_false_elim in Hx as [Ha Hx]. rewrite Ha, IH by done.
    by destruct (split_at c y) as [[]|].
Qed.

Lemma split_at_none c s : has_char c s = false -> split_at c s = None.
Proof.
  induction s as [|a s IH]; intros H; simpl in *; [done|].
  apply orb_false_elim in H as [Ha H]. by rewrite Ha, IH.
Qed.

Lemma split_at_sep c x y :
  has_char c x = false -> split_at c (x +:+ String c y) = Some (x, y).
Proof.
  intros Hx. rewrite split_at_app by done. simpl.
  rewrite Ascii.eqb_refl. simpl. by rewrite app_nil_r_string.
Qed.

(** Folding with a step that commutes on elements of distinct keys gives
    the same result for every order of a list without duplicate keys. *)
Lemma foldl_perm_comm {A B K} (key : B -> K) (f : A -> B -> A) (l1 l2 : list B) (a : A) :
  (forall acc x y, key x <> key y -> f (f acc x) y = f (f acc y) x) ->
  NoDup (map key l1) -> l1 ≡ₚ l2 -> foldl f a l1 = foldl f a l2.
Proof.
  intros Hcomm Hnd Hp. revert a Hnd.
  induction Hp as [|x l1 l2 Hp IH|x y l|l1 l2 l3 Hp1 IH1 Hp2 IH2]; intros a Hnd; simpl.
  - done.
  - apply IH. simpl in Hnd. by apply NoDup_cons in Hnd as [_ ?].
  - simpl in Hnd. apply NoDup_cons in Hnd as [Hy Hnd]. apply NoDup_cons in Hnd as [Hx _].
    rewrite Hcomm; [done|]. intros Hk. apply Hy. rewrite Hk. set_solver.
  - rewrite IH1 by done. apply IH2. by apply (NoDup_map_perm key l1).
Qed.
