(* ===== verification/GoSort.v ===== *)
(** * Go's [sort.Slice] and [sort.Strings]

    [root.go] sorts three times: [sort.Slice] on the providers and on the
    services (by [Name]), [sort.Strings] on map keys.  Go documents one
    contract for both, which is [SortSlice] here: the slice afterwards is a
    permutation of the slice before, and adjacent elements are in order
    of the key.  Stability is not part of it.

    [insertionSortLessFunc] is the algorithm Go's pdqsort (Go 1.19 on)
    runs on slices of at most 12 elements: each element is swapped to the
    left while it is strictly less than its neighbour.  It is an instance
    of the contract.  (Before Go 1.19 a pass that swaps elements six
    apart precedes it on slices of 7 to 12 elements; the slice does not
    pin the Go version, and the theorems that use this instance sort two
    elements, where both algorithms agree.)

    The theorem clients use, [sort_slice_deterministic], needs the
    contract only: when the keys are pairwise distinct, the output does not
    depend on the input order. *)

From S2P Require Import Prelude.

(** ** The contract of Go's sort functions, for a key-based [less] *)
Class SortSlice := {
  sort_slice : forall {A : Type}, (A -> string) -> list A -> list A;
  sort_slice_perm : forall {A} (key : A -> string) (l : list A),
    sort_slice key l ≡ₚ l;
  sort_slice_sorted : forall {A} (key : A -> string) (l : list A),
    Sorted (fun x y => go_le (key x) (key y)) (sort_slice key l)
}.

(** ** Go's insertion sort.  [r] is the sorted prefix [data[a..i)], read
    from its right end: [for j := i; j > a && less(data[j], data[j-1]); j--]
    swaps the new element left past every strictly greater one. *)
Fixpoint insert_rev {A} (key : A -> string) (x : A) (r : list A) : list A :=
  match r with
  | [] => [x]
  | y :: r' => if go_lt (key x) (key y) then y :: insert_rev key x r' else x :: r
  end.

Definition insertionSortLessFunc {A} (key : A -> string) (l : list A) : list A :=
  reverse (foldl (fun r x => insert_rev key x r) [] l).

Section InsertionSort.
Context {A : Type} (key : A -> string).

Let Rdesc (x y : A) : Prop := go_le (key y) (key x).

Lemma insert_rev_perm x r : insert_rev key x r ≡ₚ x :: r.
Proof.
  induction r as [|y r IH]; simpl; [done|].
  destruct (go_lt _ _); [|done].
  rewrite IH. apply Permutation_swap.
Qed.

Lemma insert_rev_hd x y r :
  Rdesc y x -> HdRel Rdesc y r -> HdRel Rdesc y (insert_rev key x r).
Proof.
  intros Hyx Hr. destruct r as [|z r]; simpl; [by constructor|].
  destruct (go_lt _ _); constructor; [by invc Hr|done].
Qed.

Lemma insert_rev_sorted x r : Sorted Rdesc r -> Sorted Rdesc (insert_rev key x r).
Proof.
  induction r as [|y r IH]; intros Hs; simpl; [by repeat constructor|].
  apply Sorted_inv in Hs as [Hs Hhd].
  destruct (go_lt (key x) (key y)) eqn:E.
  - constructor; [by apply IH|]. apply insert_rev_hd; [|done].
    by apply go_lt_asym.
  - constructor; [by constructor|]. by constructor.
Qed.

Lemma foldl_insert_perm r l :
  foldl (fun r x => insert_rev key x r) r l ≡ₚ reverse l ++ r.
Proof.
  revert r; induction l as [|x l IH]; intros r; simpl; [done|].
  rewrite IH, insert_rev_perm, reverse_cons, <- (assoc_L (++)). simpl. done.
Qed.

Lemma foldl_insert_sorted r l :
  Sorted Rdesc r -> Sorted Rdesc (foldl (fun r x => insert_rev key x r) r l).
Proof.
  revert r; induction l as [|x l IH]; intros r Hr; simpl; [done|].
  apply IH, insert_rev_sorted, Hr.
Qed.
End InsertionSort.

#[export] Hint Resolve insert_rev_sorted foldl_insert_sorted Sorted_nil : cts.

(** Not a global instance: a theorem either holds for every sort that
    meets the contract (a section [Context]) or names this one. *)
Definition insertion_sort : SortSlice.
Proof.
  refine {| sort_slice := @insertionSortLessFunc |}.
  - intros A key l. unfold insertionSortLessFunc.
    rewrite reverse_Permutation, foldl_insert_perm, app_nil_r.
    apply reverse_Permutation.
  - intros A key l. unfold insertionSortLessFunc.
    apply (Sorted_reverse (fun x y => go_le (key y) (key x))). eauto with cts.
Defined.

(** ** What every client of the contract gets *)
Section Contract.
Context `{SortSlice} {A : Type} (key : A -> string).

Lemma sorted_key_unique (l1 l2 : list A) :
  NoDup (map key l1) -> l1 ≡ₚ l2 ->
  Sorted (fun x y => go_le (key x) (key y)) l1 ->
  Sorted (fun x y => go_le (key x) (key y)) l2 -> l1 = l2.
Proof.
  intros Hnd Hp Hs1 Hs2.
  assert (Transitive (fun x y => go_le (key x) (key y))) as Htr
    by (intros x y z; apply go_le_trans).
  apply (Sorted_unique_strong (fun x y => go_le (key x) (key y))); [|done|done|done].
  intros x1 x2 Hx1 Hx2 H12 H21.
  apply (NoDup_map_inj key l1); [done|done| |].
  - by rewrite Hp.
  - by apply go_le_antisym.
Qed.

Lemma sort_slice_in (l : list A) x : x ∈ sort_slice key l <-> x ∈ l.
Proof. by rewrite sort_slice_perm. Qed.

Lemma sort_slice_keys_NoDup (l : list A) :
  NoDup (map key l) -> NoDup (map key (sort_slice key l)).
Proof. apply NoDup_map_perm. symmetry. apply sort_slice_perm. Qed.
End Contract.

(** Any sort satisfying the contract: on slices whose keys are pairwise
    distinct, two inputs that are permutations of each other give the same
    output.  This is what makes [Init]'s sorting hide construction order. *)
Theorem sort_slice_deterministic `{SortSlice} {A} (key : A -> string) (l1 l2 : list A) :
  NoDup (map key l1) -> l1 ≡ₚ l2 -> sort_slice key l1 = sort_slice key l2.
Proof.
  intros Hnd Hp. apply (sorted_key_unique key).
  - by apply sort_slice_keys_NoDup.
  - by rewrite !sort_slice_perm.
  - apply sort_slice_sorted.
  - apply sort_slice_sorted.
Qed.

(** A sort that meets the contract sorts an already-sorted list with
    distinct keys to itself. *)
Lemma sort_slice_sorted_id `{SortSlice} {A} (key : A -> string) (l : list A) :
  NoDup (map key l) -> Sorted (fun x y => go_le (key x) (key y)) l ->
  sort_slice key l = l.
Proof.
  intros Hnd Hs. apply (sorted_key_unique key); [| |apply sort_slice_sorted|done].
  - by apply sort_slice_keys_NoDup.
  - apply sort_slice_perm.
Qed.

Lemma sort_slice_nil `{SortSlice} {A} (key : A -> string) : sort_slice key [] = [].
Proof. apply Permutation_nil. symmetry. apply sort_slice_perm. Qed.

Lemma sort_slice_NoDup `{SortSlice} (l : list string) :
  NoDup l -> NoDup (sort_slice (fun s => s) l).
Proof.
  intros Hnd. pose proof (sort_slice_keys_NoDup (fun s => s) l) as H'.
  rewrite !map_id in H'. by apply H'.
Qed.

Lemma sort_slice_singleton `{SortSlice} {A} (key : A -> string) x : sort_slice key [x] = [x].
Proof. apply Permutation_singleton_r. apply sort_slice_perm. Qed.
