(* ===== verification/MonitorConfig.v ===== *)
(** * The contract of a watch-source configuration kind

    Every kind of the Go interface [MonitorConfig] has the methods [Copy],
    [Merge], [Finalize] and [Validate].  [MonitorConfigOps] states them
    for configurations of one kind ([mc_nil] is the nil pointer), and
    [MonitorConfigLaws] states what a kind promises to the scheduler that
    resolves a task's configuration: copies are equal to the original,
    nil is neutral for merge, merge is associative and idempotent,
    finalize keeps nil and is idempotent, and nil validates.

    [merge_all] and [resolve] are the lifecycle the spec gives the
    scheduler (merge the fragments in order, finalize, validate); the
    theorems about them use the laws only, so they hold for every kind
    that discharges the laws ([MonitorConsulKV] does). *)

From S2P Require Import Prelude.

Class MonitorConfigOps (T : Type) := {
  mc_nil : T;
  mc_copy : T -> T;
  mc_merge : T -> T -> T;
  mc_finalize : list string -> T -> T;
  mc_validate : T -> option go_error
}.

Class MonitorConfigLaws (T : Type) `{MonitorConfigOps T} := {
  mc_copy_id : forall c, mc_copy c = c;
  mc_merge_nil_l : forall o, mc_merge mc_nil o = mc_copy o;
  mc_merge_nil_r : forall c, mc_merge c mc_nil = mc_copy c;
  mc_merge_assoc : forall a b c, mc_merge (mc_merge a b) c = mc_merge a (mc_merge b c);
  mc_merge_idem : forall c, mc_merge c c = c;
  mc_finalize_nil : forall x, mc_finalize x mc_nil = mc_nil;
  mc_finalize_idem : forall x c, mc_finalize x (mc_finalize x c) = mc_finalize x c;
  mc_validate_nil : mc_validate mc_nil = None
}.

Section Pipeline.
Context {T : Type} `{MonitorConfigLaws T}.

(** The fragments in precedence order: a later fragment wins. *)
Definition merge_all (frags : list T) : T := foldl mc_merge mc_nil frags.

(** Merge, finalize with the ambient names, validate. *)
Definition resolve (ctx : list string) (frags : list T) : go_error + T :=
  let c := mc_finalize ctx (merge_all frags) in
  match mc_validate c with
  | Some e => inl e
  | None => inr c
  end.

Lemma foldl_merge_from (c : T) (l : list T) :
  foldl mc_merge c l = mc_merge c (merge_all l).
Proof.
  unfold merge_all. revert c. induction l as [|x l IH]; intros c; simpl.
  - by rewrite mc_merge_nil_r, mc_copy_id.
  - rewrite IH, (IH (mc_merge mc_nil x)), mc_merge_nil_l, mc_copy_id.
    apply mc_merge_assoc.
Qed.

(** Merging the fragments of two lists is merging the two results. *)
Lemma merge_all_app (l1 l2 : list T) :
  merge_all (l1 ++ l2) = mc_merge (merge_all l1) (merge_all l2).
Proof. unfold merge_all at 1. by rewrite foldl_app, foldl_merge_from. Qed.

Lemma merge_all_cons (c : T) (l : list T) :
  merge_all (c :: l) = mc_merge c (merge_all l).
Proof.
  unfold merge_all at 1. simpl.
  by rewrite mc_merge_nil_l, mc_copy_id, foldl_merge_from.
Qed.

(** Repeating the whole list of fragments changes nothing. *)
Lemma merge_all_dup (l : list T) : merge_all (l ++ l) = merge_all l.
Proof. by rewrite merge_all_app, mc_merge_idem. Qed.

(** A task with no fragment has no watch source, and that is no error. *)
Lemma resolve_nil ctx : resolve ctx [] = inr mc_nil.
Proof. unfold resolve, merge_all. simpl. by rewrite mc_finalize_nil, mc_validate_nil. Qed.

(** What [resolve] hands to the scheduler is finalized and valid. *)
Lemma resolve_ok ctx frags c :
  resolve ctx frags = inr c -> mc_finalize ctx c = c /\ mc_validate c = None.
Proof.
  unfold resolve. destruct (mc_validate _) eqn:E; intros Hr; [done|].
  injection Hr as <-. split; [apply mc_finalize_idem|done].
Qed.
End Pipeline.
