(* ===== verification/MonitorConsulKV.v ===== *)
(** * [src/config/monitor_consul_kv.go]: the Consul KV watch source

    [ConsulKVMonitorConfig] is the Go struct: five pointer fields, [None]
    for a nil pointer.  A pointer to the struct is [option
    ConsulKVMonitorConfig].  A value of the Go interface [MonitorConfig] is
    [option MonitorConfig]: [None] is the untyped nil interface,
    [MCConsulKV None] a typed nil [*ConsulKVMonitorConfig], and [MCOther]
    stands for the kinds whose code is not in the slice (their own
    typed nil when [is_nil] is set).

    The model is a value model: [StringCopy] and [BoolCopy] allocate fresh
    pointers in Go, so no result of [Copy] or [Merge] shares a pointer with
    an argument, and equality of values is all a caller can observe.
    [ConsulKVHeap] runs the same methods on a heap of pointers and proves
    both facts: the results read back as this model's values, and they
    share no cell with the arguments.

    [Module KV] translates [Copy], [Merge], [Finalize], [Validate] and
    [GoString]; [Finalize] mutates its receiver in Go and returns the new
    value here. *)

From S2P Require Import Prelude MonitorConfig.

Record ConsulKVMonitorConfig := mkConsulKVMonitorConfig {
  Path : option string;
  SourceIncludesVar : option bool;
  Recurse : option bool;
  Datacenter : option string;
  Namespace : option string
}.

#[export] Instance ConsulKVMonitorConfig_eq_dec : EqDecision ConsulKVMonitorConfig.
Proof. solve_decision. Defined.

Inductive MonitorConfig :=
| MCConsulKV (c : option ConsulKVMonitorConfig)
| MCOther (kind : string) (is_nil : bool).

#[export] Instance MonitorConfig_eq_dec : EqDecision MonitorConfig.
Proof. solve_decision. Defined.

(** ** Helpers of the config package ([config.go], [condition.go]) *)
Definition StringCopy (s : option string) : option string := s.
Definition BoolCopy (b : option bool) : option bool := b.
Definition StringPtr (s : string) : option string := Some s.
Definition BoolPtr (b : bool) : option bool := Some b.
Definition StringVal (s : option string) : string :=
  match s with Some v => v | None => "" end.
Definition BoolVal (b : option bool) : bool :=
  match b with Some v => v | None => false end.

(** [isConditionNil]: the interface is nil, or holds a nil pointer. *)
Definition isConditionNil (o : option MonitorConfig) : bool :=
  match o with
  | None => true
  | Some (MCConsulKV None) => true
  | Some (MCConsulKV (Some _)) => false
  | Some (MCOther _ is_nil) => is_nil
  end.

(** [%v] of a [bool]. *)
Definition fmt_bool (b : bool) : string := if b then "true" else "false".

Module KV.

Definition Copy (c : option ConsulKVMonitorConfig) : option MonitorConfig :=
  match c with
  | None => None
  | Some c =>
      Some (MCConsulKV (Some {|
        Path := StringCopy (Path c);
        Recurse := BoolCopy (Recurse c);
        SourceIncludesVar := BoolCopy (SourceIncludesVar c);
        Datacenter := StringCopy (Datacenter c);
        Namespace := StringCopy (Namespace c) |}))
  end.

(** [o.Copy()] on a non-nil interface value: dynamic dispatch. *)
Definition iface_Copy (o : option MonitorConfig) : option MonitorConfig :=
  match o with
  | Some (MCConsulKV c) => Copy c
  | Some (MCOther k is_nil) => if is_nil then None else Some (MCOther k false)
  | None => None
  end.

(** Lines 57-75: each field set on [o2] overwrites the copy [r2]. *)
Definition merge_fields (r2 o2 : ConsulKVMonitorConfig) : ConsulKVMonitorConfig :=
  {| Path := match Path o2 with Some _ => StringCopy (Path o2) | None => Path r2 end;
     SourceIncludesVar := match SourceIncludesVar o2 with
                          | Some _ => BoolCopy (SourceIncludesVar o2)
                          | None => SourceIncludesVar r2 end;
     Recurse := match Recurse o2 with Some _ => BoolCopy (Recurse o2) | None => Recurse r2 end;
     Datacenter := match Datacenter o2 with
                   | Some _ => StringCopy (Datacenter o2) | None => Datacenter r2 end;
     Namespace := match Namespace o2 with
                  | Some _ => StringCopy (Namespace o2) | None => Namespace r2 end |}.

Definition Merge (c : option ConsulKVMonitorConfig) (o : option MonitorConfig)
    : option MonitorConfig :=
  match c with
  | None => if isConditionNil o then None else iface_Copy o
  | Some _ =>
      if isConditionNil o then Copy c else
      let r := Copy c in
      match o with
      | Some (MCConsulKV (Some o2)) =>
          match r with
          | Some (MCConsulKV (Some r2)) => Some (MCConsulKV (Some (merge_fields r2 o2)))
          | _ => r
          end
      | _ => r
      end
  end.

Definition Finalize (c : option ConsulKVMonitorConfig) (_ : list string)
    : option ConsulKVMonitorConfig :=
  match c with
  | None => None
  | Some c =>
      Some {| Path := match Path c with None => StringPtr "" | p => p end;
              SourceIncludesVar := match SourceIncludesVar c with
                                   | None => BoolPtr false | b => b end;
              Recurse := match Recurse c with None => BoolPtr false | b => b end;
              Datacenter := match Datacenter c with None => StringPtr "" | d => d end;
              Namespace := match Namespace c with None => StringPtr "" | n => n end |}
  end.

Definition path_required : go_error :=
  ErrorString "path is required for consul-kv condition".

Definition Validate (c : option ConsulKVMonitorConfig) : option go_error :=
  match c with
  | None => None
  | Some c =>
      match Path c with
      | None => Some path_required
      | Some p => if String.eqb p "" then Some path_required else None
      end
  end.

Definition GoString (c : option ConsulKVMonitorConfig) : string :=
  match c with
  | None => "(*ConsulKVMonitorConfig)(nil)"
  | Some c =>
      "&ConsulKVMonitorConfig{" +:+
      "Path:" +:+ StringVal (Path c) +:+ ", " +:+
      "SourceIncludesVar:" +:+ fmt_bool (BoolVal (SourceIncludesVar c)) +:+ ", " +:+
      "Recurse:" +:+ fmt_bool (BoolVal (Recurse c)) +:+ ", " +:+
      "Datacenter:" +:+ StringVal (Datacenter c) +:+ ", " +:+
      "Namespace:" +:+ StringVal (Namespace c) +:+ ", " +:+
      "}"
  end.

(** ** Specifications *)

(** The abstract merge: every field [b] sets wins, the others are [a]'s. *)
Definition override (a b : ConsulKVMonitorConfig) : ConsulKVMonitorConfig :=
  {| Path := Path a <~ Path b;
     SourceIncludesVar := SourceIncludesVar a <~ SourceIncludesVar b;
     Recurse := Recurse a <~ Recurse b;
     Datacenter := Datacenter a <~ Datacenter b;
     Namespace := Namespace a <~ Namespace b |}.

(** The abstract finalize: every field holds its value, nil read as the
    zero value. *)
Definition defaulted (c : ConsulKVMonitorConfig) : ConsulKVMonitorConfig :=
  {| Path := Some (StringVal (Path c));
     SourceIncludesVar := Some (BoolVal (SourceIncludesVar c));
     Recurse := Some (BoolVal (Recurse c));
     Datacenter := Some (StringVal (Datacenter c));
     Namespace := Some (StringVal (Namespace c)) |}.

Definition finalized (c : ConsulKVMonitorConfig) : Prop :=
  is_Some (Path c) /\ is_Some (SourceIncludesVar c) /\ is_Some (Recurse c) /\
  is_Some (Datacenter c) /\ is_Some (Namespace c).

Definition kv (c : option ConsulKVMonitorConfig) : option MonitorConfig :=
  match c with None => None | Some c => Some (MCConsulKV (Some c)) end.

(** ** Copy *)

(** [Copy] returns a configuration equal to the receiver, and the untyped
    nil interface for a nil receiver. *)
Lemma Copy_value c : Copy c = kv c.
Proof. by destruct c as [[]|]. Qed.

Lemma iface_Copy_kv c : iface_Copy (Some (MCConsulKV c)) = kv c.
Proof. apply Copy_value. Qed.

(** ** Merge *)

(** C4: for two configurations of this kind, [Merge] is the receiver with
    exactly the fields the argument sets overwritten. *)
Theorem Merge_precedence (a b : ConsulKVMonitorConfig) :
  Merge (Some a) (Some (MCConsulKV (Some b))) = Some (MCConsulKV (Some (override a b))).
Proof. reflexivity. Qed.

Lemma override_unset_keeps a b :
  Path b = None -> SourceIncludesVar b = None -> Recurse b = None ->
  Datacenter b = None -> Namespace b = None -> override a b = a.
Proof. destruct a, b; simpl; intros -> -> -> -> ->. done. Qed.

Lemma override_assoc a b c : override (override a b) c = override a (override b c).
Proof. unfold override. simpl. by autorewrite with cts_rw. Qed.

Lemma override_idem a : override a a = a.
Proof. destruct a. unfold override. simpl. by autorewrite with cts_rw. Qed.

(** C25: Nil on either side: a nil argument (untyped, or a typed nil of any
    kind) gives a copy of the receiver; a nil receiver gives a copy of
    the argument, nil when the argument is nil too. *)
Theorem Merge_absent (a : ConsulKVMonitorConfig) (o : option MonitorConfig) :
  (isConditionNil o = true -> Merge (Some a) o = Some (MCConsulKV (Some a))) /\
  (isConditionNil o = true -> Merge None o = None) /\
  Merge None (Some (MCConsulKV (Some a))) = Some (MCConsulKV (Some a)).
Proof. unfold Merge. split_and!; intros; rewrite ?H; try apply Copy_value; done. Qed.

(** Merging with a configuration of another kind is not an error: the
    receiver comes back unchanged; a nil receiver gives the other
    configuration, of the other kind. *)
Theorem Merge_cross_kind (a : ConsulKVMonitorConfig) (k : string) :
  Merge (Some a) (Some (MCOther k false)) = Some (MCConsulKV (Some a)) /\
  Merge None (Some (MCOther k false)) = Some (MCOther k false).
Proof. split; [apply Copy_value|done]. Qed.

(** ** Finalize *)

(** [Finalize] sets every nil field to its zero value and keeps the
    others; a nil receiver stays nil. *)
Theorem Finalize_spec (c : option ConsulKVMonitorConfig) (x : list string) :
  Finalize c x = defaulted <$> c.
Proof. by destruct c as [[[] [] [] [] []]|]. Qed.

Lemma defaulted_finalized c : finalized (defaulted c).
Proof. repeat split; eexists; done. Qed.

Lemma defaulted_idem c : defaulted (defaulted c) = defaulted c.
Proof. done. Qed.

Lemma defaulted_keeps_finalized c : finalized c -> defaulted c = c.
Proof.
  destruct c as [[] [] [] [] []]; intros (H1&H2&H3&H4&H5); simpl in *;
    try by destruct H1; try by destruct H2; try by destruct H3;
    try by destruct H4; by destruct H5.
Qed.

(** C5: After [Finalize] no field of a configuration is nil. *)
Theorem Finalize_complete (c : ConsulKVMonitorConfig) (x : list string) :
  exists f, Finalize (Some c) x = Some f /\ finalized f.
Proof. exists (defaulted c). rewrite Finalize_spec. split; [done|apply defaulted_finalized]. Qed.

(** C26: [Finalize] is idempotent, whatever ambient names either call gets. *)
Theorem Finalize_idempotent (c : option ConsulKVMonitorConfig) (x y : list string) :
  Finalize (Finalize c x) y = Finalize c x.
Proof. rewrite !Finalize_spec. by destruct c. Qed.

(** ** Validate *)

(** After [Finalize], [Validate] succeeds exactly when a non-empty path
    was given, and otherwise names the path. *)
Theorem Validate_after_Finalize (c : ConsulKVMonitorConfig) (x : list string) :
  Validate (Finalize (Some c) x) =
    if String.eqb (StringVal (Path c)) "" then Some path_required else None.
Proof. by rewrite Finalize_spec. Qed.

Lemma Validate_after_Finalize_ok c x :
  Validate (Finalize (Some c) x) = None <-> exists p, Path c = Some p /\ p <> "".
Proof.
  rewrite Finalize_spec. simpl. destruct (Path c) as [p|]; simpl.
  - destruct (String.eqb p "") eqn:E; split; intros H; try done.
    + apply String.eqb_eq in E as ->. by destruct H as (q & [= <-] & Hq).
    + exists p. split; [done|]. intros ->. by rewrite String.eqb_refl in E.
  - split; [done|]. by intros (q & ? & _).
Qed.

(** A configuration whose path is cleared to the empty string fails
    validation naming the path, whatever its other fields; a nil
    configuration always validates. *)
Theorem Validate_cleared_path (c : ConsulKVMonitorConfig) :
  Validate (Some {| Path := Some ""; SourceIncludesVar := SourceIncludesVar c;
                    Recurse := Recurse c; Datacenter := Datacenter c;
                    Namespace := Namespace c |}) = Some path_required /\
  Validate None = None.
Proof. done. Qed.

(** ** GoString *)

(** [GoString] prints nil fields as their zero values, so finalizing a
    configuration does not change how it prints. *)
Theorem GoString_Finalize (c : option ConsulKVMonitorConfig) (x : list string) :
  GoString (Finalize c x) = GoString c.
Proof. rewrite Finalize_spec. by destruct c. Qed.

End KV.

(** ** This kind discharges the watch-source contract *)

(** The configuration of an interface value of this kind. *)
Definition as_kv (o : option MonitorConfig) : option ConsulKVMonitorConfig :=
  match o with Some (MCConsulKV c) => c | _ => None end.

#[export] Instance ConsulKV_ops : MonitorConfigOps (option ConsulKVMonitorConfig) := {|
  mc_nil := None;
  mc_copy c := as_kv (KV.Copy c);
  mc_merge c o := as_kv (KV.Merge c (Some (MCConsulKV o)));
  mc_finalize x c := KV.Finalize c x;
  mc_validate := KV.Validate
|}.

(** Same-kind [Merge] loses nothing by going through [as_kv]. *)
Lemma Merge_same_kind (c o : option ConsulKVMonitorConfig) :
  KV.Merge c (Some (MCConsulKV o)) = KV.kv (mc_merge c o).
Proof. by destruct c as [a|], o as [b|]; simpl; rewrite ?KV.Copy_value. Qed.

Lemma mc_merge_kv (c o : option ConsulKVMonitorConfig) :
  mc_merge c o =
    match c, o with
    | Some a, Some b => Some (KV.override a b)
    | None, o => o
    | c, None => c
    end.
Proof. by destruct c as [[]|], o as [[]|]. Qed.

#[export] Instance ConsulKV_laws : MonitorConfigLaws (option ConsulKVMonitorConfig).
Proof.
  split.
  - intros c. by destruct c as [[]|].
  - intros o. rewrite mc_merge_kv. by destruct o as [[]|].
  - intros c. rewrite mc_merge_kv. by destruct c as [[]|].
  - intros a b c. rewrite !mc_merge_kv.
    destruct a, b, c; simpl; rewrite ?mc_merge_kv; try done.
    by rewrite KV.override_assoc.
  - intros c. rewrite mc_merge_kv. destruct c; [|done]. by rewrite KV.override_idem.
  - done.
  - intros x c. simpl. rewrite !KV.Finalize_spec. by destruct c.
  - done.
Qed.

(** [Merge] on configurations of this kind is associative: merging
    fragments left to right or grouping them any other way gives the same
    configuration, so the scheduler's fold over fragments is well defined. *)
Theorem Merge_assoc (a b c : option ConsulKVMonitorConfig) :
  as_kv (KV.Merge (as_kv (KV.Merge a (Some (MCConsulKV b)))) (Some (MCConsulKV c))) =
  as_kv (KV.Merge a (Some (MCConsulKV (as_kv (KV.Merge b (Some (MCConsulKV c))))))).
Proof. exact (mc_merge_assoc a b c). Qed.
