(* ===== verification/ConsulKVHeap.v ===== *)
(** * [src/config/monitor_consul_kv.go] over a heap: pointers and aliasing

    [MonitorConsulKV] models the configuration as a value.  Go's code works
    on pointers: the struct is reached through [*ConsulKVMonitorConfig],
    each field is a [*string] or [*bool], [Finalize] assigns fields of its
    receiver in place, and [Copy] and [Merge] build new structs whose
    fields come from [StringCopy]/[BoolCopy] (a fresh allocation each).
    Whether a caller that keeps a configuration can see a later mutation of
    a copy or a merge result depends on which cells are shared, which the
    value model cannot say.

    Here the heap is a [gmap] from locations to cells (a string, a bool, or
    a struct of five field pointers), the methods are written statement by
    statement in a state monad [ST] over it (with stdpp's [x ← m; k]
    notation), and [read] takes a pointer back to the value model.  The
    theorems: [read] of what [Copy], [Merge] and [Finalize] return is what
    the value model's [KV.Copy], [KV.Merge] and [KV.Finalize] compute; the
    cells reachable from a [Copy] or [Merge] result were all allocated by
    the call, so mutating the result never changes what the arguments
    read; [Finalize] writes only its receiver's struct cell. *)

From stdpp Require Import gmap.
From S2P Require Import Prelude MonitorConfig MonitorConsulKV.

Create HintDb kv_heap.

Definition loc := positive.

(** The struct: its five fields, each a pointer ([None] is nil). *)
Record KVFields := mkKVFields {
  fPath : option loc;
  fSourceIncludesVar : option loc;
  fRecurse : option loc;
  fDatacenter : option loc;
  fNamespace : option loc
}.

Definition zero_fields : KVFields := mkKVFields None None None None None.

Inductive cell :=
| CString (s : string)
| CBool (b : bool)
| CStruct (s : KVFields).

Notation Heap := (gmap loc cell).

(** A non-nil value of the interface [MonitorConfig]: a
    [*ConsulKVMonitorConfig] (possibly nil) or another kind. *)
Inductive iface :=
| IConsulKV (p : option loc)
| IOther (kind : string) (is_nil : bool).

(** ** The state monad *)

Definition ST (A : Type) : Type := Heap -> A * Heap.

#[export] Instance ST_ret : MRet ST := fun A a h => (a, h).
#[export] Instance ST_bind : MBind ST := fun A B k m h => let '(a, h1) := m h in k a h1.

Definition alloc (c : cell) : ST loc := fun h => let l := fresh (dom h) in (l, <[l := c]> h).
Definition load (l : loc) : ST (option cell) := fun h => (h !! l, h).
Definition store (l : loc) (c : cell) : ST unit := fun h => (tt, <[l := c]> h).

(** [*p] for a [*string] and a [*bool]. *)
Definition load_string (l : loc) : ST string :=
  c ← load l; mret (match c with Some (CString s) => s | _ => "" end).
Definition load_bool (l : loc) : ST bool :=
  c ← load l; mret (match c with Some (CBool b) => b | _ => false end).

(** The struct a [*ConsulKVMonitorConfig] points to, and the assignment
    of one of its fields. *)
Definition get_fields (l : loc) : ST KVFields :=
  c ← load l; mret (match c with Some (CStruct s) => s | _ => zero_fields end).
Definition set_field (l : loc) (upd : KVFields -> KVFields) : ST unit :=
  s ← get_fields l; store l (CStruct (upd s)).

Definition set_Path (v : option loc) (s : KVFields) : KVFields :=
  mkKVFields v (fSourceIncludesVar s) (fRecurse s) (fDatacenter s) (fNamespace s).
Definition set_SourceIncludesVar (v : option loc) (s : KVFields) : KVFields :=
  mkKVFields (fPath s) v (fRecurse s) (fDatacenter s) (fNamespace s).
Definition set_Recurse (v : option loc) (s : KVFields) : KVFields :=
  mkKVFields (fPath s) (fSourceIncludesVar s) v (fDatacenter s) (fNamespace s).
Definition set_Datacenter (v : option loc) (s : KVFields) : KVFields :=
  mkKVFields (fPath s) (fSourceIncludesVar s) (fRecurse s) v (fNamespace s).
Definition set_Namespace (v : option loc) (s : KVFields) : KVFields :=
  mkKVFields (fPath s) (fSourceIncludesVar s) (fRecurse s) (fDatacenter s) v.

Module KVH.

(** ** The config helpers: [String], [Bool], [StringCopy], [BoolCopy] *)

Definition String (s : string) : ST (option loc) := l ← alloc (CString s); mret (Some l).
Definition Bool (b : bool) : ST (option loc) := l ← alloc (CBool b); mret (Some l).

Definition StringCopy (p : option loc) : ST (option loc) :=
  match p with None => mret None | Some l => s ← load_string l; String s end.
Definition BoolCopy (p : option loc) : ST (option loc) :=
  match p with None => mret None | Some l => b ← load_bool l; Bool b end.

Definition isConditionNil (o : option iface) : bool :=
  match o with
  | None | Some (IConsulKV None) => true
  | Some (IConsulKV (Some _)) => false
  | Some (IOther _ is_nil) => is_nil
  end.


(** [o.F = StringCopy(c.F)] (or [BoolCopy]) in [Copy]. *)
Definition copy_field (get : KVFields -> option loc) (set : option loc -> KVFields -> KVFields)
    (cp : option loc -> ST (option loc)) (c o : loc) : ST unit :=
  s ← get_fields c; v ← cp (get s); set_field o (set v).

(** Lines 19-33. *)
Definition Copy (c : option loc) : ST (option iface) :=
  match c with
  | None => mret None
  | Some cl =>
      o ← alloc (CStruct zero_fields);
      copy_field fPath set_Path StringCopy cl o;;
      copy_field fRecurse set_Recurse BoolCopy cl o;;
      copy_field fSourceIncludesVar set_SourceIncludesVar BoolCopy cl o;;
      copy_field fDatacenter set_Datacenter StringCopy cl o;;
      copy_field fNamespace set_Namespace StringCopy cl o;;
      mret (Some (IConsulKV (Some o)))
  end.

(** [o.Copy()] on a non-nil interface value; the other kinds' [Copy] is
    not in the slice and is taken to allocate nothing here. *)
Definition iface_Copy (o : option iface) : ST (option iface) :=
  match o with
  | Some (IConsulKV c) => Copy c
  | Some (IOther k is_nil) => mret (if is_nil then None else Some (IOther k false))
  | None => mret None
  end.

(** [if o2.F != nil { r2.F = StringCopy(o2.F) }] in [Merge]. *)
Definition merge_field (get : KVFields -> option loc) (set : option loc -> KVFields -> KVFields)
    (cp : option loc -> ST (option loc)) (o2 r2 : loc) : ST unit :=
  s ← get_fields o2;
  match get s with
  | Some _ => v ← cp (get s); set_field r2 (set v)
  | None => mret tt
  end.

(** Lines 35-78. *)
Definition Merge (c : option loc) (o : option iface) : ST (option iface) :=
  match c with
  | None => if isConditionNil o then mret None else iface_Copy o
  | Some _ =>
      if isConditionNil o then Copy c else
      r ← Copy c;
      match o, r with
      | Some (IConsulKV (Some o2)), Some (IConsulKV (Some r2)) =>
          merge_field fPath set_Path StringCopy o2 r2;;
          merge_field fSourceIncludesVar set_SourceIncludesVar BoolCopy o2 r2;;
          merge_field fRecurse set_Recurse BoolCopy o2 r2;;
          merge_field fDatacenter set_Datacenter StringCopy o2 r2;;
          merge_field fNamespace set_Namespace StringCopy o2 r2;;
          mret (Some (IConsulKV (Some r2)))
      | _, _ => mret r
      end
  end.

(** [if c.F == nil { c.F = String("") }] in [Finalize]. *)
Definition fill_field (get : KVFields -> option loc) (set : option loc -> KVFields -> KVFields)
    (zero : ST (option loc)) (c : loc) : ST unit :=
  s ← get_fields c;
  match get s with
  | None => v ← zero; set_field c (set v)
  | Some _ => mret tt
  end.

(** Lines 80-106: the receiver is assigned in place. *)
Definition Finalize (c : option loc) (_ : list string) : ST unit :=
  match c with
  | None => mret tt
  | Some cl =>
      fill_field fPath set_Path (String "") cl;;
      fill_field fSourceIncludesVar set_SourceIncludesVar (Bool false) cl;;
      fill_field fRecurse set_Recurse (Bool false) cl;;
      fill_field fDatacenter set_Datacenter (String "") cl;;
      fill_field fNamespace set_Namespace (String "") cl
  end.

(** Lines 108-120. *)
Definition Validate (c : option loc) : ST (option go_error) :=
  match c with
  | None => mret None
  | Some cl =>
      s ← get_fields cl;
      match fPath s with
      | None => mret (Some KV.path_required)
      | Some l =>
          p ← load_string l;
          mret (if String.eqb p "" then Some KV.path_required else None)
      end
  end.

End KVH.

(** ** Reading a pointer back as a value *)

Definition cell_at (h : Heap) (p : option loc) : option cell := p ≫= (h !!.).

Definition read_string (h : Heap) (p : option loc) : option string :=
  match cell_at h p with Some (CString s) => Some s | _ => None end.
Definition read_bool (h : Heap) (p : option loc) : option bool :=
  match cell_at h p with Some (CBool b) => Some b | _ => None end.

Definition read_fields (h : Heap) (s : KVFields) : ConsulKVMonitorConfig :=
  {| Path := read_string h (fPath s);
     SourceIncludesVar := read_bool h (fSourceIncludesVar s);
     Recurse := read_bool h (fRecurse s);
     Datacenter := read_string h (fDatacenter s);
     Namespace := read_string h (fNamespace s) |}.

Definition read (h : Heap) (p : option loc) : option ConsulKVMonitorConfig :=
  match cell_at h p with Some (CStruct s) => Some (read_fields h s) | _ => None end.

Definition read_iface (h : Heap) (o : option iface) : option MonitorConfig :=
  match o with
  | None => None
  | Some (IConsulKV p) => Some (MCConsulKV (read h p))
  | Some (IOther k n) => Some (MCOther k n)
  end.

(** ** Typing: pointers point to cells of their type *)

Definition str_ok (h : Heap) (p : option loc) : Prop :=
  match p with None => True | Some l => exists s, h !! l = Some (CString s) end.
Definition bool_ok (h : Heap) (p : option loc) : Prop :=
  match p with None => True | Some l => exists b, h !! l = Some (CBool b) end.
Definition struct_ok (h : Heap) (p : option loc) : Prop :=
  match p with None => True | Some l => exists s, h !! l = Some (CStruct s) end.

Definition fields_ok (h : Heap) (s : KVFields) : Prop :=
  str_ok h (fPath s) /\ bool_ok h (fSourceIncludesVar s) /\ bool_ok h (fRecurse s) /\
  str_ok h (fDatacenter s) /\ str_ok h (fNamespace s).

Definition heap_wf (h : Heap) : Prop :=
  forall l s, h !! l = Some (CStruct s) -> fields_ok h s.

Definition iface_ok (h : Heap) (o : option iface) : Prop :=
  match o with Some (IConsulKV p) => struct_ok h p | _ => True end.

(** ** Reachability *)

Definition ptr_locs (p : option loc) : gset loc :=
  match p with None => ∅ | Some l => {[l]} end.

Definition field_locs (s : KVFields) : gset loc :=
  ptr_locs (fPath s) ∪ ptr_locs (fSourceIncludesVar s) ∪ ptr_locs (fRecurse s) ∪
  ptr_locs (fDatacenter s) ∪ ptr_locs (fNamespace s).

(** The cells a [*ConsulKVMonitorConfig] reaches: the struct and its fields. *)
Definition reach (h : Heap) (p : option loc) : gset loc :=
  match cell_at h p with Some (CStruct s) => ptr_locs p ∪ field_locs s | _ => ptr_locs p end.

Definition reach_iface (h : Heap) (o : option iface) : gset loc :=
  match o with Some (IConsulKV p) => reach h p | _ => ∅ end.

(** ** Frames *)

(** [h'] keeps every cell of [h], except the one at [o], which stays a
    struct if it was one. *)
Definition ext (o : option loc) (h h' : Heap) : Prop :=
  dom h ⊆ dom h' /\ (forall l, Some l <> o -> is_Some (h !! l) -> h' !! l = h !! l) /\
  (struct_ok h o -> struct_ok h' o).

Lemma ext_refl o h : ext o h h.
Proof. done. Qed.

Lemma ext_trans o h1 h2 h3 : ext o h1 h2 -> ext o h2 h3 -> ext o h1 h3.
Proof.
  intros (D1 & E1 & S1) (D2 & E2 & S2). split_and!; [set_solver| |auto].
  intros l Hl Hs. rewrite E2, E1; [done|done|done|done|]. rewrite E1 by done. done.
Qed.

Lemma ext_None o h h' : ext None h h' -> ext o h h'.
Proof.
  intros (D & E & _). split_and!; [done| |].
  - intros l _ Hs. by apply E.
  - destruct o as [l|]; [|done]. intros [s Hs]. exists s. rewrite E; [done|done|by eexists].
Qed.

Lemma ext_alloc h c : ext None h (<[fresh (dom h) := c]> h).
Proof.
  split_and!; [rewrite dom_insert_L; set_solver| |done]. intros l _ [x Hx].
  rewrite lookup_insert_ne; [done|]. intros <-. apply (is_fresh (dom h)), elem_of_dom. eauto.
Qed.

Lemma ext_store o h s : ext (Some o) h (<[o := CStruct s]> h).
Proof.
  split_and!; [rewrite dom_insert_L; set_solver| |].
  - intros l Hl _. rewrite lookup_insert_ne; [done|congruence].
  - intros _. exists s. apply lookup_insert_eq.
Qed.

(** A cell other than the one at [o] reads the same after [ext o]. *)
Lemma ext_cell o h h' p c :
  ext o h h' -> p <> o -> cell_at h p = Some c -> cell_at h' p = Some c.
Proof.
  intros (_ & E & _) Hpo Hp. destruct p as [l|]; [|done]. simpl in *.
  rewrite E; [done|done|by eexists].
Qed.

(** A string or bool pointer is not a pointer to a struct. *)
Lemma prim_not_struct h p o s :
  (str_ok h p \/ bool_ok h p) -> h !! o = Some (CStruct s) -> p <> Some o.
Proof. intros [Hp|Hp] Ho ->; destruct Hp as [? Hp]; congruence. Qed.

(** A string or bool cell survives [ext o] when [o] is a struct. *)
Lemma ext_prim o h h' l c :
  ext o h h' -> struct_ok h o -> h !! l = Some c -> (forall s, c <> CStruct s) ->
  h' !! l = Some c.
Proof.
  intros (_ & E & _) Ho Hl Hc. rewrite E; [done| |by eexists].
  destruct o as [lo|]; [|done]. destruct Ho as [so Ho]. intros [= ->]. congruence.
Qed.

Lemma str_ok_ext o h h' p :
  ext o h h' -> struct_ok h o -> str_ok h p -> str_ok h' p /\ read_string h' p = read_string h p.
Proof.
  intros He Ho Hp. destruct p as [l|]; [|done]. destruct Hp as [s Hl].
  unfold read_string. simpl. rewrite (ext_prim o h h' l (CString s)), Hl; eauto; congruence.
Qed.

Lemma bool_ok_ext o h h' p :
  ext o h h' -> struct_ok h o -> bool_ok h p -> bool_ok h' p /\ read_bool h' p = read_bool h p.
Proof.
  intros He Ho Hp. destruct p as [l|]; [|done]. destruct Hp as [b Hl].
  unfold read_bool. simpl. rewrite (ext_prim o h h' l (CBool b)), Hl; eauto; congruence.
Qed.

Lemma fields_ok_ext o h h' s :
  ext o h h' -> struct_ok h o -> fields_ok h s -> fields_ok h' s /\ read_fields h' s = read_fields h s.
Proof.
  intros He Ho (H1 & H2 & H3 & H4 & H5).
  destruct (str_ok_ext o h h' _ He Ho H1) as [? E1], (bool_ok_ext o h h' _ He Ho H2) as [? E2],
    (bool_ok_ext o h h' _ He Ho H3) as [? E3], (str_ok_ext o h h' _ He Ho H4) as [? E4],
    (str_ok_ext o h h' _ He Ho H5) as [? E5].
  split; [done|]. unfold read_fields. by rewrite E1, E2, E3, E4, E5.
Qed.

Lemma struct_ok_ext o h h' p : ext o h h' -> struct_ok h p -> struct_ok h' p.
Proof.
  intros (_ & E & S) Hp. destruct (decide (p = o)) as [<-|Hne]; [auto|].
  destruct p as [l|]; [|done]. destruct Hp as [s Hl].
  exists s. rewrite E; [done|congruence|by eexists].
Qed.

(** ** What the statements do *)

Definition prim_ptr (h : Heap) (p : option loc) : Prop :=
  match p with None => True | Some l => exists c, h !! l = Some c /\ forall s, c <> CStruct s end.

Lemma str_prim h p : str_ok h p -> prim_ptr h p.
Proof. destruct p; [intros [s ?]; by eexists|done]. Qed.

Lemma bool_prim h p : bool_ok h p -> prim_ptr h p.
Proof. destruct p; [intros [b ?]; by eexists|done]. Qed.

Lemma prim_ext o h h' p :
  ext o h h' -> struct_ok h o -> prim_ptr h p -> prim_ptr h' p /\ cell_at h' p = cell_at h p.
Proof.
  intros He Ho Hp. destruct p as [l|]; [|done]. destruct Hp as (c & Hl & Hc).
  pose proof (ext_prim o h h' l c He Ho Hl Hc) as Hl'. split; [by exists c|]. simpl. congruence.
Qed.

Lemma read_fields_cells h h' s s' :
  cell_at h' (fPath s') = cell_at h (fPath s) ->
  cell_at h' (fSourceIncludesVar s') = cell_at h (fSourceIncludesVar s) ->
  cell_at h' (fRecurse s') = cell_at h (fRecurse s) ->
  cell_at h' (fDatacenter s') = cell_at h (fDatacenter s) ->
  cell_at h' (fNamespace s') = cell_at h (fNamespace s) ->
  read_fields h' s' = read_fields h s.
Proof.
  unfold read_fields, read_string, read_bool. intros -> -> -> -> ->. done.
Qed.

Lemma heap_wf_alloc h c :
  heap_wf h -> (forall s, c = CStruct s -> fields_ok h s) -> heap_wf (<[fresh (dom h) := c]> h).
Proof.
  intros Hw Hc l s Hl. destruct (decide (l = fresh (dom h))) as [->|Hne].
  - rewrite lookup_insert_eq in Hl. injection Hl as ->.
    apply (fields_ok_ext None h); [apply ext_alloc|done|by apply Hc].
  - rewrite lookup_insert_ne in Hl by auto.
    apply (fields_ok_ext None h); [apply ext_alloc|done|by apply (Hw l)].
Qed.

Lemma heap_wf_store h o so s :
  heap_wf h -> h !! o = Some (CStruct so) -> fields_ok h s -> heap_wf (<[o := CStruct s]> h).
Proof.
  intros Hw Ho Hs l s' Hl. assert (struct_ok h (Some o)) as Hso by (by exists so).
  destruct (decide (l = o)) as [->|Hne].
  - rewrite lookup_insert_eq in Hl. injection Hl as <-.
    apply (fields_ok_ext (Some o) h); [apply ext_store|done|done].
  - rewrite lookup_insert_ne in Hl by auto.
    apply (fields_ok_ext (Some o) h); [apply ext_store|done|by apply (Hw l)].
Qed.

(** A copy of a string or bool pointer: a fresh cell with the same content. *)
Definition copies (h : Heap) (p q : option loc) (h' : Heap) : Prop :=
  ext None h h' /\ prim_ptr h' q /\ cell_at h' q = cell_at h p /\ ptr_locs q ## dom h /\
  (heap_wf h -> heap_wf h').

Lemma alloc_copies h l c :
  h !! l = Some c -> (forall s, c <> CStruct s) ->
  copies h (Some l) (Some (fresh (dom h))) (<[fresh (dom h) := c]> h).
Proof.
  intros Hl Hc. split_and!.
  - apply ext_alloc.
  - exists c. by rewrite lookup_insert_eq.
  - simpl. by rewrite lookup_insert_eq.
  - simpl. apply disjoint_singleton_l, is_fresh.
  - intros Hw. apply heap_wf_alloc; [done|]. intros s ->. by destruct (Hc s).
Qed.

Lemma StringCopy_copies h p q h' :
  str_ok h p -> KVH.StringCopy p h = (q, h') -> copies h p q h' /\ str_ok h' q.
Proof.
  destruct p as [l|]; simpl; [|intros _ [= <- <-]; done].
  intros [s Hl]. cbv [mbind ST_bind load_string load KVH.String alloc mret ST_ret].
  rewrite Hl. intros [= <- <-]. split; [by apply alloc_copies|].
  exists s. by rewrite lookup_insert_eq.
Qed.

Lemma BoolCopy_copies h p q h' :
  bool_ok h p -> KVH.BoolCopy p h = (q, h') -> copies h p q h' /\ bool_ok h' q.
Proof.
  destruct p as [l|]; simpl; [|intros _ [= <- <-]; done].
  intros [b Hl]. cbv [mbind ST_bind load_bool load KVH.Bool alloc mret ST_ret].
  rewrite Hl. intros [= <- <-]. split; [by apply alloc_copies|].
  exists b. by rewrite lookup_insert_eq.
Qed.

Lemma get_fields_run h l s : h !! l = Some (CStruct s) -> get_fields l h = (s, h).
Proof. intros Hl. cbv [get_fields mbind ST_bind load mret ST_ret]. by rewrite Hl. Qed.

Lemma set_field_run h l s upd :
  h !! l = Some (CStruct s) -> set_field l upd h = (tt, <[l := CStruct (upd s)]> h).
Proof. intros Hl. cbv [set_field mbind ST_bind get_fields load mret ST_ret store]. by rewrite Hl. Qed.

Lemma ext_fresh h h0 h' o :
  o ∉ dom h -> ext None h h0 -> ext (Some o) h0 h' -> ext None h h'.
Proof.
  intros Ho (D1 & E1 & _) (D2 & E2 & _). split_and!; [set_solver| |done].
  intros l _ Hl. rewrite E2, E1; [done|done|done| |by rewrite E1].
  intros [= ->]. apply Ho, elem_of_dom, Hl.
Qed.

Lemma set_Path_ok h v s : fields_ok h s -> str_ok h v -> fields_ok h (set_Path v s).
Proof. unfold fields_ok. naive_solver. Qed.
Lemma set_SourceIncludesVar_ok h v s :
  fields_ok h s -> bool_ok h v -> fields_ok h (set_SourceIncludesVar v s).
Proof. unfold fields_ok. naive_solver. Qed.
Lemma set_Recurse_ok h v s : fields_ok h s -> bool_ok h v -> fields_ok h (set_Recurse v s).
Proof. unfold fields_ok. naive_solver. Qed.
Lemma set_Datacenter_ok h v s : fields_ok h s -> str_ok h v -> fields_ok h (set_Datacenter v s).
Proof. unfold fields_ok. naive_solver. Qed.
Lemma set_Namespace_ok h v s : fields_ok h s -> str_ok h v -> fields_ok h (set_Namespace v s).
Proof. unfold fields_ok. naive_solver. Qed.

Lemma str_ok_ext' o h h' p : ext o h h' -> struct_ok h o -> str_ok h p -> str_ok h' p.
Proof. intros ? ? ?. by eapply str_ok_ext. Qed.
Lemma bool_ok_ext' o h h' p : ext o h h' -> struct_ok h o -> bool_ok h p -> bool_ok h' p.
Proof. intros ? ? ?. by eapply bool_ok_ext. Qed.

#[export] Hint Resolve StringCopy_copies BoolCopy_copies str_ok_ext' bool_ok_ext'
  set_Path_ok set_SourceIncludesVar_ok set_Recurse_ok set_Datacenter_ok set_Namespace_ok : kv_heap.

Lemma fields_ok_step o h h' so s :
  ext (Some o) h h' -> h !! o = Some (CStruct so) -> fields_ok h s -> fields_ok h' s.
Proof. intros He Ho Hs. eapply fields_ok_ext; [done|by exists so|done]. Qed.

Lemma prim_step o h h' so p :
  ext (Some o) h h' -> h !! o = Some (CStruct so) -> prim_ptr h p -> cell_at h' p = cell_at h p.
Proof. intros He Ho Hp. eapply prim_ext; [done|by exists so|done]. Qed.

Lemma fields_prim h s :
  fields_ok h s ->
  prim_ptr h (fPath s) /\ prim_ptr h (fSourceIncludesVar s) /\ prim_ptr h (fRecurse s) /\
  prim_ptr h (fDatacenter s) /\ prim_ptr h (fNamespace s).
Proof. intros (?&?&?&?&?). split_and!; first [by apply str_prim|by apply bool_prim]. Qed.


Lemma fresh_weaken p (h h' : Heap) : ptr_locs p ## dom h' -> dom h ⊆ dom h' -> ptr_locs p ## dom h.
Proof. set_solver. Qed.

Lemma ext_dom o h h' : ext o h h' -> dom h ⊆ dom h'.
Proof. by intros []. Qed.

(** *** A struct under construction

    The base heap [hb] holds the struct [src] whose fields are read and
    the struct [o] being assigned; [hf] is an older heap the new fields
    must be fresh for.  [h] descends from [hb] by changes to [o] and fresh
    cells. *)
Definition base_ok (hf hb : Heap) (src : loc) (ssrc : KVFields) (o : loc) : Prop :=
  heap_wf hb /\ hb !! src = Some (CStruct ssrc) /\ struct_ok hb (Some o) /\ src <> o /\
  dom hf ⊆ dom hb.

Definition at_struct (hf hb h : Heap) (src : loc) (ssrc : KVFields) (o : loc) (so : KVFields) : Prop :=
  heap_wf h /\ ext (Some o) hb h /\ h !! src = Some (CStruct ssrc) /\
  h !! o = Some (CStruct so) /\ field_locs so ## dom hf.

Section Step.
Context (get : KVFields -> option loc) (set : option loc -> KVFields -> KVFields).
Context (ok : Heap -> option loc -> Prop) (cp : option loc -> ST (option loc)).
Context {X : Type} (rd : Heap -> option loc -> option X).
Context (vset : option X -> ConsulKVMonitorConfig -> ConsulKVMonitorConfig).
Hypothesis cp_copies : forall h p q h', ok h p -> cp p h = (q, h') -> copies h p q h' /\ ok h' q.
Hypothesis ok_prim : forall h p, ok h p -> prim_ptr h p.
Hypothesis fields_set : forall h v s, fields_ok h s -> ok h v -> fields_ok h (set v s).
Hypothesis get_ok : forall h s, fields_ok h s -> ok h (get s).
Hypothesis rd_cell : forall h h' p q, cell_at h' q = cell_at h p -> rd h' q = rd h p.
Hypothesis read_set : forall h v s, read_fields h (set v s) = vset (rd h v) (read_fields h s).
Hypothesis locs_set : forall v s, field_locs (set v s) ⊆ ptr_locs v ∪ field_locs s.

(** [o.F = cp(src.F)]: the field of [o] gets a fresh copy of the source
    field, as a value [vset] of what the source field reads in [hb]. *)
Lemma assign_step hf hb src ssrc o so h u h' :
  base_ok hf hb src ssrc o -> at_struct hf hb h src ssrc o so ->
  (v ← cp (get ssrc); set_field o (set v)) h = (u, h') ->
  exists v, at_struct hf hb h' src ssrc o (set v so) /\
    read_fields h' (set v so) = vset (rd hb (get ssrc)) (read_fields h so).
Proof.
  intros (Hwb & Hsb & Hob & Hne & Hfb) (Hw & Hb & Hsrc & Ho & Hf) Hrun.
  cbv [mbind ST_bind] in Hrun. destruct (cp (get ssrc) h) as [v h1] eqn:Hcp.
  pose proof (get_ok h ssrc (Hw src ssrc Hsrc)) as Hok.
  destruct (cp_copies _ _ _ _ Hok Hcp) as [(He1 & Hv1 & Hc1 & Hf1 & Hw1) Hok1].
  assert (forall l c, h !! l = Some c -> h1 !! l = Some c) as Hkeep.
  { intros l c Hl. destruct He1 as (_ & E & _). rewrite E; [done|done|by eexists]. }
  rewrite set_field_run with (s := so) in Hrun by auto. injection Hrun as <- <-.
  assert (ext (Some o) h (<[o:=CStruct (set v so)]> h1)) as Hext.
  { eapply ext_trans; [apply ext_None, He1|apply ext_store]. }
  assert (struct_ok h (Some o)) as Hso by (by exists so).
  pose proof (fields_ok_ext None h h1 so He1 I (Hw o so Ho)) as [Hfo1 _].
  exists v. unfold at_struct. split_and!.
  - eapply heap_wf_store; [by apply Hw1|by apply Hkeep|by apply fields_set].
  - by eapply ext_trans.
  - rewrite lookup_insert_ne by congruence. by apply Hkeep.
  - apply lookup_insert_eq.
  - assert (dom hf ⊆ dom h) as Hfh by (etrans; [exact Hfb|exact (ext_dom _ _ _ Hb)]).
    pose proof (fresh_weaken v hf h Hf1 Hfh) as Hv.
    intros x Hx. apply locs_set, elem_of_union in Hx as [Hx|Hx]; [by apply Hv|by apply Hf].
  - rewrite read_set. f_equal.
    + apply rd_cell.
      rewrite (proj2 (prim_ext (Some o) h1 _ v (ext_store o h1 (set v so))
                        (ex_intro _ so (Hkeep _ _ Ho)) Hv1)), Hc1.
      apply (prim_ext (Some o) hb h _ Hb Hob), ok_prim, get_ok, (Hwb src), Hsb.
    + apply (proj2 (fields_ok_ext (Some o) h _ so Hext Hso (Hw o so Ho))).
Qed.

Lemma copy_field_step hf hb src ssrc o so h u h' :
  base_ok hf hb src ssrc o -> at_struct hf hb h src ssrc o so ->
  KVH.copy_field get set cp src o h = (u, h') ->
  exists v, at_struct hf hb h' src ssrc o (set v so) /\
    read_fields h' (set v so) = vset (rd hb (get ssrc)) (read_fields h so).
Proof.
  intros Hb Ha Hrun. unfold KVH.copy_field in Hrun. cbv [mbind ST_bind] in Hrun.
  rewrite get_fields_run with (s := ssrc) in Hrun by apply Ha. by eapply assign_step.
Qed.

Lemma merge_field_step hf hb src ssrc o so h u h' :
  base_ok hf hb src ssrc o -> at_struct hf hb h src ssrc o so ->
  KVH.merge_field get set cp src o h = (u, h') ->
  exists so', at_struct hf hb h' src ssrc o so' /\
    read_fields h' so' =
      match get ssrc with Some _ => vset (rd hb (get ssrc)) | None => id end (read_fields h so).
Proof.
  intros Hb Ha Hrun. unfold KVH.merge_field in Hrun. cbv [mbind ST_bind] in Hrun.
  rewrite get_fields_run with (s := ssrc) in Hrun by apply Ha.
  destruct (get ssrc) as [l|] eqn:Hg.
  - rewrite <- Hg in Hrun. destruct (assign_step hf hb src ssrc o so h u h' Hb Ha Hrun) as (v & ? & ?).
    rewrite Hg in *. eauto.
  - injection Hrun as <- <-. eauto.
Qed.

End Step.

(** *** The five fields as values *)
Definition vset_Path (x : option string) (c : ConsulKVMonitorConfig) : ConsulKVMonitorConfig :=
  mkConsulKVMonitorConfig x (SourceIncludesVar c) (Recurse c) (Datacenter c) (Namespace c).
Definition vset_SourceIncludesVar (x : option bool) (c : ConsulKVMonitorConfig) : ConsulKVMonitorConfig :=
  mkConsulKVMonitorConfig (Path c) x (Recurse c) (Datacenter c) (Namespace c).
Definition vset_Recurse (x : option bool) (c : ConsulKVMonitorConfig) : ConsulKVMonitorConfig :=
  mkConsulKVMonitorConfig (Path c) (SourceIncludesVar c) x (Datacenter c) (Namespace c).
Definition vset_Datacenter (x : option string) (c : ConsulKVMonitorConfig) : ConsulKVMonitorConfig :=
  mkConsulKVMonitorConfig (Path c) (SourceIncludesVar c) (Recurse c) x (Namespace c).
Definition vset_Namespace (x : option string) (c : ConsulKVMonitorConfig) : ConsulKVMonitorConfig :=
  mkConsulKVMonitorConfig (Path c) (SourceIncludesVar c) (Recurse c) (Datacenter c) x.

Lemma read_string_cell h h' p q : cell_at h' q = cell_at h p -> read_string h' q = read_string h p.
Proof. unfold read_string. by intros ->. Qed.
Lemma read_bool_cell h h' p q : cell_at h' q = cell_at h p -> read_bool h' q = read_bool h p.
Proof. unfold read_bool. by intros ->. Qed.

Lemma locs_set_Path v s : field_locs (set_Path v s) ⊆ ptr_locs v ∪ field_locs s.
Proof. unfold field_locs. simpl. set_solver. Qed.
Lemma locs_set_SourceIncludesVar v s : field_locs (set_SourceIncludesVar v s) ⊆ ptr_locs v ∪ field_locs s.
Proof. unfold field_locs. simpl. set_solver. Qed.
Lemma locs_set_Recurse v s : field_locs (set_Recurse v s) ⊆ ptr_locs v ∪ field_locs s.
Proof. unfold field_locs. simpl. set_solver. Qed.
Lemma locs_set_Datacenter v s : field_locs (set_Datacenter v s) ⊆ ptr_locs v ∪ field_locs s.
Proof. unfold field_locs. simpl. set_solver. Qed.
Lemma locs_set_Namespace v s : field_locs (set_Namespace v s) ⊆ ptr_locs v ∪ field_locs s.
Proof. unfold field_locs. simpl. set_solver. Qed.

Lemma get_Path_ok h s : fields_ok h s -> str_ok h (fPath s).
Proof. by intros (?&?&?&?&?). Qed.
Lemma get_SourceIncludesVar_ok h s : fields_ok h s -> bool_ok h (fSourceIncludesVar s).
Proof. by intros (?&?&?&?&?). Qed.
Lemma get_Recurse_ok h s : fields_ok h s -> bool_ok h (fRecurse s).
Proof. by intros (?&?&?&?&?). Qed.
Lemma get_Datacenter_ok h s : fields_ok h s -> str_ok h (fDatacenter s).
Proof. by intros (?&?&?&?&?). Qed.
Lemma get_Namespace_ok h s : fields_ok h s -> str_ok h (fNamespace s).
Proof. by intros (?&?&?&?&?). Qed.

(** The step lemmas at each field. *)
Definition copy_Path_step := copy_field_step fPath set_Path str_ok KVH.StringCopy read_string vset_Path
  StringCopy_copies str_prim set_Path_ok get_Path_ok read_string_cell (fun _ _ _ => eq_refl)
  locs_set_Path.
Definition copy_SourceIncludesVar_step := copy_field_step fSourceIncludesVar set_SourceIncludesVar
  bool_ok KVH.BoolCopy read_bool vset_SourceIncludesVar BoolCopy_copies bool_prim
  set_SourceIncludesVar_ok get_SourceIncludesVar_ok read_bool_cell (fun _ _ _ => eq_refl)
  locs_set_SourceIncludesVar.
Definition copy_Recurse_step := copy_field_step fRecurse set_Recurse bool_ok KVH.BoolCopy read_bool
  vset_Recurse BoolCopy_copies bool_prim set_Recurse_ok get_Recurse_ok read_bool_cell
  (fun _ _ _ => eq_refl) locs_set_Recurse.
Definition copy_Datacenter_step := copy_field_step fDatacenter set_Datacenter str_ok KVH.StringCopy
  read_string vset_Datacenter StringCopy_copies str_prim set_Datacenter_ok get_Datacenter_ok
  read_string_cell (fun _ _ _ => eq_refl) locs_set_Datacenter.
Definition copy_Namespace_step := copy_field_step fNamespace set_Namespace str_ok KVH.StringCopy
  read_string vset_Namespace StringCopy_copies str_prim set_Namespace_ok get_Namespace_ok
  read_string_cell (fun _ _ _ => eq_refl) locs_set_Namespace.
Definition merge_Path_step := merge_field_step fPath set_Path str_ok KVH.StringCopy read_string vset_Path
  StringCopy_copies str_prim set_Path_ok get_Path_ok read_string_cell (fun _ _ _ => eq_refl)
  locs_set_Path.
Definition merge_SourceIncludesVar_step := merge_field_step fSourceIncludesVar set_SourceIncludesVar
  bool_ok KVH.BoolCopy read_bool vset_SourceIncludesVar BoolCopy_copies bool_prim
  set_SourceIncludesVar_ok get_SourceIncludesVar_ok read_bool_cell (fun _ _ _ => eq_refl)
  locs_set_SourceIncludesVar.
Definition merge_Recurse_step := merge_field_step fRecurse set_Recurse bool_ok KVH.BoolCopy read_bool
  vset_Recurse BoolCopy_copies bool_prim set_Recurse_ok get_Recurse_ok read_bool_cell
  (fun _ _ _ => eq_refl) locs_set_Recurse.
Definition merge_Datacenter_step := merge_field_step fDatacenter set_Datacenter str_ok KVH.StringCopy
  read_string vset_Datacenter StringCopy_copies str_prim set_Datacenter_ok get_Datacenter_ok
  read_string_cell (fun _ _ _ => eq_refl) locs_set_Datacenter.
Definition merge_Namespace_step := merge_field_step fNamespace set_Namespace str_ok KVH.StringCopy
  read_string vset_Namespace StringCopy_copies str_prim set_Namespace_ok get_Namespace_ok
  read_string_cell (fun _ _ _ => eq_refl) locs_set_Namespace.

(** Run the next field statement of [Hrun], keeping the invariant [Ha]
    and collecting the value equation. *)
Local Ltac kv_step Hb Hrun :=
  match type of Hrun with
  | context [?stmt ?h] =>
      match stmt with
      | KVH.copy_field _ _ _ _ _ => idtac
      | KVH.merge_field _ _ _ _ _ => idtac
      end;
      match goal with Ha : at_struct _ _ h _ _ _ _ |- _ =>
        let u := fresh "u" in let h' := fresh "h" in let R := fresh "R" in
        destruct (stmt h) as [u h'] eqn:R;
        let Ha' := fresh "Ha" in let V := fresh "V" in
        first [ destruct (copy_Path_step _ _ _ _ _ _ _ _ _ Hb Ha R) as (? & Ha' & V)
              | destruct (copy_SourceIncludesVar_step _ _ _ _ _ _ _ _ _ Hb Ha R) as (? & Ha' & V)
              | destruct (copy_Recurse_step _ _ _ _ _ _ _ _ _ Hb Ha R) as (? & Ha' & V)
              | destruct (copy_Datacenter_step _ _ _ _ _ _ _ _ _ Hb Ha R) as (? & Ha' & V)
              | destruct (copy_Namespace_step _ _ _ _ _ _ _ _ _ Hb Ha R) as (? & Ha' & V)
              | destruct (merge_Path_step _ _ _ _ _ _ _ _ _ Hb Ha R) as (? & Ha' & V)
              | destruct (merge_SourceIncludesVar_step _ _ _ _ _ _ _ _ _ Hb Ha R) as (? & Ha' & V)
              | destruct (merge_Recurse_step _ _ _ _ _ _ _ _ _ Hb Ha R) as (? & Ha' & V)
              | destruct (merge_Datacenter_step _ _ _ _ _ _ _ _ _ Hb Ha R) as (? & Ha' & V)
              | destruct (merge_Namespace_step _ _ _ _ _ _ _ _ _ Hb Ha R) as (? & Ha' & V) ];
        clear Ha
      end
  end.

(** Rewrite the value equations of the steps, last first. *)
Local Ltac chain_values :=
  repeat match goal with V : read_fields _ _ = _ |- _ => rewrite V; clear V end.

(** [Copy] of a non-nil pointer makes a new struct whose fields are fresh
    copies of the receiver's, and changes no existing cell. *)
Lemma Copy_spec h c r h' :
  heap_wf h -> struct_ok h c -> KVH.Copy c h = (r, h') ->
  ext None h h' /\ heap_wf h' /\ iface_ok h' r /\
  read_iface h' r = KV.Copy (read h c) /\ reach_iface h' r ## dom h /\
  (c <> None -> exists l, r = Some (IConsulKV (Some l))).
Proof.
  intros Hw Hc Hrun. destruct c as [cl|]; [|injection Hrun as <- <-; split_and!; done].
  destruct Hc as [s0 Hcl]. unfold KVH.Copy in Hrun. cbv [mbind ST_bind alloc] in Hrun.
  set (o := fresh (dom h)) in Hrun. set (h0 := <[o := CStruct zero_fields]> h) in Hrun.
  assert (o ∉ dom h) as Hof by apply is_fresh.
  assert (ext None h h0) as E0 by apply ext_alloc.
  assert (cl <> o) as Hne by (intros ->; apply Hof, elem_of_dom; eauto).
  assert (h0 !! cl = Some (CStruct s0)) as Hcl0 by (unfold h0; by rewrite lookup_insert_ne).
  assert (h0 !! o = Some (CStruct zero_fields)) as Ho0 by apply lookup_insert_eq.
  assert (heap_wf h0) as W0.
  { apply heap_wf_alloc; [done|]. intros s [= <-]. done. }
  assert (base_ok h h0 cl s0 o) as Hb.
  { split_and!; [done|done|by eexists|done|apply E0]. }
  assert (at_struct h h0 h0 cl s0 o zero_fields) as Ha.
  { split_and!; [done|apply ext_refl|done|done|]. unfold field_locs. simpl. set_solver. }
  do 5 kv_step Hb Hrun. cbv [mret ST_ret] in Hrun. injection Hrun as <- <-.
  match goal with Ha : at_struct _ _ _ _ _ _ _ |- _ => destruct Ha as (Hw5 & He5 & _ & Ho5 & Hf5) end.
  split_and!.
  - by eapply ext_fresh.
  - done.
  - by eexists.
  - unfold read_iface, read, cell_at. simpl. rewrite Ho5, Hcl. chain_values.
    by rewrite <- (proj2 (fields_ok_ext None h h0 s0 E0 I (Hw cl s0 Hcl))).
  - unfold reach_iface, reach, cell_at. simpl. rewrite Ho5.
    apply disjoint_union_l. split; [by apply disjoint_singleton_l|done].
  - by eexists.
Qed.

(** ** [Merge] *)

Lemma isConditionNil_read h o :
  iface_ok h o -> MonitorConsulKV.isConditionNil (read_iface h o) = KVH.isConditionNil o.
Proof.
  destruct o as [[[l|]|k n]|]; simpl; try done.
  intros [s Hl]. unfold read, cell_at. simpl. by rewrite Hl.
Qed.

Lemma read_struct h l s : h !! l = Some (CStruct s) -> read h (Some l) = Some (read_fields h s).
Proof. intros Hl. unfold read, cell_at. simpl. by rewrite Hl. Qed.

(** A typed field pointer is nil exactly when its value is. *)
Lemma read_string_some h p : str_ok h p -> p = None \/ exists x, read_string h p = Some x.
Proof. destruct p; [intros [s Hs]; right; exists s; unfold read_string; simpl; by rewrite Hs|by left]. Qed.
Lemma read_bool_some h p : bool_ok h p -> p = None \/ exists x, read_bool h p = Some x.
Proof. destruct p; [intros [b Hb]; right; exists b; unfold read_bool; simpl; by rewrite Hb|by left]. Qed.

(** What the five [merge_field] statements compute, as values. *)
Lemma merge_values h s2 c :
  fields_ok h s2 ->
  (match fNamespace s2 with Some _ => vset_Namespace (read_string h (fNamespace s2)) | None => id end)
  ((match fDatacenter s2 with Some _ => vset_Datacenter (read_string h (fDatacenter s2)) | None => id end)
  ((match fRecurse s2 with Some _ => vset_Recurse (read_bool h (fRecurse s2)) | None => id end)
  ((match fSourceIncludesVar s2 with
    | Some _ => vset_SourceIncludesVar (read_bool h (fSourceIncludesVar s2)) | None => id end)
  ((match fPath s2 with Some _ => vset_Path (read_string h (fPath s2)) | None => id end) c)))) =
  KV.merge_fields c (read_fields h s2).
Proof.
  destruct s2 as [p1 p2 p3 p4 p5], c. intros (H1 & H2 & H3 & H4 & H5). cbn in *.
  destruct p1, p2, p3, p4, p5; destruct H1, H2, H3, H4, H5;
    unfold KV.merge_fields, read_fields, read_string, read_bool, cell_at; cbn;
    repeat match goal with H : h !! _ = Some _ |- _ => rewrite H; clear H end; reflexivity.
Qed.

Lemma reach_root h l : l ∈ reach h (Some l).
Proof. unfold reach. destruct (cell_at h (Some l)) as [[]|]; set_solver. Qed.

Lemma reach_struct h l s : h !! l = Some (CStruct s) -> reach h (Some l) = {[l]} ∪ field_locs s.
Proof. intros Hl. unfold reach, cell_at. simpl. by rewrite Hl. Qed.

(** The block of [Merge] after the type assertion [r2 := r]: the
    result struct [r2] gets the fields [o2] sets. *)
Lemma merge_block_spec h h1 o2 s2 r2 sr (x y : option iface) h' :
  base_ok h h1 o2 s2 r2 -> at_struct h h1 h1 o2 s2 r2 sr ->
  (KVH.merge_field fPath set_Path KVH.StringCopy o2 r2;;
   KVH.merge_field fSourceIncludesVar set_SourceIncludesVar KVH.BoolCopy o2 r2;;
   KVH.merge_field fRecurse set_Recurse KVH.BoolCopy o2 r2;;
   KVH.merge_field fDatacenter set_Datacenter KVH.StringCopy o2 r2;;
   KVH.merge_field fNamespace set_Namespace KVH.StringCopy o2 r2;; mret (M := ST) x) h1 = (y, h') ->
  y = x /\ exists s', at_struct h h1 h' o2 s2 r2 s' /\
    read_fields h' s' = KV.merge_fields (read_fields h1 sr) (read_fields h1 s2).
Proof.
  intros Hb Ha Hrun. cbv [mbind ST_bind] in Hrun.
  do 5 kv_step Hb Hrun. cbv [mret ST_ret] in Hrun. injection Hrun as <- <-.
  split; [done|]. eexists. split; [eassumption|]. chain_values.
  apply merge_values. destruct Hb as (Hwb & Hsb & _). by apply (Hwb o2).
Qed.

(** [Merge] on a heap: what it returns reads as the value model's
    [KV.Merge] of what the arguments read, no existing cell changes, and
    every cell the result reaches was allocated by the call. *)
Lemma Merge_spec h c o r h' :
  heap_wf h -> struct_ok h c -> iface_ok h o -> KVH.Merge c o h = (r, h') ->
  ext None h h' /\ heap_wf h' /\ iface_ok h' r /\
  read_iface h' r = KV.Merge (read h c) (read_iface h o) /\ reach_iface h' r ## dom h.
Proof.
  intros Hw Hc Ho Hrun. unfold KVH.Merge in Hrun. unfold KV.Merge.
  rewrite isConditionNil_read by done.
  destruct c as [cl|]; [destruct Hc as [s0 Hcl]; rewrite (read_struct h cl s0 Hcl)|].
  - destruct (KVH.isConditionNil o) eqn:Hn.
    { destruct (Copy_spec h (Some cl) r h' Hw (ex_intro _ s0 Hcl) Hrun) as (? & ? & ? & Hr & ? & _).
      rewrite (read_struct h cl s0 Hcl) in Hr. by split_and!. }
    cbv [mbind ST_bind] in Hrun. destruct (KVH.Copy (Some cl) h) as [r1 h1] eqn:Hcp.
    destruct (Copy_spec h (Some cl) r1 h1 Hw (ex_intro _ s0 Hcl) Hcp) as (E1 & W1 & I1 & R1 & F1 & Sh).
    destruct (Sh ltac:(done)) as [r2 ->]. destruct I1 as [sr Hr2].
    unfold read_iface in R1. rewrite (read_struct h cl s0 Hcl), (read_struct h1 r2 sr Hr2) in R1.
    simpl in R1.
    unfold reach_iface in F1. rewrite (reach_struct h1 r2 sr Hr2) in F1.
    destruct o as [[[o2|]|k n]|]; try discriminate Hn.
    + destruct Ho as [s2 Ho2]. unfold read_iface. rewrite (read_struct h o2 s2 Ho2).
      assert (h1 !! o2 = Some (CStruct s2)) as Ho21.
      { destruct E1 as (_ & E & _). rewrite E; [done|done|by eexists]. }
      assert (base_ok h h1 o2 s2 r2) as Hb.
      { unfold base_ok. split_and!; [done|done|by eexists| |apply E1].
        intros ->. apply (F1 r2); [set_solver|apply elem_of_dom; eauto]. }
      assert (at_struct h h1 h1 o2 s2 r2 sr) as Ha.
      { unfold at_struct. split_and!; [done|apply ext_refl|done|done|].
        apply disjoint_union_l in F1 as [_ ?]. done. }
      destruct (merge_block_spec h h1 o2 s2 r2 sr _ r h' Hb Ha Hrun) as (-> & s' & Ha' & V).
      destruct Ha' as (Hw' & He' & _ & Hr' & Hf'). split_and!.
      * eapply ext_fresh; [|exact E1|exact He']. intros Hd. apply (F1 r2); set_solver.
      * done.
      * by eexists.
      * simpl. rewrite (read_struct h' r2 s' Hr'), V. do 4 f_equal; [congruence|].
        apply (proj2 (fields_ok_ext None h h1 s2 E1 I (Hw o2 s2 Ho2))).
      * unfold reach_iface. rewrite (reach_struct h' r2 s' Hr'). apply disjoint_union_l.
        split; [|done]. apply disjoint_singleton_l. intros Hd. apply (F1 r2); set_solver.
    + simpl in Hrun. injection Hrun as <- <-. simpl. rewrite (read_struct h1 r2 sr Hr2), R1.
      split_and!; [done|done|by eexists|done|by rewrite (reach_struct h1 r2 sr Hr2)].
  - destruct (KVH.isConditionNil o) eqn:Hn; [injection Hrun as <- <-; by split_and!|].
    destruct o as [[p|k n]|]; try discriminate Hn; simpl in Hrun |- *.
    + destruct (Copy_spec h p r h' Hw Ho Hrun) as (? & ? & ? & ? & ? & _). by split_and!.
    + destruct n; [done|]. injection Hrun as <- <-. by split_and!.
Qed.

(** ** [Finalize]: assignments to the receiver *)

Section Fill.
Context (get : KVFields -> option loc) (set : option loc -> KVFields -> KVFields).
Context (ok : Heap -> option loc -> Prop) {X : Type} (rd : Heap -> option loc -> option X).
Context (vset : option X -> ConsulKVMonitorConfig -> ConsulKVMonitorConfig).
Context (zc : cell) (z : X) (zero : ST (option loc)).
Hypothesis zero_run : forall h, zero h = (Some (fresh (dom h)), <[fresh (dom h) := zc]> h).
Hypothesis zc_prim : forall s, zc <> CStruct s.
Hypothesis zc_ok : forall h, ok (<[fresh (dom h) := zc]> h) (Some (fresh (dom h))).
Hypothesis zc_rd : forall h, rd (<[fresh (dom h) := zc]> h) (Some (fresh (dom h))) = Some z.
Hypothesis rd_cell : forall h h' p q, cell_at h' q = cell_at h p -> rd h' q = rd h p.
Hypothesis fields_set : forall h v s, fields_ok h s -> ok h v -> fields_ok h (set v s).
Hypothesis read_set : forall h v s, read_fields h (set v s) = vset (rd h v) (read_fields h s).
Context (vget : ConsulKVMonitorConfig -> option X).
Hypothesis rd_get : forall h s, rd h (get s) = vget (read_fields h s).
Hypothesis get_ok : forall h s, fields_ok h s -> ok h (get s).
Hypothesis ok_some : forall h l, ok h (Some l) -> is_Some (rd h (Some l)).
Hypothesis rd_none : forall h, rd h None = None.

(** The value of a field after [if c.F == nil { c.F = zero }]. *)
Definition fill_value (c : ConsulKVMonitorConfig) : ConsulKVMonitorConfig :=
  match vget c with None => vset (Some z) c | Some _ => c end.

(** [if c.F == nil { c.F = zero }]: a nil field gets a fresh zero value. *)
Lemma fill_step hb cl s h u h' :
  heap_wf h -> ext (Some cl) hb h -> h !! cl = Some (CStruct s) ->
  KVH.fill_field get set zero cl h = (u, h') ->
  exists s', heap_wf h' /\ ext (Some cl) hb h' /\ h' !! cl = Some (CStruct s') /\
    read_fields h' s' = fill_value (read_fields h s).
Proof.
  intros Hw Hb Hcl Hrun. unfold KVH.fill_field in Hrun. cbv [mbind ST_bind] in Hrun.
  rewrite get_fields_run with (s := s) in Hrun by done. unfold fill_value. rewrite <- rd_get.
  pose proof (get_ok h s (Hw cl s Hcl)) as Hok.
  destruct (get s) as [l|].
  { injection Hrun as <- <-. exists s. destruct (ok_some h l Hok) as [? ->]. by split_and!. }
  rewrite rd_none.
  rewrite zero_run in Hrun. set (l := fresh (dom h)) in Hrun.
  assert (cl <> l) as Hne.
  { intros ->. apply (is_fresh (dom h)), elem_of_dom. eauto. }
  assert ((<[l:=zc]> h) !! cl = Some (CStruct s)) as Hcl1 by (by rewrite lookup_insert_ne).
  rewrite set_field_run with (s := s) in Hrun by done. injection Hrun as <- <-.
  assert (ext (Some cl) h (<[cl:=CStruct (set (Some l) s)]> (<[l:=zc]> h))) as Hext.
  { eapply ext_trans; [apply ext_None, ext_alloc|apply ext_store]. }
  assert (struct_ok h (Some cl)) as Hso by (by exists s).
  exists (set (Some l) s). split_and!.
  - eapply heap_wf_store; [apply heap_wf_alloc; [done|intros s0 E; by destruct (zc_prim s0)]|done|].
    apply fields_set; [|apply zc_ok]. apply (fields_ok_ext None h); [apply ext_alloc|done|by apply (Hw cl)].
  - by eapply ext_trans.
  - apply lookup_insert_eq.
  - rewrite read_set. f_equal.
    + rewrite <- (zc_rd h). apply rd_cell. simpl. by rewrite lookup_insert_ne.
    + apply (proj2 (fields_ok_ext (Some cl) h _ s Hext Hso (Hw cl s Hcl))).
Qed.

End Fill.

Lemma CString_prim x s : CString x <> CStruct s.
Proof. discriminate. Qed.
Lemma CBool_prim x s : CBool x <> CStruct s.
Proof. discriminate. Qed.
Lemma alloc_str_ok x h : str_ok (<[fresh (dom h) := CString x]> h) (Some (fresh (dom h))).
Proof. exists x. apply lookup_insert_eq. Qed.
Lemma alloc_bool_ok x h : bool_ok (<[fresh (dom h) := CBool x]> h) (Some (fresh (dom h))).
Proof. exists x. apply lookup_insert_eq. Qed.
Lemma alloc_str_rd x h : read_string (<[fresh (dom h) := CString x]> h) (Some (fresh (dom h))) = Some x.
Proof. unfold read_string. simpl. by rewrite lookup_insert_eq. Qed.
Lemma alloc_bool_rd x h : read_bool (<[fresh (dom h) := CBool x]> h) (Some (fresh (dom h))) = Some x.
Proof. unfold read_bool. simpl. by rewrite lookup_insert_eq. Qed.
Lemma str_some h l : str_ok h (Some l) -> is_Some (read_string h (Some l)).
Proof. intros [x Hx]. unfold read_string. simpl. rewrite Hx. by eexists. Qed.
Lemma bool_some h l : bool_ok h (Some l) -> is_Some (read_bool h (Some l)).
Proof. intros [x Hx]. unfold read_bool. simpl. rewrite Hx. by eexists. Qed.

Definition fill_Path_step := fill_step fPath set_Path str_ok read_string vset_Path
  (CString "") "" (KVH.String "") (fun _ => eq_refl) (CString_prim "") (alloc_str_ok "") (alloc_str_rd "") read_string_cell
  set_Path_ok (fun _ _ _ => eq_refl) Path (fun _ _ => eq_refl) get_Path_ok str_some
  (fun _ => eq_refl).
Definition fill_SourceIncludesVar_step := fill_step fSourceIncludesVar set_SourceIncludesVar bool_ok read_bool vset_SourceIncludesVar
  (CBool false) false (KVH.Bool false) (fun _ => eq_refl) (CBool_prim false) (alloc_bool_ok false) (alloc_bool_rd false) read_bool_cell
  set_SourceIncludesVar_ok (fun _ _ _ => eq_refl) SourceIncludesVar (fun _ _ => eq_refl) get_SourceIncludesVar_ok bool_some
  (fun _ => eq_refl).
Definition fill_Recurse_step := fill_step fRecurse set_Recurse bool_ok read_bool vset_Recurse
  (CBool false) false (KVH.Bool false) (fun _ => eq_refl) (CBool_prim false) (alloc_bool_ok false) (alloc_bool_rd false) read_bool_cell
  set_Recurse_ok (fun _ _ _ => eq_refl) Recurse (fun _ _ => eq_refl) get_Recurse_ok bool_some
  (fun _ => eq_refl).
Definition fill_Datacenter_step := fill_step fDatacenter set_Datacenter str_ok read_string vset_Datacenter
  (CString "") "" (KVH.String "") (fun _ => eq_refl) (CString_prim "") (alloc_str_ok "") (alloc_str_rd "") read_string_cell
  set_Datacenter_ok (fun _ _ _ => eq_refl) Datacenter (fun _ _ => eq_refl) get_Datacenter_ok str_some
  (fun _ => eq_refl).
Definition fill_Namespace_step := fill_step fNamespace set_Namespace str_ok read_string vset_Namespace
  (CString "") "" (KVH.String "") (fun _ => eq_refl) (CString_prim "") (alloc_str_ok "") (alloc_str_rd "") read_string_cell
  set_Namespace_ok (fun _ _ _ => eq_refl) Namespace (fun _ _ => eq_refl) get_Namespace_ok str_some
  (fun _ => eq_refl).

(** Run the next [fill_field] statement of [Hrun] on the receiver [cl]. *)
Local Ltac fin_step Hrun :=
  match type of Hrun with
  | context [KVH.fill_field ?g ?st ?zr ?cl ?h] =>
      match goal with
      | Hw : heap_wf h, He : ext _ _ h, Hc : h !! cl = Some (CStruct _) |- _ =>
        let u := fresh "u" in let h' := fresh "h" in let R := fresh "R" in
        destruct (KVH.fill_field g st zr cl h) as [u h'] eqn:R;
        first [ destruct (fill_Path_step _ _ _ _ _ _ Hw He Hc R) as (? & ? & ? & ? & ?)
              | destruct (fill_SourceIncludesVar_step _ _ _ _ _ _ Hw He Hc R) as (? & ? & ? & ? & ?)
              | destruct (fill_Recurse_step _ _ _ _ _ _ Hw He Hc R) as (? & ? & ? & ? & ?)
              | destruct (fill_Datacenter_step _ _ _ _ _ _ Hw He Hc R) as (? & ? & ? & ? & ?)
              | destruct (fill_Namespace_step _ _ _ _ _ _ Hw He Hc R) as (? & ? & ? & ? & ?) ];
        clear Hw He Hc
      end
  end.

Lemma finalize_values c names :
  Some (fill_value vset_Namespace "" Namespace (fill_value vset_Datacenter "" Datacenter
    (fill_value vset_Recurse false Recurse (fill_value vset_SourceIncludesVar false SourceIncludesVar
    (fill_value vset_Path "" Path c))))) = KV.Finalize (Some c) names.
Proof. destruct c as [[] [] [] [] []]; reflexivity. Qed.

(** [Finalize] assigns the nil fields of its receiver in place: the
    receiver then reads as the value model's [KV.Finalize], and no
    existing cell other than the receiver's struct changes. *)
Lemma Finalize_heap_spec h c names u h' :
  heap_wf h -> struct_ok h c -> KVH.Finalize c names h = (u, h') ->
  heap_wf h' /\ ext c h h' /\ read h' c = KV.Finalize (read h c) names.
Proof.
  intros Hw Hc Hrun. destruct c as [cl|]; [|injection Hrun as <- <-; split_and!; done].
  destruct Hc as [s0 Hcl]. rewrite (read_struct h cl s0 Hcl).
  unfold KVH.Finalize in Hrun. cbv [mbind ST_bind] in Hrun.
  pose proof (ext_refl (Some cl) h) as He.
  do 5 fin_step Hrun. injection Hrun as <- <-.
  match goal with Hw : heap_wf _, He : ext _ _ _, Hc : _ !! cl = Some (CStruct _) |- _ =>
    split_and!; [exact Hw|exact He|rewrite (read_struct _ _ _ Hc)] end.
  chain_values. apply finalize_values.
Qed.

(** ** Independence of results from arguments *)

(** What a pointer reads depends only on the cells it reaches. *)
Lemma read_local h h' p :
  (forall l, l ∈ reach h p -> h' !! l = h !! l) -> read h' p = read h p.
Proof.
  intros Hl. destruct p as [l|]; [|done]. unfold read, cell_at. simpl.
  assert (h' !! l = h !! l) as E by (apply Hl, reach_root). rewrite E.
  destruct (h !! l) as [[| |s]|] eqn:Hs; try done. rewrite (reach_struct h l s Hs) in Hl.
  unfold read_fields, read_string, read_bool, cell_at. destruct s; unfold field_locs in Hl; simpl in *.
  repeat match goal with
  | |- context [?f ≫= (h' !!.)] => destruct f; simpl; [rewrite Hl by set_solver|]
  end; done.
Qed.

Lemma read_iface_local h h' o :
  (forall l, l ∈ reach_iface h o -> h' !! l = h !! l) -> read_iface h' o = read_iface h o.
Proof. destruct o as [[p|]|]; simpl; intros Hl; [by rewrite (read_local h h' p)|done|done]. Qed.

Lemma prim_locs h p : prim_ptr h p -> ptr_locs p ⊆ dom h.
Proof.
  destruct p as [l|]; simpl; [|set_solver]. intros (c & Hc & _).
  apply singleton_subseteq_l, elem_of_dom. eauto.
Qed.

(** Under typing, a configuration reaches only existing cells. *)
Lemma reach_dom h p : heap_wf h -> struct_ok h p -> reach h p ⊆ dom h.
Proof.
  intros Hw Hp. destruct p as [l|]; [|unfold reach; simpl; set_solver].
  destruct Hp as [s Hs]. rewrite (reach_struct h l s Hs).
  pose proof (fields_prim h s (Hw l s Hs)) as (P1 & P2 & P3 & P4 & P5).
  apply prim_locs in P1, P2, P3, P4, P5. unfold field_locs.
  assert (l ∈ dom h) by (apply elem_of_dom; eauto). set_solver.
Qed.

Lemma reach_iface_dom h o : heap_wf h -> iface_ok h o -> reach_iface h o ⊆ dom h.
Proof. destruct o as [[p|]|]; simpl; [apply reach_dom|set_solver|set_solver]. Qed.

(** Writing one cell the result reaches leaves every old configuration
    reading as before. *)
Lemma write_fresh_local h h' p l v :
  heap_wf h -> struct_ok h p -> ext None h h' -> l ∉ dom h ->
  read (<[l := v]> h') p = read h p.
Proof.
  intros Hw Hp (_ & E & _) Hl. apply read_local. intros q Hq.
  pose proof (reach_dom h p Hw Hp) as D.
  rewrite lookup_insert_ne by set_solver. apply E; [done|]. apply elem_of_dom. set_solver.
Qed.

Lemma write_fresh_local_iface h h' o l v :
  heap_wf h -> iface_ok h o -> ext None h h' -> l ∉ dom h ->
  read_iface (<[l := v]> h') o = read_iface h o.
Proof.
  destruct o as [[p|]|]; simpl; intros; [by rewrite (write_fresh_local h h' p)|done|done].
Qed.

Lemma ext_None_read h h' p : heap_wf h -> struct_ok h p -> ext None h h' -> read h' p = read h p.
Proof.
  intros Hw Hp (_ & E & _). apply read_local. intros q Hq. apply E; [done|].
  apply elem_of_dom, (reach_dom h p Hw Hp), Hq.
Qed.

Lemma ext_None_read_iface h h' o :
  heap_wf h -> iface_ok h o -> ext None h h' -> read_iface h' o = read_iface h o.
Proof. destruct o as [[p|]|]; simpl; intros; [by rewrite (ext_None_read h h' p)|done|done]. Qed.

(** A struct reached from [p] is [p]'s own: field cells are not structs. *)
Lemma reach_struct_root h p l s :
  heap_wf h -> struct_ok h p -> h !! l = Some (CStruct s) -> l ∈ reach h p -> p = Some l.
Proof.
  intros Hw Hp Hl Hr. destruct p as [lp|]; [|unfold reach in Hr; simpl in Hr; set_solver].
  destruct Hp as [sp Hsp]. rewrite (reach_struct h lp sp Hsp) in Hr.
  pose proof (fields_prim h sp (Hw lp sp Hsp)) as (P1 & P2 & P3 & P4 & P5).
  assert (forall q, prim_ptr h q -> l ∉ ptr_locs q) as Hq.
  { intros [q|] Pq; simpl; [|set_solver]. destruct Pq as (c & Hc & Hnc).
    intros ->%elem_of_singleton. rewrite Hl in Hc. injection Hc as <-. by apply (Hnc s). }
  unfold field_locs in Hr. apply elem_of_union in Hr as [->%elem_of_singleton|Hr]; [done|].
  exfalso. repeat (apply elem_of_union in Hr as [Hr|Hr]);
    [apply (Hq _ P1)|apply (Hq _ P2)|apply (Hq _ P3)|apply (Hq _ P4)|apply (Hq _ P5)]; done.
Qed.

(** ** What the spec promises *)

(** C28: Copy returns a fully independent deep copy (spec, [Copy]): it reads
    as the value model's copy, and writing any cell the copy reaches, in
    any way, leaves the original reading as before. *)
Theorem Copy_independent h c r h' l v :
  heap_wf h -> struct_ok h c -> KVH.Copy c h = (r, h') -> l ∈ reach_iface h' r ->
  read_iface h' r = KV.Copy (read h c) /\ read (<[l := v]> h') c = read h c.
Proof.
  intros Hw Hc Hrun Hl. destruct (Copy_spec h c r h' Hw Hc Hrun) as (E & _ & _ & R & F & _).
  split; [done|]. apply write_fresh_local; [done|done|done|]. set_solver.
Qed.

(** C7: Merge never mutates a configuration its caller keeps, and the copy it
    returns is independent of both arguments: writing any cell the result
    reaches leaves the receiver and the argument reading as before. *)
Theorem Merge_independent h c o r h' l v :
  heap_wf h -> struct_ok h c -> iface_ok h o -> KVH.Merge c o h = (r, h') ->
  l ∈ reach_iface h' r ->
  read (<[l := v]> h') c = read h c /\ read_iface (<[l := v]> h') o = read_iface h o.
Proof.
  intros Hw Hc Ho Hrun Hl. destruct (Merge_spec h c o r h' Hw Hc Ho Hrun) as (E & _ & _ & _ & F).
  assert (l ∉ dom h) by set_solver.
  split; [by apply write_fresh_local|by apply write_fresh_local_iface].
Qed.

(** C6: Refinement: [Merge] on pointers returns what the value model's
    [KV.Merge] computes from what its arguments read, and leaves both
    arguments reading as they did. *)
Theorem Merge_refines h c o r h' :
  heap_wf h -> struct_ok h c -> iface_ok h o -> KVH.Merge c o h = (r, h') ->
  read_iface h' r = KV.Merge (read h c) (read_iface h o) /\
  read h' c = read h c /\ read_iface h' o = read_iface h o /\ heap_wf h'.
Proof.
  intros Hw Hc Ho Hrun. destruct (Merge_spec h c o r h' Hw Hc Ho Hrun) as (E & W & _ & R & _).
  split_and!; [done|by apply ext_None_read|by apply ext_None_read_iface|done].
Qed.

(** [Validate] only reads: it leaves the heap as it is and returns what
    the value model's [KV.Validate] returns on what the receiver reads as. *)
Lemma Validate_refines h c r h' :
  heap_wf h -> struct_ok h c -> KVH.Validate c h = (r, h') ->
  h' = h /\ r = KV.Validate (read h c).
Proof.
  intros Hw Hc Hrun. destruct c as [cl|]; [|by injection Hrun as <- <-].
  destruct Hc as [s Hs]. rewrite (read_struct h cl s Hs).
  unfold KVH.Validate in Hrun. cbv [mbind ST_bind] in Hrun.
  rewrite (get_fields_run h cl s Hs) in Hrun.
  pose proof (get_Path_ok h s (Hw cl s Hs)) as Hp. cbn [KV.Validate read_fields Path].
  destruct (fPath s) as [l|]; [|by injection Hrun as <- <-].
  destruct Hp as [str Hl]. cbv [load_string load mbind ST_bind mret ST_ret] in Hrun.
  rewrite Hl in Hrun. injection Hrun as <- <-.
  unfold read_string, cell_at. cbn. by rewrite Hl.
Qed.

(** C29: [Finalize] works in place: afterwards every pointer equal to the
    receiver (an alias included) reads as the value model's [KV.Finalize]
    of the receiver, and every other configuration reads as before. *)
Theorem Finalize_in_place h c names u h' p :
  heap_wf h -> struct_ok h c -> struct_ok h p -> KVH.Finalize c names h = (u, h') ->
  read h' p = if decide (p = c) then KV.Finalize (read h c) names else read h p.
Proof.
  intros Hw Hc Hp Hrun. destruct (Finalize_heap_spec h c names u h' Hw Hc Hrun) as (_ & (_ & E & _) & R).
  case_decide as Hpc; [by subst|]. apply read_local. intros q Hq.
  apply E; [|apply elem_of_dom, (reach_dom h p Hw Hp), Hq].
  intros Hqc. destruct c as [cl|]; [|done]. injection Hqc as ->.
  destruct Hc as [s Hs]. by apply Hpc, (reach_struct_root h p cl s).
Qed.

(** C27: Finalize, then Validate, on the same receiver, as the
    configuration is used: [Validate] changes nothing, and it fails with
    the path-required error exactly when the receiver's [Path] was nil or
    pointed to the empty string before [Finalize]. *)
Theorem Finalize_then_Validate h cl names u h1 r h2 :
  heap_wf h -> struct_ok h (Some cl) ->
  KVH.Finalize (Some cl) names h = (u, h1) -> KVH.Validate (Some cl) h1 = (r, h2) ->
  h2 = h1 /\
  r = if String.eqb (StringVal (read h (Some cl) ≫= Path)) "" then Some KV.path_required else None.
Proof.
  intros Hw Hc Hfin Hval.
  destruct (Finalize_heap_spec h (Some cl) names u h1 Hw Hc Hfin) as (Hw1 & (_ & _ & Hs1) & Hr1).
  destruct (Validate_refines h1 (Some cl) r h2 Hw1 (Hs1 Hc) Hval) as [-> ->].
  split; [done|]. rewrite Hr1. destruct Hc as [s Hs]. rewrite (read_struct h cl s Hs).
  apply KV.Validate_after_Finalize.
Qed.

(** ** A checker for typing, for concrete heaps *)

Definition str_okb (h : Heap) (p : option loc) : bool :=
  match p with None => true | Some l => match h !! l with Some (CString _) => true | _ => false end end.
Definition bool_okb (h : Heap) (p : option loc) : bool :=
  match p with None => true | Some l => match h !! l with Some (CBool _) => true | _ => false end end.
Definition heap_wfb (h : Heap) : bool :=
  forallb (fun lc => match lc.2 with
    | CStruct s => str_okb h (fPath s) && bool_okb h (fSourceIncludesVar s) &&
        bool_okb h (fRecurse s) && str_okb h (fDatacenter s) && str_okb h (fNamespace s)
    | _ => true end) (map_to_list h).

Lemma str_okb_sound h p : str_okb h p = true -> str_ok h p.
Proof. destruct p as [l|]; simpl; [|done]. destruct (h !! l) as [[]|]; naive_solver. Qed.
Lemma bool_okb_sound h p : bool_okb h p = true -> bool_ok h p.
Proof. destruct p as [l|]; simpl; [|done]. destruct (h !! l) as [[]|]; naive_solver. Qed.

Lemma heap_wfb_sound h : heap_wfb h = true -> heap_wf h.
Proof.
  unfold heap_wfb. rewrite forallb_forall. intros Hall l s Hl.
  apply elem_of_map_to_list, list_elem_of_In, Hall in Hl. simpl in Hl.
  repeat (apply andb_prop in Hl as [Hl ?]).
  split_and!; by apply str_okb_sound || by apply bool_okb_sound.
Qed.

Module Witnesses.

(** A receiver with [Path] and [Recurse] set, and an argument with
    [Datacenter] set. *)
Definition h_ex : Heap :=
  {[ 1%positive := CString "web/config"; 2%positive := CBool true;
     3%positive := CStruct (mkKVFields (Some 1%positive) None (Some 2%positive) None None);
     4%positive := CString "dc2";
     5%positive := CStruct (mkKVFields None None None (Some 4%positive) None) ]}.
Definition c_ex : option loc := Some 3%positive.
Definition o_ex : option iface := Some (IConsulKV (Some 5%positive)).
Definition merged : option iface * Heap := KVH.Merge c_ex o_ex h_ex.
Definition copied : option iface * Heap := KVH.Copy c_ex h_ex.

(** The new struct: the first location [Copy] allocates. *)
Definition new_struct : loc := fresh (dom h_ex).

Lemma Copy_independent_witness :
  read_iface copied.2 copied.1 = KV.Copy (read h_ex c_ex) /\
  read (<[new_struct := CStruct zero_fields]> copied.2) c_ex = read h_ex c_ex.
Proof.
  apply Copy_independent; [apply heap_wfb_sound; vm_compute; reflexivity
    |eexists; vm_compute; reflexivity|apply surjective_pairing
    |vm_compute; reflexivity].
Defined.

Lemma Merge_independent_witness :
  read (<[new_struct := CStruct zero_fields]> merged.2) c_ex = read h_ex c_ex /\
  read_iface (<[new_struct := CStruct zero_fields]> merged.2) o_ex = read_iface h_ex o_ex.
Proof.
  apply (Merge_independent h_ex c_ex o_ex merged.1 merged.2);
    [apply heap_wfb_sound; vm_compute; reflexivity|eexists; vm_compute; reflexivity
    |eexists; vm_compute; reflexivity|apply surjective_pairing
    |vm_compute; reflexivity].
Defined.

Lemma Merge_refines_witness :
  read_iface merged.2 merged.1 = KV.Merge (read h_ex c_ex) (read_iface h_ex o_ex) /\
  read merged.2 c_ex = read h_ex c_ex /\ read_iface merged.2 o_ex = read_iface h_ex o_ex /\
  heap_wf merged.2.
Proof.
  apply (Merge_refines h_ex c_ex o_ex merged.1 merged.2);
    [apply heap_wfb_sound; vm_compute; reflexivity|eexists; vm_compute; reflexivity
    |eexists; vm_compute; reflexivity|apply surjective_pairing].
Defined.

(** [Finalize] through [c_ex]; [Some 3] is the receiver itself. *)
Lemma Finalize_then_Validate_witness :
  (KVH.Validate c_ex (KVH.Finalize c_ex [] h_ex).2).2 = (KVH.Finalize c_ex [] h_ex).2 /\
  (KVH.Validate c_ex (KVH.Finalize c_ex [] h_ex).2).1 = None.
Proof.
  apply (Finalize_then_Validate h_ex 3%positive [] (KVH.Finalize c_ex [] h_ex).1 _
           (KVH.Validate c_ex (KVH.Finalize c_ex [] h_ex).2).1 _);
    [apply heap_wfb_sound; vm_compute; reflexivity|eexists; vm_compute; reflexivity
    |apply surjective_pairing|apply surjective_pairing].
Defined.

Lemma Finalize_in_place_witness :
  read (KVH.Finalize c_ex [] h_ex).2 (Some 3%positive) =
    KV.Finalize (read h_ex c_ex) [].
Proof.
  rewrite (Finalize_in_place h_ex c_ex [] (KVH.Finalize c_ex [] h_ex).1 _ (Some 3%positive));
    [reflexivity|apply heap_wfb_sound; vm_compute; reflexivity|eexists; vm_compute; reflexivity
    |eexists; vm_compute; reflexivity|apply surjective_pairing].
Defined.

(** The merge, evaluated: the receiver's path and recurse with the
    argument's datacenter, in cells the call allocated. *)
Example merged_value :
  read_iface merged.2 merged.1 =
    Some (MCConsulKV (Some (mkConsulKVMonitorConfig (Some "web/config") None (Some true)
                                                    (Some "dc2") None))).
Proof. vm_compute. reflexivity. Qed.

End Witnesses.
