(* ===== verification/Hcl.v ===== *)
(** * Configuration values and the [hclwrite] body

    [GoValue] is an operator-supplied configuration value (a Go
    [interface{}] decoded from HCL or JSON); [hcl2shim.HCL2ValueFromConfigValue]
    turns it into a [cty.Value] one to one, so the model uses the same type
    for both.

    [Body] is an [hclwrite.Body]: its items in order.  The operations are
    the ones [root.go] calls: [SetAttributeValue] and
    [SetAttributeTraversal] replace the expression of an attribute of the
    same name where it stands and otherwise append a new attribute;
    [AppendNewBlock], [AppendNewline] and [AppendUnstructuredTokens] append.
    A block built in Go by appending it empty and then filling its body is
    built here by filling the body first; nothing else is appended to the
    parent in between in any caller. *)

From S2P Require Import Prelude.

#[local] Set Warnings "-register-all".

Inductive GoValue :=
| GoString (s : string)
| GoBool (b : bool)
| GoNumber (z : Z)
| GoNull
| GoList (l : list GoValue)
| GoObject (fields : list (string * GoValue)).

Inductive Expr :=
| ExprValue (v : GoValue)
| ExprTraversal (root : string) (attrs : list string).

Inductive Item :=
| Attribute (name : string) (e : Expr)
| Block (type : string) (labels : list string) (body : list Item)
| Newline
| Comment (text : string).

Definition Body := list Item.

Definition is_attr (name : string) (it : Item) : bool :=
  match it with Attribute n _ => String.eqb n name | _ => false end.

Fixpoint has_attr (b : Body) (name : string) : bool :=
  match b with
  | [] => false
  | it :: b' => is_attr name it || has_attr b' name
  end.

Fixpoint replace_attr (b : Body) (name : string) (e : Expr) : Body :=
  match b with
  | [] => []
  | it :: b' => if is_attr name it then Attribute name e :: b' else it :: replace_attr b' name e
  end.

Definition SetAttribute (b : Body) (name : string) (e : Expr) : Body :=
  if has_attr b name then replace_attr b name e else b ++ [Attribute name e].

Definition SetAttributeValue (b : Body) (name : string) (v : GoValue) : Body :=
  SetAttribute b name (ExprValue v).

Definition SetAttributeTraversal (b : Body) (name : string) (root : string)
    (attrs : list string) : Body :=
  SetAttribute b name (ExprTraversal root attrs).

Definition AppendNewBlock (b : Body) (type : string) (labels : list string) (inner : Body) : Body :=
  b ++ [Block type labels inner].

Definition AppendNewline (b : Body) : Body := b ++ [Newline].

Definition AppendComment (b : Body) (text : string) : Body := b ++ [Comment text].

(** ** Reading a body *)

Fixpoint find_attr (b : Body) (name : string) : option Expr :=
  match b with
  | [] => None
  | Attribute n e :: b' => if String.eqb n name then Some e else find_attr b' name
  | _ :: b' => find_attr b' name
  end.

Definition attr_names (b : Body) : list string :=
  omap (fun it => match it with Attribute n _ => Some n | _ => None end) b.

(** The blocks of one type, with their labels and bodies. *)
Definition blocks_of (type : string) (b : Body) : list (list string * Body) :=
  omap (fun it => match it with
                  | Block t ls inner => if String.eqb t type then Some (ls, inner) else None
                  | _ => None end) b.

(** ** Lemmas *)

Lemma is_attr_spec name it :
  is_attr name it = true <-> exists e, it = Attribute name e.
Proof.
  destruct it as [n e| | |]; simpl; split;
    try (intros [? ?]; discriminate); try discriminate.
  - intros H%String.eqb_eq. subst. eauto.
  - intros [e' [= -> _]]. apply String.eqb_refl.
Qed.

Lemma has_attr_find b name : has_attr b name = true <-> is_Some (find_attr b name).
Proof.
  induction b as [|it b IH]; simpl.
  - split; [discriminate|]. intros [? H]; discriminate.
  - destruct it as [n e| | |]; simpl; try apply IH.
    destruct (String.eqb n name); simpl; [split; eauto|apply IH].
Qed.

Lemma find_attr_app b1 b2 name :
  find_attr (b1 ++ b2) name =
    match find_attr b1 name with Some e => Some e | None => find_attr b2 name end.
Proof.
  induction b1 as [|[n e| | |] b1 IH]; simpl; try done.
  by destruct (String.eqb n name).
Qed.

Lemma find_attr_replace b name e :
  has_attr b name = true -> find_attr (replace_attr b name e) name = Some e.
Proof.
  induction b as [|it b IH]; simpl; [done|].
  destruct (is_attr name it) eqn:E; simpl.
  - intros _. by rewrite String.eqb_refl.
  - intros H. destruct it as [n e'| | |]; simpl in *; try (by apply IH).
    rewrite E. by apply IH.
Qed.

Lemma find_attr_replace_ne b name name' e :
  name <> name' -> find_attr (replace_attr b name e) name' = find_attr b name'.
Proof.
  intros Hne. induction b as [|it b IH]; simpl; [done|].
  destruct (is_attr name it) eqn:E.
  - apply is_attr_spec in E as [e' ->]. simpl.
    by rewrite string_eqb_neq.
  - destruct it as [n e'| | |]; simpl; try done. by rewrite IH.
Qed.

(** The attribute just set is found with its new expression. *)
Lemma find_SetAttribute b name e : find_attr (SetAttribute b name e) name = Some e.
Proof.
  unfold SetAttribute. destruct (has_attr b name) eqn:E.
  - by apply find_attr_replace.
  - rewrite find_attr_app. destruct (find_attr b name) eqn:F.
    + assert (has_attr b name = true) by (apply has_attr_find; rewrite F; eauto).
      congruence.
    + simpl. by rewrite String.eqb_refl.
Qed.

(** Setting one attribute leaves the others as they were. *)
Lemma find_SetAttribute_ne b name name' e :
  name <> name' -> find_attr (SetAttribute b name e) name' = find_attr b name'.
Proof.
  intros Hne. unfold SetAttribute. destruct (has_attr b name).
  - by apply find_attr_replace_ne.
  - rewrite find_attr_app. destruct (find_attr b name'); [done|]. simpl.
    by rewrite string_eqb_neq.
Qed.

(** On a fresh name, setting appends. *)
Lemma SetAttribute_fresh b name e :
  has_attr b name = false -> SetAttribute b name e = b ++ [Attribute name e].
Proof. unfold SetAttribute. by intros ->. Qed.

Lemma has_attr_app b1 b2 name : has_attr (b1 ++ b2) name = has_attr b1 name || has_attr b2 name.
Proof. induction b1; simpl; [done|]. by rewrite IHb1, orb_assoc. Qed.

#[export] Hint Rewrite find_SetAttribute find_attr_app has_attr_app : cts_rw.

Lemma blocks_of_app t b1 b2 : blocks_of t (b1 ++ b2) = blocks_of t b1 ++ blocks_of t b2.
Proof. apply omap_app. Qed.

Lemma attr_names_app b1 b2 : attr_names (b1 ++ b2) = attr_names b1 ++ attr_names b2.
Proof. apply omap_app. Qed.

(** Setting pairwise distinct fresh names one after the other appends
    them in that order. *)
Lemma foldl_SetAttribute_fresh (f : string -> Expr) (names : list string) (b : Body) :
  NoDup names -> Forall (fun n => has_attr b n = false) names ->
  foldl (fun b n => SetAttribute b n (f n)) b names = b ++ map (fun n => Attribute n (f n)) names.
Proof.
  revert b. induction names as [|n names IH]; intros b Hnd Hfresh; simpl.
  - by rewrite app_nil_r.
  - apply NoDup_cons in Hnd as [Hn Hnd]. apply Forall_cons in Hfresh as [Hbn Hfresh].
    rewrite SetAttribute_fresh by done. rewrite IH; [by rewrite <- (assoc_L (++))|done|].
    apply Forall_forall. intros m Hm. rewrite has_attr_app.
    apply orb_false_intro; [by apply (proj1 (Forall_forall _ _) Hfresh)|]. simpl.
    rewrite string_eqb_neq; [done|]. intros ->. by apply Hn.
Qed.

Lemma has_attr_nil n : has_attr [] n = false.
Proof. done. Qed.

Lemma blocks_of_block t ty ls inner b :
  blocks_of t (Block ty ls inner :: b) =
    (if String.eqb ty t then [(ls, inner)] else []) ++ blocks_of t b.
Proof. unfold blocks_of. simpl. by destruct (String.eqb ty t). Qed.

Lemma blocks_of_newline t b : blocks_of t (Newline :: b) = blocks_of t b.
Proof. done. Qed.

Lemma blocks_of_comment t c b : blocks_of t (Comment c :: b) = blocks_of t b.
Proof. done. Qed.

Lemma blocks_of_attribute t n e b : blocks_of t (Attribute n e :: b) = blocks_of t b.
Proof. done. Qed.

Lemma blocks_of_nil t : blocks_of t [] = [].
Proof. done. Qed.

Create Rewrite HintDb hcl_rw.
#[export] Hint Rewrite blocks_of_app blocks_of_block blocks_of_newline blocks_of_comment
  blocks_of_attribute blocks_of_nil attr_names_app : hcl_rw.

Ltac hcl_simpl := autorewrite with hcl_rw; simpl_eqb; rewrite ?app_nil_l, ?app_nil_r.

(** The blocks of type [inner] nested in the blocks of type [outer]. *)
Definition nested_blocks (outer inner : string) (b : Body) : list (list string * Body) :=
  concat (map (fun lb => blocks_of inner lb.2) (blocks_of outer b)).

Lemma find_attr_foldl_notin (f : string -> Expr) (names : list string) (b : Body) n :
  n ∉ names -> find_attr (foldl (fun b m => SetAttribute b m (f m)) b names) n = find_attr b n.
Proof.
  revert b. induction names as [|m names IH]; intros b Hn; simpl; [done|].
  rewrite IH by set_solver. apply find_SetAttribute_ne. set_solver.
Qed.

(** Whatever was there before, after a loop that sets [n], the last value
    set for [n] is the one found. *)
Lemma find_attr_foldl_in (f : string -> Expr) (names : list string) (b : Body) n :
  n ∈ names -> find_attr (foldl (fun b m => SetAttribute b m (f m)) b names) n = Some (f n).
Proof.
  revert b. induction names as [|m names IH]; intros b Hn; simpl; [set_solver|].
  destruct (decide (n ∈ names)) as [Hin|Hout]; [by apply IH|].
  assert (m = n) as -> by set_solver.
  rewrite find_attr_foldl_notin by done. apply find_SetAttribute.
Qed.

Lemma has_attr_not_in b n : n ∉ attr_names b -> has_attr b n = false.
Proof.
  induction b as [|[m e| | |] b IH]; intros Hn; simpl; try done; try by apply IH.
  unfold attr_names in Hn. simpl in Hn. rewrite elem_of_cons in Hn.
  rewrite string_eqb_neq by (intros ->; apply Hn; by left).
  apply IH. intros Hin. apply Hn. by right.
Qed.

(** ** Well-formed bodies

    HCL rejects a body that sets one attribute twice.  A body is
    well formed when its attribute names are pairwise distinct and every
    block in it is well formed. *)
Fixpoint item_wf (it : Item) : bool :=
  match it with
  | Block _ _ body =>
      bool_decide (NoDup (attr_names body)) &&
      (fix items_wf (b : Body) : bool :=
         match b with [] => true | x :: r => item_wf x && items_wf r end) body
  | _ => true
  end.

Definition body_wf (b : Body) : Prop := NoDup (attr_names b) /\ Forall (fun it => item_wf it = true) b.

Lemma item_wf_block t ls body : item_wf (Block t ls body) = true <-> body_wf body.
Proof.
  unfold body_wf. simpl. rewrite andb_true_iff, bool_decide_eq_true.
  apply and_iff_compat_l. induction body as [|x r IH]; simpl; [split; [constructor|done]|].
  rewrite andb_true_iff, Forall_cons, IH. done.
Qed.

Lemma attr_names_replace b n e :
  has_attr b n = true -> attr_names (replace_attr b n e) = attr_names b.
Proof.
  induction b as [|it b IH]; simpl; [done|]. destruct (is_attr n it) eqn:E.
  - intros _. apply is_attr_spec in E as [e' ->]. done.
  - intros H. destruct it as [m e'| | |]; simpl in *; try (by apply IH).
    f_equal. by apply IH.
Qed.

Lemma has_attr_false_not_in b n : has_attr b n = false -> n ∉ attr_names b.
Proof.
  induction b as [|[m e| | |] b IH]; simpl; try by (intros; apply not_elem_of_nil).
  all: try exact IH.
  intros [Hm Hb]%orb_false_iff. unfold attr_names. simpl. apply not_elem_of_cons. split; [|by apply IH].
  intros ->. by rewrite String.eqb_refl in Hm.
Qed.

Lemma replace_attr_items b n e :
  Forall (fun it => item_wf it = true) b -> Forall (fun it => item_wf it = true) (replace_attr b n e).
Proof.
  induction b as [|it b IH]; simpl; [done|]. intros [Hit Hb]%Forall_cons.
  destruct (is_attr n it); constructor; auto.
Qed.

(** Setting an attribute keeps a body well formed: an attribute of the
    same name is replaced, never added twice. *)
Lemma SetAttribute_wf b n e : body_wf b -> body_wf (SetAttribute b n e).
Proof.
  intros [Hnd Hit]. unfold SetAttribute. destruct (has_attr b n) eqn:E.
  - split; [by rewrite attr_names_replace|by apply replace_attr_items].
  - split.
    + rewrite attr_names_app. unfold attr_names at 2. simpl.
      apply NoDup_app. split_and!; [done| |by apply NoDup_singleton].
      intros x Hx ->%list_elem_of_singleton. by apply (has_attr_false_not_in b n).
    + apply Forall_app. split; [done|]. by constructor.
Qed.

Lemma AppendNewBlock_wf b t ls inner :
  body_wf b -> body_wf inner -> body_wf (AppendNewBlock b t ls inner).
Proof.
  intros [Hnd Hit] Hin. unfold AppendNewBlock. split.
  - rewrite attr_names_app. unfold attr_names at 2. simpl. by rewrite app_nil_r.
  - apply Forall_app. split; [done|]. constructor; [by apply item_wf_block|done].
Qed.

Lemma append_plain_wf b it :
  (forall n e, it <> Attribute n e) -> (forall t ls inner, it <> Block t ls inner) ->
  body_wf b -> body_wf (b ++ [it]).
Proof.
  intros Ha Hb [Hnd Hit]. split.
  - rewrite attr_names_app. unfold attr_names at 2. simpl.
    destruct it as [n e|t ls inner| |]; [by destruct (Ha n e)|by destruct (Hb t ls inner)| |];
      simpl; by rewrite app_nil_r.
  - apply Forall_app. split; [done|]. constructor; [|done].
    destruct it as [n e|t ls inner| |]; [by destruct (Ha n e)|by destruct (Hb t ls inner)|done|done].
Qed.

Lemma AppendNewline_wf b : body_wf b -> body_wf (AppendNewline b).
Proof. apply append_plain_wf; discriminate. Qed.

Lemma AppendComment_wf b c : body_wf b -> body_wf (AppendComment b c).
Proof. apply append_plain_wf; discriminate. Qed.

Lemma body_wf_nil : body_wf [].
Proof. split; constructor. Qed.

#[export] Hint Resolve SetAttribute_wf AppendNewBlock_wf AppendNewline_wf AppendComment_wf
  body_wf_nil : hcl_wf.

Lemma foldl_wf {A} (f : Body -> A -> Body) (l : list A) (b : Body) :
  (forall b x, body_wf b -> body_wf (f b x)) -> body_wf b -> body_wf (foldl f b l).
Proof. intros Hf. revert b. induction l as [|x l IH]; intros b Hb; simpl; auto. Qed.

Lemma SetAttributeValue_wf b n v : body_wf b -> body_wf (SetAttributeValue b n v).
Proof. apply SetAttribute_wf. Qed.

Lemma SetAttributeTraversal_wf b n r attrs : body_wf b -> body_wf (SetAttributeTraversal b n r attrs).
Proof. apply SetAttribute_wf. Qed.

#[export] Hint Resolve SetAttributeValue_wf SetAttributeTraversal_wf : hcl_wf.
