(* ===== verification/RootModule.v ===== *)
(** * [src/templates/tftmpl/root.go]: the task's input data and [main.tf]

    [Task] and [Service] are the Go structs, each in a module of its own
    with its methods.  [namedBlock] and [newNamedBlock] come from the
    package's [named_block.go], which is not in the slice: a block is the
    first (in a one-entry map, the only) key of a [map[string]interface{}]
    whose value is the map of attributes, and the input types here are the
    ones for which the code's type assertion succeeds.

    [RootModuleInputData] keeps both the exported fields and the private
    ones [Init] fills.  [Init] is a function of the record; its in-place
    [sort.Slice] on [d.services], which shares its backing array with
    [d.Services], shows up as both fields holding the sorted slice.

    [main_body] is the [hclwrite] body [NewMainTF] builds; [NewMainTF]
    writes the preamble (an error there is logged and dropped) and then the
    body, through a [Writer] that records the chunks written and fails
    every write when its file is set to fail.  The other three renderers
    are modelled from the spec: their code is not in the slice. *)

From S2P Require Import Prelude GoSort Hcl.
From Stdlib Require Import Ascii.

Definition TerraformRequiredVersion : string := "~>0.13.0".
Definition RootFilename : string := "main.tf".
Definition VarsFilename : string := "variables.tf".
Definition ModuleVarsFilename : string := "variables.module.tf".
Definition TFVarsTmplFilename : string := "terraform.tfvars.tmpl".

Definition RootPreamble : string :=
"# This file is generated by Consul NIA.
#
# The HCL blocks, arguments, variables, and values are derived from the
# operator configuration for Consul NIA. Any manual changes to this file
# may not be preserved and could be clobbered by a subsequent update.

".

Module Task.
Record t := mk {
  Description : string;
  Name : string;
  Source : string;
  Version : string
}.
End Task.

Module Service.
Record t := mk {
  Datacenter : string;
  Description : string;
  Name : string;
  Namespace : string;
  Tag : string
}.

Definition TemplateServiceID (s : t) : string :=
  let id := Name s in
  let id := if String.eqb (Tag s) "" then id else Tag s +:+ "." +:+ Name s in
  if String.eqb (Datacenter s) "" then id else id +:+ "@" +:+ Datacenter s.
End Service.

Record namedBlock := mkNamedBlock {
  nb_Name : string;
  nb_Block : gomap GoValue
}.

Definition newNamedBlock (m : gomap (gomap GoValue)) : namedBlock :=
  match m with
  | [] => mkNamedBlock "" []
  | (name, raw) :: _ => mkNamedBlock name raw
  end.

Record RootModuleInputData := mkInput {
  Backend : option (gomap (gomap GoValue));
  Providers : list (gomap (gomap GoValue));
  ProviderInfo : gomap GoValue;
  Services : list Service.t;
  Task : Task.t;
  Variables : gomap GoValue;
  backend : option namedBlock;
  providers : list namedBlock;
  services : list Service.t
}.

(** ** Output of a renderer: the chunks written to its file *)
Inductive Chunk :=
| Raw (s : string)
| Hcl (b : Body).

Record Writer := mkWriter {
  w_path : string;
  w_fails : bool;
  w_out : list Chunk
}.

Definition Write (w : Writer) (c : Chunk) : Writer * option go_error :=
  if w_fails w then (w, Some (ErrWrite (w_path w)))
  else (mkWriter (w_path w) false (w_out w ++ [c]), None).

Section Render.
Context `{SortSlice}.

Definition SortedAttributes (b : namedBlock) : list string :=
  sort_slice (fun s => s) (gomap_keys (nb_Block b)).

Definition sortedKeys (m : gomap GoValue) : list string :=
  sort_slice (fun s => s) (gomap_keys m).

Definition Keys (v : gomap GoValue) : list string :=
  sort_slice (fun s => s) (gomap_keys v).

Definition Init (d : RootModuleInputData) : RootModuleInputData :=
  let '(Backend', backend') :=
    match Backend d with
    | Some b => (Some b, Some (newNamedBlock b))
    | None => (Some [], backend d)
    end in
  let providers' := sort_slice nb_Name (map newNamedBlock (Providers d)) in
  let services' := sort_slice Service.Name (Services d) in
  {| Backend := Backend'; Providers := Providers d; ProviderInfo := ProviderInfo d;
     Services := services'; Task := Task d; Variables := Variables d;
     backend := backend'; providers := providers'; services := services' |}.

Definition requiredProvidersBody (providerInfo : gomap GoValue) : Body :=
  foldl (fun rp pName =>
           match gomap_lookup pName providerInfo with
           | Some info => SetAttributeValue rp pName info
           | None => rp
           end) [] (sortedKeys providerInfo).

Definition backendBody (b : namedBlock) : Body :=
  foldl (fun bb attr =>
           SetAttributeValue bb attr (default GoNull (gomap_lookup attr (nb_Block b))))
        [] (SortedAttributes b).

(** The body of the [terraform] block (lines 213-235). *)
Definition terraformBody (backend : option namedBlock) (providerInfo : gomap GoValue) : Body :=
  let tfBody := SetAttributeValue [] "required_version" (GoString TerraformRequiredVersion) in
  let tfBody :=
    if Nat.eqb (length providerInfo) 0 then tfBody
    else AppendNewBlock tfBody "required_providers" [] (requiredProvidersBody providerInfo) in
  match backend with
  | None => tfBody
  | Some b => AppendNewBlock tfBody "backend" [nb_Name b] (backendBody b)
  end.

Definition appendRootTerraformBlock (body : Body) (backend : option namedBlock)
    (providerInfo : gomap GoValue) : Body :=
  AppendNewBlock body "terraform" [] (terraformBody backend providerInfo).

(** The arguments of one provider block: [attr = var.<name>.<attr>]. *)
Definition providerBody (p : namedBlock) : Body :=
  foldl (fun pb attr =>
           if String.eqb attr "alias" then pb
           else SetAttributeTraversal pb attr "var" [nb_Name p; attr])
        [] (SortedAttributes p).

Fixpoint provider_blocks_from (i : nat) (lastIdx : Z) (ps : list namedBlock)
    (body : Body) : Body :=
  match ps with
  | [] => body
  | p :: ps' =>
      let body := AppendNewBlock body "provider" [nb_Name p] (providerBody p) in
      let body := if Z.eqb (Z.of_nat i) lastIdx then body else AppendNewline body in
      provider_blocks_from (S i) lastIdx ps' body
  end.

Definition appendRootProviderBlocks (body : Body) (providers : list namedBlock) : Body :=
  provider_blocks_from 0 (Z.of_nat (length providers) - 1) providers body.

Definition appendComment (b : Body) (comment : string) : Body :=
  AppendNewline (AppendComment b ("# " +:+ comment)).

(** The module block's arguments before the variables (lines 277-289). *)
Definition modulePrefix (task : Task.t) (varNames : list string) : Body :=
  let mb := SetAttributeValue [] "source" (GoString (Task.Source task)) in
  let mb := if Nat.ltb 0 (String.length (Task.Version task))
            then SetAttributeValue mb "version" (GoString (Task.Version task)) else mb in
  let mb := SetAttributeTraversal mb "services" "var" ["services"] in
  if Nat.eqb (length varNames) 0 then mb else AppendNewline mb.

Definition moduleBody (task : Task.t) (varNames : list string) : Body :=
  foldl (fun mb name => SetAttributeTraversal mb name "var" [name])
        (modulePrefix task varNames) varNames.

Definition appendRootModuleBlock (body : Body) (task : Task.t) (varNames : list string) : Body :=
  let body := if String.eqb (Task.Description task) "" then body
              else appendComment body (Task.Description task) in
  AppendNewBlock body "module" [Task.Name task] (moduleBody task varNames).

Definition main_body (input : RootModuleInputData) : Body :=
  let rootBody := appendRootTerraformBlock [] (backend input) (ProviderInfo input) in
  let rootBody := AppendNewline rootBody in
  let rootBody := appendRootProviderBlocks rootBody (providers input) in
  let rootBody := AppendNewline rootBody in
  appendRootModuleBlock rootBody (Task input) (Keys (Variables input)).

Definition NewMainTF (w : Writer) (input : RootModuleInputData) : Writer * option go_error :=
  let '(w, _) := Write w (Raw RootPreamble) in
  Write w (Hcl (main_body input)).

(** *** The renderers whose code is not in the slice (from the spec) *)

Definition variables_body (input : RootModuleInputData) : Body :=
  AppendNewBlock [] "variable" ["services"] [] ++
  map (fun p => Block "variable" [nb_Name p] []) (providers input).

Definition NewVariablesTF (w : Writer) (input : RootModuleInputData) : Writer * option go_error :=
  let '(w, _) := Write w (Raw RootPreamble) in
  Write w (Hcl (variables_body input)).

Definition module_variables_body (input : RootModuleInputData) : Body :=
  map (fun name => Block "variable" [name] []) (Keys (Variables input)).

Definition NewModuleVariablesTF (w : Writer) (input : RootModuleInputData)
    : Writer * option go_error :=
  let '(w, _) := Write w (Raw RootPreamble) in
  Write w (Hcl (module_variables_body input)).

Definition service_value (s : Service.t) : GoValue :=
  GoObject [("name", GoString (Service.Name s)); ("tag", GoString (Service.Tag s));
            ("datacenter", GoString (Service.Datacenter s))].

Definition tfvars_body (input : RootModuleInputData) : Body :=
  SetAttributeValue [] "services"
    (GoObject (map (fun s => (Service.TemplateServiceID s, service_value s)) (services input))).

Definition NewTFVarsTmpl (w : Writer) (input : RootModuleInputData) : Writer * option go_error :=
  let '(w, _) := Write w (Raw RootPreamble) in
  Write w (Hcl (tfvars_body input)).
End Render.

(** ** Structure of the rendered [main.tf] *)
Section MainTF.
Context `{SortSlice}.

Definition comment_items (description : string) : Body :=
  if String.eqb description "" then [] else [Comment ("# " +:+ description); Newline].

Lemma provider_blocks_from_app_gen i l ps b1 b2 :
  provider_blocks_from i l ps (b1 ++ b2) = b1 ++ provider_blocks_from i l ps b2.
Proof.
  revert i b2. induction ps as [|p ps IH]; intros i b2; simpl; [done|].
  unfold AppendNewline, AppendNewBlock.
  destruct (Z.eqb _ _); rewrite <- !(assoc_L (++)); apply IH.
Qed.

Lemma provider_blocks_from_app i l ps body :
  provider_blocks_from i l ps body = body ++ provider_blocks_from i l ps [].
Proof. by rewrite <- provider_blocks_from_app_gen, app_nil_r. Qed.

Lemma provider_blocks_other t i l ps :
  t <> "provider" -> blocks_of t (provider_blocks_from i l ps []) = [].
Proof.
  intros Ht. revert i. induction ps as [|p ps IH]; intros i; [done|].
  cbn [provider_blocks_from]. rewrite provider_blocks_from_app, blocks_of_app, IH.
  unfold AppendNewline, AppendNewBlock.
  destruct (Z.eqb _ _); hcl_simpl; by rewrite string_eqb_neq by congruence.
Qed.

Lemma provider_blocks_provider i l ps :
  blocks_of "provider" (provider_blocks_from i l ps []) =
    map (fun p => ([nb_Name p], providerBody p)) ps.
Proof.
  revert i. induction ps as [|p ps IH]; intros i; [done|].
  cbn [provider_blocks_from]. rewrite provider_blocks_from_app, blocks_of_app, IH.
  unfold AppendNewline, AppendNewBlock. by destruct (Z.eqb _ _); hcl_simpl.
Qed.

(** [main.tf] is, in this order: the [terraform] block, a blank line, the
    provider blocks, a blank line, the task description as a comment, the
    module block. *)
Lemma main_body_eq (i : RootModuleInputData) :
  main_body i =
    Block "terraform" [] (terraformBody (backend i) (ProviderInfo i)) :: Newline ::
    appendRootProviderBlocks [] (providers i) ++
    Newline :: comment_items (Task.Description (Task i)) ++
    [Block "module" [Task.Name (Task i)] (moduleBody (Task i) (Keys (Variables i)))].
Proof.
  unfold main_body, appendRootModuleBlock, appendRootProviderBlocks,
    appendRootTerraformBlock, comment_items, appendComment, AppendNewline,
    AppendComment, AppendNewBlock.
  rewrite (provider_blocks_from_app _ _ (providers i)).
  destruct (String.eqb _ _); by rewrite <- !(assoc_L (++)).
Qed.

Lemma blocks_of_comment_items t d : blocks_of t (comment_items d) = [].
Proof. unfold comment_items. by destruct (String.eqb d ""). Qed.

Ltac main_blocks :=
  rewrite main_body_eq; unfold appendRootProviderBlocks; hcl_simpl;
  rewrite ?blocks_of_comment_items, ?provider_blocks_provider,
    ?provider_blocks_other by done; hcl_simpl.

Lemma main_body_terraform i :
  blocks_of "terraform" (main_body i) = [([], terraformBody (backend i) (ProviderInfo i))].
Proof. by main_blocks. Qed.

Lemma main_body_provider i :
  blocks_of "provider" (main_body i) =
    map (fun p => ([nb_Name p], providerBody p)) (providers i).
Proof. by main_blocks. Qed.

Lemma main_body_module i :
  blocks_of "module" (main_body i) =
    [([Task.Name (Task i)], moduleBody (Task i) (Keys (Variables i)))].
Proof. by main_blocks. Qed.

Lemma terraformBody_backend b pi :
  blocks_of "backend" (terraformBody b pi) =
    match b with None => [] | Some nb => [([nb_Name nb], backendBody nb)] end.
Proof.
  unfold terraformBody, SetAttributeValue, SetAttribute, AppendNewBlock. simpl has_attr.
  destruct (Nat.eqb _ _), b; hcl_simpl; done.
Qed.

Lemma main_body_backend i :
  nested_blocks "terraform" "backend" (main_body i) =
    match backend i with None => [] | Some nb => [([nb_Name nb], backendBody nb)] end.
Proof.
  unfold nested_blocks. rewrite main_body_terraform. simpl.
  by rewrite terraformBody_backend, app_nil_r.
Qed.
End MainTF.

(** ** Theorems about [Init] and [main.tf] *)
Section Claims.
Context `{SortSlice}.

(** C10: [Init] sorts the provider blocks and the services by name, keeping
    every one of them, and the caller's [Services] slice is sorted with
    them (the two share a backing array). *)
Theorem Init_sorts (d : RootModuleInputData) :
  Sorted (fun p q => go_le (nb_Name p) (nb_Name q)) (providers (Init d)) /\
  providers (Init d) ≡ₚ map newNamedBlock (Providers d) /\
  Sorted (fun s t => go_le (Service.Name s) (Service.Name t)) (services (Init d)) /\
  services (Init d) ≡ₚ Services d /\
  Services (Init d) = services (Init d).
Proof.
  unfold Init. destruct (Backend d); simpl;
    split_and!; auto using sort_slice_sorted, sort_slice_perm.
Qed.

Lemma backendBody_empty : backendBody (mkNamedBlock "" []) = [].
Proof. unfold backendBody, SortedAttributes. simpl. by rewrite sort_slice_nil. Qed.

(** With no backend configured, [main.tf] has no [backend] block. *)
Theorem Init_no_backend_block (d : RootModuleInputData) :
  Backend d = None -> backend d = None ->
  nested_blocks "terraform" "backend" (main_body (Init d)) = [].
Proof. intros HB Hb. rewrite main_body_backend. unfold Init. by rewrite HB, Hb. Qed.

(** C12: [Init] is not idempotent: the first call replaces a nil [Backend]
    with an empty map, so a second call builds a block from that empty
    map, and [main.tf] gains a [backend ""] block with no attributes. *)
Theorem Init_twice_backend_block (d : RootModuleInputData) :
  Backend d = None ->
  nested_blocks "terraform" "backend" (main_body (Init (Init d))) = [([""], [])].
Proof.
  intros HB. rewrite main_body_backend. unfold Init. rewrite HB. simpl.
  by rewrite backendBody_empty.
Qed.

(** C20: When a backend is configured and service names are distinct, a
    second [Init] changes nothing. *)
Theorem Init_idempotent_with_backend (d : RootModuleInputData) b :
  Backend d = Some b -> NoDup (map Service.Name (Services d)) ->
  Init (Init d) = Init d.
Proof.
  intros HB Hnd. unfold Init. rewrite HB. simpl.
  rewrite (sort_slice_sorted_id Service.Name (sort_slice Service.Name (Services d))); [done| |].
  - by apply sort_slice_keys_NoDup.
  - apply sort_slice_sorted.
Qed.

Lemma providerBody_spec (p : namedBlock) :
  gomap_wf (nb_Block p) ->
  providerBody p =
    map (fun a => Attribute a (ExprTraversal "var" [nb_Name p; a]))
        (filter (fun a => negb (String.eqb a "alias")) (SortedAttributes p)).
Proof.
  intros Hwf. unfold providerBody, SetAttributeTraversal.
  rewrite (foldl_skip (fun a => String.eqb a "alias")
             (fun pb a => SetAttribute pb a (ExprTraversal "var" [nb_Name p; a]))).
  rewrite (foldl_SetAttribute_fresh (fun a => ExprTraversal "var" [nb_Name p; a])); [done| |].
  - apply NoDup_filter, sort_slice_NoDup, Hwf.
  - apply Forall_forall. intros. apply has_attr_nil.
Qed.

(** C21: Provider blocks come in the order of [providers] (sorted by [Init]);
    in each, every attribute but [alias] becomes
    [attr = var.<provider>.<attr>], in sorted attribute order. *)
Theorem provider_blocks_rendered (i : RootModuleInputData) :
  Forall (fun p => gomap_wf (nb_Block p)) (providers i) ->
  blocks_of "provider" (main_body i) =
    map (fun p => ([nb_Name p],
                   map (fun a => Attribute a (ExprTraversal "var" [nb_Name p; a]))
                       (filter (fun a => negb (String.eqb a "alias")) (SortedAttributes p))))
        (providers i).
Proof.
  intros Hwf. rewrite main_body_provider. apply map_ext_in.
  intros p Hp. rewrite providerBody_spec; [done|].
  apply (proj1 (Forall_forall _ _) Hwf). by apply list_elem_of_In.
Qed.

Definition module_spec (task : Task.t) (names : list string) : Body :=
  Attribute "source" (ExprValue (GoString (Task.Source task))) ::
  (if Nat.ltb 0 (String.length (Task.Version task))
   then [Attribute "version" (ExprValue (GoString (Task.Version task)))] else []) ++
  Attribute "services" (ExprTraversal "var" ["services"]) ::
  (if Nat.eqb (length names) 0 then [] else [Newline]) ++
  map (fun n => Attribute n (ExprTraversal "var" [n])) names.

Lemma modulePrefix_spec task names :
  attr_names (modulePrefix task names) ⊆ ["source"; "version"; "services"] /\
  modulePrefix task names ++ map (fun n => Attribute n (ExprTraversal "var" [n])) names =
    module_spec task names.
Proof.
  unfold modulePrefix, module_spec.
  destruct (Nat.ltb _ _), (Nat.eqb _ _); simpl; split; try set_solver; done.
Qed.

(** The module block, when no variable is named [source], [version] or
    [services]: the source, the version when one is pinned, the services
    reference, then a blank line and [name = var.<name>] for each
    variable, in the order of [Keys] (sorted). *)
Theorem moduleBody_spec (task : Task.t) (names : list string) :
  NoDup names -> Forall (fun n => n ∉ ["source"; "version"; "services"]) names ->
  moduleBody task names = module_spec task names.
Proof.
  intros Hnd Hf. destruct (modulePrefix_spec task names) as [Hpre Hspec].
  unfold moduleBody. rewrite <- Hspec. unfold SetAttributeTraversal.
  apply (foldl_SetAttribute_fresh (fun n => ExprTraversal "var" [n])); [done|].
  eapply Forall_impl; [exact Hf|]. intros n Hn. apply has_attr_not_in. set_solver.
Qed.

(** C22: A task variable named like one of the module's own arguments
    replaces that argument: with a variable [source], the module's
    [source] becomes [var.source]. *)
Theorem module_variable_overrides_argument (task : Task.t) (names : list string) (n : string) :
  n ∈ names -> find_attr (moduleBody task names) n = Some (ExprTraversal "var" [n]).
Proof.
  intros Hn. unfold moduleBody, SetAttributeTraversal.
  by apply (find_attr_foldl_in (fun n => ExprTraversal "var" [n])).
Qed.

Lemma sort_keys_perm {V} (m1 m2 : gomap V) :
  gomap_wf m1 -> m1 ≡ₚ m2 ->
  sort_slice (fun s => s) (gomap_keys m1) = sort_slice (fun s => s) (gomap_keys m2).
Proof.
  intros Hwf Hp. apply sort_slice_deterministic; [by rewrite map_id|].
  by apply gomap_keys_perm.
Qed.

Lemma requiredProvidersBody_perm pi1 pi2 :
  gomap_wf pi1 -> pi1 ≡ₚ pi2 -> requiredProvidersBody pi1 = requiredProvidersBody pi2.
Proof.
  intros Hwf Hp. unfold requiredProvidersBody, sortedKeys.
  rewrite (sort_keys_perm pi1 pi2) by done.
  apply foldl_ext_in. intros acc x _. by rewrite (gomap_lookup_perm pi1 pi2).
Qed.

Lemma terraformBody_perm b pi1 pi2 :
  gomap_wf pi1 -> pi1 ≡ₚ pi2 -> terraformBody b pi1 = terraformBody b pi2.
Proof.
  intros Hwf Hp. unfold terraformBody.
  by rewrite (Permutation_length Hp), (requiredProvidersBody_perm pi1 pi2).
Qed.

(** Providers with distinct names come out of [Init] in one order,
    whatever order they came in. *)
Lemma Init_providers_deterministic (d1 d2 : RootModuleInputData) :
  Providers d1 ≡ₚ Providers d2 -> NoDup (map nb_Name (map newNamedBlock (Providers d1))) ->
  providers (Init d1) = providers (Init d2).
Proof.
  intros Hp Hnd. unfold Init. destruct (Backend d1), (Backend d2); simpl;
    (apply sort_slice_deterministic; [done|by apply Permutation_map]).
Qed.

(** Deterministic rendering: two inputs that differ only in the order
    their providers, required providers and variables were inserted (all
    with distinct names) render the same [main.tf] after [Init]. *)
Theorem main_tf_deterministic (d1 d2 : RootModuleInputData) :
  Backend d1 = Backend d2 -> backend d1 = backend d2 -> Task d1 = Task d2 ->
  Providers d1 ≡ₚ Providers d2 -> NoDup (map nb_Name (map newNamedBlock (Providers d1))) ->
  ProviderInfo d1 ≡ₚ ProviderInfo d2 -> gomap_wf (ProviderInfo d1) ->
  Variables d1 ≡ₚ Variables d2 -> gomap_wf (Variables d1) ->
  main_body (Init d1) = main_body (Init d2).
Proof.
  intros HB Hb HT HP HPnd HI HIwf HV HVwf.
  assert (backend (Init d1) = backend (Init d2)) as Hbk
    by (unfold Init; rewrite HB, Hb; by destruct (Backend d2)).
  assert (providers (Init d1) = providers (Init d2)) as Hpr
    by (by apply Init_providers_deterministic).
  assert (ProviderInfo (Init d1) = ProviderInfo d1 /\ ProviderInfo (Init d2) = ProviderInfo d2 /\
          Task (Init d1) = Task d1 /\ Task (Init d2) = Task d2 /\
          Variables (Init d1) = Variables d1 /\ Variables (Init d2) = Variables d2)
    as (HI1 & HI2 & HT1 & HT2 & HV1 & HV2)
    by (unfold Init; destruct (Backend d1), (Backend d2); done).
  unfold main_body, appendRootTerraformBlock, Keys.
  rewrite Hbk, Hpr, HI1, HI2, HT1, HT2, HV1, HV2, HT,
    (terraformBody_perm _ (ProviderInfo d1) (ProviderInfo d2)),
    (sort_keys_perm (Variables d1) (Variables d2)) by done.
  done.
Qed.

(** Services with distinct names come out of [Init] in one order,
    whatever order they were discovered in. *)
Theorem Init_services_deterministic (d1 d2 : RootModuleInputData) :
  Services d1 ≡ₚ Services d2 -> NoDup (map Service.Name (Services d1)) ->
  services (Init d1) = services (Init d2).
Proof.
  intros Hp Hnd. unfold Init. destruct (Backend d1), (Backend d2); simpl;
    by apply sort_slice_deterministic.
Qed.
(** The provider section the spec describes: the blocks, one blank line
    between two consecutive ones, none after the last. *)
Fixpoint separated_providers (ps : list namedBlock) : Body :=
  match ps with
  | [] => []
  | [p] => [Block "provider" [nb_Name p] (providerBody p)]
  | p :: ps' => Block "provider" [nb_Name p] (providerBody p) :: Newline :: separated_providers ps'
  end.

Lemma provider_blocks_from_separated i ps :
  provider_blocks_from i (Z.of_nat (i + length ps) - 1) ps [] = separated_providers ps.
Proof.
  revert i. induction ps as [|p ps IH]; intros i; [done|].
  cbn [provider_blocks_from]. rewrite provider_blocks_from_app.
  unfold AppendNewline, AppendNewBlock. simpl app.
  match goal with |- context [Z.eqb ?a ?b] => destruct (Z.eqb_spec a b) as [Heq|Hne] end;
    destruct ps as [|p' ps']; simpl length in *; try lia.
  - done.
  - replace (Z.of_nat (i + S (S (length ps'))) - 1)%Z
      with (Z.of_nat (S i + length (p' :: ps')) - 1)%Z by (simpl length; lia).
    rewrite IH. done.
Qed.

Definition is_newline (it : Item) : bool := match it with Newline => true | _ => false end.

Lemma separated_providers_newlines ps :
  length (List.filter is_newline (separated_providers ps)) = length ps - 1.
Proof.
  induction ps as [|p [|p' ps] IH]; [done|done|].
  change (separated_providers (p :: p' :: ps))
    with (Block "provider" [nb_Name p] (providerBody p) :: Newline :: separated_providers (p' :: ps)).
  cbn [List.filter is_newline length]. rewrite IH. simpl. lia.
Qed.

(** C19: Index arithmetic of [appendRootProviderBlocks].  Comparing the
    loop index with [len(providers) - 1] appends exactly one blank line
    between two consecutive provider blocks and none after the last: [n]
    blocks get [n - 1] blank lines, and with no providers ([lastIdx] is
    [-1]) nothing is appended. *)
Theorem appendRootProviderBlocks_layout body ps :
  appendRootProviderBlocks body ps = body ++ separated_providers ps /\
  length (List.filter is_newline (appendRootProviderBlocks [] ps)) = length ps - 1.
Proof.
  assert (E : forall b, appendRootProviderBlocks b ps = b ++ separated_providers ps).
  { intros b. unfold appendRootProviderBlocks. rewrite provider_blocks_from_app.
    by rewrite <- (provider_blocks_from_separated 0 ps). }
  split; [apply E|]. rewrite E. apply separated_providers_newlines.
Qed.

(** ** Every body of [main.tf] is well formed *)

(** A fold of attribute settings from the empty body is well formed. *)
Ltac wf_fold := apply foldl_wf; [intros ?? ?; repeat case_match; eauto with hcl_wf|eauto with hcl_wf].


Lemma requiredProvidersBody_wf pi : body_wf (requiredProvidersBody pi).
Proof. unfold requiredProvidersBody. wf_fold. Qed.

Lemma backendBody_wf b : body_wf (backendBody b).
Proof. unfold backendBody. wf_fold. Qed.

Lemma providerBody_wf p : body_wf (providerBody p).
Proof. unfold providerBody. wf_fold. Qed.

Lemma terraformBody_wf b pi : body_wf (terraformBody b pi).
Proof.
  unfold terraformBody. pose proof (requiredProvidersBody_wf pi). pose proof backendBody_wf.
  repeat case_match; eauto 7 with hcl_wf.
Qed.

Lemma provider_blocks_from_wf i l ps body : body_wf body -> body_wf (provider_blocks_from i l ps body).
Proof.
  revert i body. induction ps as [|p ps IH]; intros i body Hb; simpl; [done|].
  apply IH. pose proof (providerBody_wf p). case_match; eauto with hcl_wf.
Qed.

Lemma moduleBody_wf t names : body_wf (moduleBody t names).
Proof.
  unfold moduleBody. apply foldl_wf; [eauto with hcl_wf|].
  unfold modulePrefix. repeat case_match; eauto 8 with hcl_wf.
Qed.

(** Well-formedness.  Whatever the input, every body [NewMainTF]
    renders, at every level of nesting, sets each attribute at most once:
    [hclwrite]'s [SetAttribute*] replaces an attribute of the same name,
    so duplicate provider-info keys, backend keys or variable names that
    clash with module arguments never produce an invalid file. *)
Theorem main_body_wf (i : RootModuleInputData) : body_wf (main_body i).
Proof.
  unfold main_body, appendRootModuleBlock, appendRootProviderBlocks, appendRootTerraformBlock.
  pose proof (terraformBody_wf (backend i) (ProviderInfo i)).
  pose proof (moduleBody_wf (Task i) (Keys (Variables i))).
  apply AppendNewBlock_wf; [|done]. case_match; [|unfold appendComment];
    eauto 8 using provider_blocks_from_wf with hcl_wf.
Qed.

End Claims.

(** ** Service identifiers *)
Module ServiceID.
Import Service.

(** Read an identifier back: the datacenter after the first [@], the
    tag before the first [.]. *)
Definition parse (id : string) : string * string * string :=
  let '(tn, dc) := match split_at "@"%char id with
                   | Some p => p
                   | None => (id, EmptyString)
                   end in
  match split_at "."%char tn with
  | Some (tag, name) => (tag, name, dc)
  | None => (EmptyString, tn, dc)
  end.

Lemma has_char_sep c d s : Ascii.eqb d c = false -> has_char c (String d s) = has_char c s.
Proof. simpl. by intros ->. Qed.

(** C23: When names and tags contain no [@], tags no [.], and an untagged
    name no [.], the identifier determines the service's tag, name and
    datacenter. *)
Theorem TemplateServiceID_roundtrip (s : Service.t) :
  has_char "@"%char (Name s) = false -> has_char "@"%char (Tag s) = false ->
  has_char "."%char (Tag s) = false ->
  (Tag s = EmptyString -> has_char "."%char (Name s) = false) ->
  parse (TemplateServiceID s) = (Tag s, Name s, Datacenter s).
Proof.
  intros Hn Ht Htd Hnd. unfold TemplateServiceID, parse.
  assert (has_char "@"%char (Tag s +:+ String "."%char (Name s)) = false) as Hid
    by (rewrite has_char_app; simpl; by rewrite Ht, Hn).
  destruct (String.eqb (Tag s) "") eqn:Et, (String.eqb (Datacenter s) "") eqn:Ed;
    rewrite ?String.eqb_eq in Et; rewrite ?String.eqb_eq in Ed;
    rewrite ?string_app_cons, ?string_app_nil_l.
  - rewrite (split_at_none _ (Name s)) by done.
    rewrite split_at_none by (by apply Hnd). by rewrite Et, Ed.
  - rewrite (split_at_sep "@"%char (Name s) (Datacenter s)) by done.
    rewrite split_at_none by (by apply Hnd). by rewrite Et.
  - rewrite (split_at_none _ (Tag s +:+ _)) by done.
    rewrite (split_at_sep "."%char (Tag s) (Name s)) by done. by rewrite Ed.
  - rewrite (split_at_sep "@"%char) by done.
    by rewrite (split_at_sep "."%char (Tag s) (Name s)) by done.
Qed.

(** C24: The identifier is not injective, in three ways the format
    allows: [Namespace] and [Description] never enter it (the code's
    [TODO incorporate namespace]); an untagged service named [t.n] and
    the service [n] tagged [t] get the same identifier; an undatacentered
    service named [n@d] and the service [n] in datacenter [d] get the
    same identifier.  In the last two cases the services differ. *)
Theorem TemplateServiceID_collision :
  (forall s1 s2, Name s1 = Name s2 -> Tag s1 = Tag s2 -> Datacenter s1 = Datacenter s2 ->
     TemplateServiceID s1 = TemplateServiceID s2) /\
  (forall dc t n, t <> "" ->
     mk dc "" (t +:+ "." +:+ n) "" "" <> mk dc "" n "" t /\
     TemplateServiceID (mk dc "" (t +:+ "." +:+ n) "" "") = TemplateServiceID (mk dc "" n "" t)) /\
  (forall n d, d <> "" ->
     mk "" "" (n +:+ "@" +:+ d) "" "" <> mk d "" n "" "" /\
     TemplateServiceID (mk "" "" (n +:+ "@" +:+ d) "" "") = TemplateServiceID (mk d "" n "" "")).
Proof.
  split_and!.
  - intros s1 s2 HN HT HD. unfold TemplateServiceID. by rewrite HN, HT, HD.
  - intros dc t n Ht. split; [intros [=]; congruence|].
    unfold TemplateServiceID. cbn [Name Tag Datacenter]. rewrite (string_eqb_neq t "") by done.
    done.
  - intros n d Hd. split; [intros [=]; congruence|].
    unfold TemplateServiceID. cbn [Name Tag Datacenter]. by rewrite (string_eqb_neq d "") by done.
Qed.

(** The tagged and the datacenter collisions at concrete names. *)
Lemma TemplateServiceID_collision_witness :
  TemplateServiceID (mk "dc1" "" "a.b" "" "") = TemplateServiceID (mk "dc1" "" "b" "" "a") /\
  TemplateServiceID (mk "" "" "web@dc2" "" "") = TemplateServiceID (mk "dc2" "" "web" "" "").
Proof.
  destruct TemplateServiceID_collision as (_ & H2 & H3). split.
  - apply (proj2 (H2 "dc1" "a" "b" ltac:(discriminate))).
  - apply (proj2 (H3 "web" "dc2" ltac:(discriminate))).
Defined.
End ServiceID.

(** ** The spec's scenario, and what duplicate service names do *)
Module Scenario.
Definition svc_db : Service.t := Service.mk "" "" "db" "" "".
Definition svc_db_v1 : Service.t := Service.mk "" "" "db" "" "v1".

(** Task [db_task], no backend, provider [local], the two services, no
    variables. *)
Definition input (svcs : list Service.t) : RootModuleInputData :=
  mkInput None [[("local", [])]] [] svcs (Task.mk "" "db_task" "./module" "") [] None [] [].

(** Whatever sort implementation runs: no backend block, one [local]
    provider block, a module block with only [source] and
    [services = var.services], and services identified as [db] and
    [v1.db]. *)
Theorem spec_scenario `{SortSlice} :
  let i := Init (input [svc_db; svc_db_v1]) in
  nested_blocks "terraform" "backend" (main_body i) = [] /\
  blocks_of "provider" (main_body i) = [(["local"], [])] /\
  blocks_of "module" (main_body i) =
    [(["db_task"], [Attribute "source" (ExprValue (GoString "./module"));
                    Attribute "services" (ExprTraversal "var" ["services"])])] /\
  map Service.TemplateServiceID (services i) ≡ₚ ["db"; "v1.db"].
Proof.
  simpl. rewrite main_body_backend, main_body_provider, main_body_module.
  unfold Init, Keys, providerBody, SortedAttributes. simpl.
  rewrite (sort_slice_singleton nb_Name). simpl.
  rewrite !(sort_slice_nil (fun s : string => s)). split_and!; try done.
  by rewrite sort_slice_perm.
Qed.

(** Go's sort is run on the services by name only: with the insertion
    sort Go uses on short slices, the two services named [db] keep the
    order they arrived in, so the variable-values template depends on
    the discovery order. *)
Theorem services_order_leaks :
  [svc_db; svc_db_v1] ≡ₚ [svc_db_v1; svc_db] /\
  services (@Init insertion_sort (input [svc_db; svc_db_v1])) <>
    services (@Init insertion_sort (input [svc_db_v1; svc_db])) /\
  tfvars_body (@Init insertion_sort (input [svc_db; svc_db_v1])) <>
    tfvars_body (@Init insertion_sort (input [svc_db_v1; svc_db])).
Proof. split_and!; [apply perm_swap| vm_compute; congruence | vm_compute; congruence]. Qed.
End Scenario.

(** ** The theorems above at concrete inputs *)
Module Witnesses.
Import Scenario.
#[local] Existing Instance insertion_sort.

Definition prov_aws : gomap (gomap GoValue) := [("aws", [("region", GoString "us-east-1")])].
Definition prov_local : gomap (gomap GoValue) := [("local", [])].

(** Two providers, no backend, no services, no variables. *)
Definition with_providers (ps : list (gomap (gomap GoValue))) : RootModuleInputData :=
  mkInput None ps [] [] (Task.mk "" "db_task" "./module" "") [] None [] [].

Definition with_backend : RootModuleInputData :=
  mkInput (Some [("consul", [("path", GoString "tf")])]) [prov_local] [] [svc_db]
    (Task.mk "" "db_task" "./module" "") [] None [] [].

Definition svc_api : Service.t := Service.mk "" "" "api" "" "".

Lemma Init_no_backend_block_witness :
  nested_blocks "terraform" "backend" (main_body (@Init insertion_sort (input [svc_db]))) = [].
Proof. apply (@Init_no_backend_block insertion_sort); reflexivity. Defined.

Lemma Init_twice_backend_block_witness :
  nested_blocks "terraform" "backend"
    (main_body (@Init insertion_sort (@Init insertion_sort (input [svc_db])))) = [([""], [])].
Proof. apply (@Init_twice_backend_block insertion_sort); reflexivity. Defined.

Lemma Init_idempotent_with_backend_witness :
  @Init insertion_sort (@Init insertion_sort with_backend) = @Init insertion_sort with_backend.
Proof.
  apply (@Init_idempotent_with_backend insertion_sort with_backend [("consul", [("path", GoString "tf")])]);
    [reflexivity|apply (bool_decide_unpack _); vm_compute; reflexivity].
Defined.

Lemma main_tf_deterministic_witness :
  main_body (@Init insertion_sort (with_providers [prov_aws; prov_local])) =
  main_body (@Init insertion_sort (with_providers [prov_local; prov_aws])).
Proof.
  apply (@main_tf_deterministic insertion_sort); try reflexivity;
    try (apply (bool_decide_unpack _); vm_compute; reflexivity).
  apply perm_swap.
Defined.

Lemma Init_services_deterministic_witness :
  services (@Init insertion_sort (input [svc_db; svc_api])) =
  services (@Init insertion_sort (input [svc_api; svc_db])).
Proof.
  apply (@Init_services_deterministic insertion_sort); [apply perm_swap|].
  apply (bool_decide_unpack _); vm_compute; reflexivity.
Defined.

Lemma provider_blocks_rendered_witness :
  blocks_of "provider" (main_body (@Init insertion_sort (with_providers [prov_local; prov_aws]))) =
    [(["aws"], [Attribute "region" (ExprTraversal "var" ["aws"; "region"])]); (["local"], [])].
Proof.
  rewrite (@provider_blocks_rendered insertion_sort); [vm_compute; reflexivity|].
  apply (bool_decide_unpack _); vm_compute; reflexivity.
Defined.

Lemma moduleBody_spec_witness :
  moduleBody (Task.mk "" "db_task" "./module" "1.0") ["region"; "zone"] =
    module_spec (Task.mk "" "db_task" "./module" "1.0") ["region"; "zone"].
Proof.
  apply moduleBody_spec; apply (bool_decide_unpack _); vm_compute; reflexivity.
Defined.

Lemma module_variable_overrides_argument_witness :
  find_attr (moduleBody (Task.mk "" "db_task" "./module" "") ["services"]) "services" =
    Some (ExprTraversal "var" ["services"]).
Proof.
  apply module_variable_overrides_argument. apply (bool_decide_unpack _); vm_compute; reflexivity.
Defined.

Lemma TemplateServiceID_roundtrip_witness :
  ServiceID.parse (Service.TemplateServiceID (Service.mk "dc1" "" "web" "" "v1")) = ("v1", "web", "dc1").
Proof.
  apply ServiceID.TemplateServiceID_roundtrip; try reflexivity. all: intros Hn; discriminate.
Defined.
End Witnesses.
