(* ===== verification/Synthesize.v ===== *)
(** * [InitRootModule] (lines 131-181 of [root.go]) over a model of the disk

    [Disk] is the part of the file system the function sees: the content of
    each file as the list of chunks written to it, each file's mode, and
    the paths on which [os.Stat] fails with an error other than
    "does not exist", on which [os.Create] fails, on which [Chmod] fails,
    and on which every [Write] fails.  The fault sets do not change during
    a run.

    [fileExists] is the code's: a failed [Stat] counts as existing unless
    the error says the file does not exist.  [Create] truncates (or makes,
    with mode 0666) the file; [Chmod] sets the mode; the renderer writes
    through a [Writer] whose chunks end up in the file, also when it stops
    on an error.  [f.Sync] and the deferred [f.Close] are not modelled:
    the code ignores their errors.

    [join] is [filepath.Join]: an empty directory is dropped and the
    result is cleaned ([Clean] of the prelude); file names without a
    slash or dot segment give distinct paths.

    [rootFileFuncs] is a Go map, iterated in an unspecified order:
    [InitRootModule] takes the order as an argument, and the theorems hold
    for every permutation of the four entries. *)

From S2P Require Import Prelude GoSort Hcl RootModule.
From stdpp Require Import gmap.
From Stdlib Require Import Ascii.

Record Disk := mkDisk {
  files : gmap string (list Chunk);
  modes : gmap string Z;
  stat_fail : gset string;
  create_fail : gset string;
  chmod_fail : gset string;
  write_fail : gset string
}.

Definition set_file (fs : Disk) (p : string) (c : list Chunk) : Disk :=
  mkDisk (<[p := c]> (files fs)) (modes fs) (stat_fail fs) (create_fail fs)
       (chmod_fail fs) (write_fail fs).

Definition set_mode (fs : Disk) (p : string) (m : Z) : Disk :=
  mkDisk (files fs) (<[p := m]> (modes fs)) (stat_fail fs) (create_fail fs)
       (chmod_fail fs) (write_fail fs).

(** [filepath.Join(dir, file)]: leading empty elements are ignored and
    the rest, joined with [/], is cleaned. *)
Definition join (dir file : string) : string :=
  if String.eqb dir "" then (if String.eqb file "" then "" else Clean file)
  else Clean (dir +:+ "/" +:+ file).

Inductive StatResult := StatOk | StatNotExist | StatErr.

Definition Stat (fs : Disk) (name : string) : StatResult :=
  if bool_decide (name ∈ stat_fail fs) then StatErr
  else if bool_decide (name ∈ dom (files fs)) then StatOk else StatNotExist.

Definition fileExists (fs : Disk) (name : string) : bool :=
  match Stat fs name with
  | StatNotExist => false
  | StatOk | StatErr => true
  end.

(** The mode [os.Create] gives a new file, 0666. *)
Definition create_mode : Z := 438.

Definition Create (fs : Disk) (p : string) : go_error + Disk :=
  if bool_decide (p ∈ create_fail fs) then inl (ErrCreate p)
  else
    let fs := if bool_decide (p ∈ dom (files fs)) then fs else set_mode fs p create_mode in
    inr (set_file fs p []).

Definition Chmod (fs : Disk) (p : string) (perms : Z) : go_error + Disk :=
  if bool_decide (p ∈ chmod_fail fs) then inl (ErrChmod p) else inr (set_mode fs p perms).

Definition open_writer (fs : Disk) (p : string) : Writer :=
  mkWriter p (bool_decide (p ∈ write_fail fs)) [].

Definition FileFunc := Writer -> RootModuleInputData -> Writer * option go_error.

Section Synthesis.
Context `{SortSlice}.

Definition rootFileFuncs : list (string * FileFunc) :=
  [(RootFilename, NewMainTF); (VarsFilename, NewVariablesTF);
   (ModuleVarsFilename, NewModuleVariablesTF); (TFVarsTmplFilename, NewTFVarsTmpl)].

Context (input : RootModuleInputData) (modulePath : string) (filePerms : Z).

Definition skips_module_vars (filename : string) : bool :=
  String.eqb filename ModuleVarsFilename && Nat.eqb (length (Variables input)) 0.

(** One iteration of the loop (lines 135-177). *)
Definition processFile (force : bool) (filename : string) (newFileFunc : FileFunc) (fs : Disk)
    : Disk * option go_error :=
  if skips_module_vars filename then (fs, None) else
  let filePath := join modulePath filename in
  if fileExists fs filePath && negb force then (fs, None) else
  match Create fs filePath with
  | inl err => (fs, Some err)
  | inr fs1 =>
      match Chmod fs1 filePath filePerms with
      | inl err => (fs1, Some err)
      | inr fs2 =>
          let '(w, err) := newFileFunc (open_writer fs2 filePath) input in
          (set_file fs2 filePath (w_out w), err)
      end
  end.

Fixpoint init_loop (force : bool) (entries : list (string * FileFunc)) (fs : Disk)
    : Disk * option go_error :=
  match entries with
  | [] => (fs, None)
  | (filename, f) :: rest =>
      match processFile force filename f fs with
      | (fs', Some err) => (fs', Some err)
      | (fs', None) => init_loop force rest fs'
      end
  end.

(** [order] is the order [range rootFileFuncs] visits the map in. *)
Definition InitRootModule (force : bool) (order : list (string * FileFunc)) (fs : Disk)
    : Disk * option go_error :=
  init_loop force order fs.
End Synthesis.

(** ** One file *)
Section OneFile.
Context (input : RootModuleInputData) (dir : string) (perms : Z).

(** The renderer writes without an error of its own when writes succeed. *)
Definition renders (f : FileFunc) : Prop :=
  forall p, snd (f (mkWriter p false []) input) = None.

Definition content (f : FileFunc) (p : string) : list Chunk :=
  w_out (fst (f (mkWriter p false []) input)).

Definition faults_free (fs : Disk) (p : string) : Prop :=
  (p ∉ create_fail fs) /\ (p ∉ chmod_fail fs) /\ (p ∉ write_fail fs).

Definition put_file (fs : Disk) (p : string) (c : list Chunk) : Disk :=
  set_mode (set_file fs p c) p perms.

Definition same_faults (fs fs' : Disk) : Prop :=
  stat_fail fs' = stat_fail fs /\ create_fail fs' = create_fail fs /\
  chmod_fail fs' = chmod_fail fs /\ write_fail fs' = write_fail fs.

Lemma fileExists_spec fs p :
  fileExists fs p = true <-> p ∈ dom (files fs) \/ p ∈ stat_fail fs.
Proof.
  unfold fileExists, Stat.
  destruct (bool_decide_reflect (p ∈ stat_fail fs)), (bool_decide_reflect (p ∈ dom (files fs)));
    naive_solver.
Qed.

Lemma processFile_skip force fn f fs :
  skips_module_vars input fn = true \/ (fileExists fs (join dir fn) = true /\ force = false) ->
  processFile input dir perms force fn f fs = (fs, None).
Proof.
  unfold processFile. intros [->|[-> ->]]; [done|].
  by destruct (skips_module_vars input fn).
Qed.

Lemma processFile_write force fn f fs :
  skips_module_vars input fn = false ->
  (fileExists fs (join dir fn) && negb force) = false ->
  faults_free fs (join dir fn) -> renders f ->
  processFile input dir perms force fn f fs =
    (put_file fs (join dir fn) (content f (join dir fn)), None).
Proof.
  intros Hs He (Hc & Hm & Hw) Hr. unfold processFile. rewrite Hs, He.
  set (p := join dir fn) in *. unfold Create, Chmod, open_writer.
  rewrite bool_decide_false by done. simpl. rewrite bool_decide_false by (by destruct (bool_decide _)).
  simpl. rewrite bool_decide_false by (by destruct (bool_decide _)).
  specialize (Hr p). unfold content.
  destruct (f (mkWriter p false []) input) as [w err]. simpl in Hr. subst err.
  destruct fs as [fl md sf cf mf wf]. unfold put_file, set_file, set_mode. simpl.
  destruct (bool_decide _); simpl; f_equal; rewrite ?insert_insert_eq; done.
Qed.

(** [fs'] differs from [fs] at most in the file at [p] (which may be
    created) and in modes; the fault sets are the same. *)
Definition touches (p : string) (fs fs' : Disk) : Prop :=
  same_faults fs fs' /\ (forall q, q <> p -> files fs' !! q = files fs !! q) /\
  dom (files fs) ⊆ dom (files fs').

Lemma touches_refl p fs : touches p fs fs.
Proof. done. Qed.

Lemma touches_trans p fs1 fs2 fs3 : touches p fs1 fs2 -> touches p fs2 fs3 -> touches p fs1 fs3.
Proof.
  intros (F1 & E1 & D1) (F2 & E2 & D2). split; [|split].
  - destruct F1 as (?&?&?&?), F2 as (?&?&?&?). split_and!; congruence.
  - intros q Hq. by rewrite E2, E1.
  - set_solver.
Qed.

Lemma touches_set_file p fs c : touches p fs (set_file fs p c).
Proof.
  split_and!; try done.
  - intros q Hq. simpl. by rewrite lookup_insert_ne.
  - simpl. rewrite dom_insert_L. set_solver.
Qed.

Lemma touches_set_mode p fs m : touches p fs (set_mode fs p m).
Proof. done. Qed.

(** Peel the [set_file]/[set_mode] calls off the final disk. *)
Ltac touches_solve :=
  repeat match goal with
  | |- touches ?p _ (set_file _ ?p _) => eapply touches_trans; [|apply touches_set_file]
  | |- touches ?p _ (set_mode _ ?p _) => eapply touches_trans; [|apply touches_set_mode]
  end; apply touches_refl.

Lemma processFile_touches force fn f fs fs' err :
  processFile input dir perms force fn f fs = (fs', err) -> touches (join dir fn) fs fs'.
Proof.
  unfold processFile, Create, Chmod. intros Hp.
  repeat case_match; simplify_eq; touches_solve.
Qed.

Lemma fileExists_touches p fs fs' q :
  touches p fs fs' -> fileExists fs q = true -> fileExists fs' q = true.
Proof.
  intros ((HS & _) & _ & Hd). rewrite !fileExists_spec, HS. set_solver.
Qed.

Lemma fileExists_touches_ne p fs fs' q :
  touches p fs fs' -> q <> p -> fileExists fs' q = fileExists fs q.
Proof.
  intros ((HS & _) & He & _) Hq. unfold fileExists, Stat. rewrite HS.
  assert (bool_decide (q ∈ dom (files fs')) = bool_decide (q ∈ dom (files fs))) as ->; [|done].
  apply bool_decide_ext. rewrite !elem_of_dom, He by done. done.
Qed.

(** After a successful step the target is there, or it was skipped as
    the module-variables file. *)

Lemma processFile_ok_present force fn f fs fs' :
  processFile input dir perms force fn f fs = (fs', None) ->
  skips_module_vars input fn = true \/ fileExists fs' (join dir fn) = true.
Proof.
  unfold processFile, Create, Chmod. intros Hp.
  destruct (skips_module_vars input fn); [by left|right].
  destruct (fileExists fs (join dir fn) && negb force) eqn:E.
  { simplify_eq. by apply andb_prop in E as [? _]. }
  repeat case_match; simplify_eq;
    apply fileExists_spec; left; simpl; rewrite ?dom_insert_L; set_solver.
Qed.

(** The renderer's chunks are all that is in the file when every write
    fails: nothing. *)
Definition fails_through (f : FileFunc) : Prop :=
  forall p, f (mkWriter p true []) input = (mkWriter p true [], Some (ErrWrite p)).

Lemma processFile_write_fails force fn f fs :
  skips_module_vars input fn = false ->
  (fileExists fs (join dir fn) && negb force) = false ->
  join dir fn ∉ create_fail fs -> join dir fn ∉ chmod_fail fs ->
  join dir fn ∈ write_fail fs -> fails_through f ->
  exists fs', processFile input dir perms force fn f fs = (fs', Some (ErrWrite (join dir fn))) /\
              files fs' !! join dir fn = Some [].
Proof.
  intros Hs He Hc Hm Hw Hf. unfold processFile. rewrite Hs, He.
  unfold Create, Chmod, open_writer. rewrite bool_decide_false by done.
  rewrite bool_decide_false by (by case_match).
  rewrite bool_decide_true by (by case_match). rewrite Hf.
  eexists. split; [done|]. simpl. by rewrite lookup_insert_eq.
Qed.
End OneFile.

(** ** The loop *)
Section Loop.
Context (input : RootModuleInputData) (dir : string) (perms : Z).

Definition path_of (e : string * FileFunc) : string := join dir e.1.

Definition present (fs : Disk) (e : string * FileFunc) : Prop :=
  skips_module_vars input e.1 = true \/ fileExists fs (path_of e) = true.

Lemma init_loop_touches force order fs fs' err :
  init_loop input dir perms force order fs = (fs', err) ->
  same_faults fs fs' /\ dom (files fs) ⊆ dom (files fs') /\
  (forall q, q ∉ map path_of order -> files fs' !! q = files fs !! q).
Proof.
  revert fs. induction order as [|[fn f] order IH]; intros fs Hrun; simpl in Hrun.
  - simplify_eq. split_and!; done.
  - destruct (processFile input dir perms force fn f fs) as [fs1 [e|]] eqn:Hp;
      pose proof (processFile_touches input dir perms force fn f fs fs1 _ Hp)
        as ((F1 & F2 & F3 & F4) & E1 & D1).
    + simplify_eq. split_and!; try done.
      intros q Hq. apply not_elem_of_cons in Hq as [Hq _]. by apply E1.
    + destruct (IH fs1 Hrun) as ((G1 & G2 & G3 & G4) & D2 & E2).
      split; [split_and!; congruence|split; [by etrans|]].
      intros q Hq. apply not_elem_of_cons in Hq as [Hq1 Hq2].
      rewrite E2 by done. by apply E1.
Qed.

Lemma init_loop_exists force order fs fs' err q :
  init_loop input dir perms force order fs = (fs', err) ->
  fileExists fs q = true -> fileExists fs' q = true.
Proof.
  intros Hrun. destruct (init_loop_touches force order fs fs' err Hrun) as ((HS & _) & Hd & _).
  rewrite !fileExists_spec, HS. set_solver.
Qed.

Lemma init_loop_present force order fs fs' :
  init_loop input dir perms force order fs = (fs', None) -> Forall (present fs') order.
Proof.
  revert fs. induction order as [|[fn f] order IH]; intros fs Hrun; simpl in Hrun; [done|].
  destruct (processFile input dir perms force fn f fs) as [fs1 [e|]] eqn:Hp; [done|].
  constructor; [|by apply (IH fs1)].
  destruct (processFile_ok_present input dir perms force fn f fs fs1 Hp) as [?|Hex];
    [by left|right].
  by apply (init_loop_exists force order fs1 fs' None).
Qed.

Lemma init_loop_skip_all order fs :
  Forall (present fs) order -> init_loop input dir perms false order fs = (fs, None).
Proof.
  induction order as [|[fn f] order IH]; intros Hall; simpl; [done|].
  apply Forall_cons in Hall as [Hp Hall].
  rewrite processFile_skip; [by apply IH|].
  destruct Hp as [?|?]; [by left|by right].
Qed.

(** What [join dir] puts before a plain file name. *)
Definition join_prefix : string :=
  if String.eqb dir "" then ""
  else (if is_rooted dir then "/" else "") +:+
       slashed (foldl (clean_step (is_rooted dir)) [] (split_on "/"%char dir)).

Lemma join_plain f : plain f -> join dir f = join_prefix +:+ f.
Proof.
  intros Hf. unfold join, join_prefix. destruct (String.eqb dir "") eqn:E.
  - rewrite string_eqb_neq by apply Hf. by rewrite Clean_plain_alone.
  - rewrite string_app_assoc. apply Clean_plain; [|done]. intros ->. discriminate.
Qed.

Lemma join_inj a b : plain a -> plain b -> join dir a = join dir b -> a = b.
Proof. intros Ha Hb. rewrite !join_plain by done. apply (inj (String.append _)). Qed.

Definition plain_names (order : list (string * FileFunc)) : Prop := Forall (fun e => plain e.1) order.

(** Files no entry writes, or whose entries are skipped, keep their
    content. *)
Lemma init_loop_keeps force order fs fs' err p :
  (forall e, e ∈ order -> path_of e = p ->
     skips_module_vars input e.1 = true \/ (fileExists fs p = true /\ force = false)) ->
  init_loop input dir perms force order fs = (fs', err) -> files fs' !! p = files fs !! p.
Proof.
  revert fs. induction order as [|[fn f] order IH]; intros fs Hskip Hrun; simpl in Hrun.
  { by simplify_eq. }
  destruct (decide (path_of (fn, f) = p)) as [Hp|Hp].
  - rewrite processFile_skip in Hrun.
    + apply (IH fs); [|done]. intros e He. apply Hskip. set_solver.
    + destruct (Hskip (fn, f)) as [?|[? ?]]; [set_solver|done|by left|right].
      rewrite <- Hp in *. by split.
  - destruct (processFile input dir perms force fn f fs) as [fs1 e] eqn:Hpf.
    pose proof (processFile_touches input dir perms force fn f fs fs1 e Hpf) as Ht.
    destruct Ht as (HS & He & Hd).
    assert (files fs1 !! p = files fs !! p) as Hfp.
    { apply He. intros Heq. apply Hp. by rewrite Heq. }
    destruct e as [e|]; [by simplify_eq|].
    rewrite <- Hfp. apply (IH fs1); [|done].
    intros e' He' Hpe'. destruct (Hskip e') as [?|[Hex Hf]]; [set_solver|done|by left|right].
    split; [|done]. eapply fileExists_touches; [|exact Hex]. by split.
Qed.

(** C8: Running again without [force] after a successful run changes
    nothing and reports no error. *)
Theorem InitRootModule_rerun_unchanged force order fs fs' :
  InitRootModule input dir perms force order fs = (fs', None) ->
  InitRootModule input dir perms false order fs' = (fs', None).
Proof. intros H. apply init_loop_skip_all. by apply (init_loop_present force order fs). Qed.

(** C9: Without [force], a file that exists (or whose [Stat] fails with an
    error other than "not found") is never changed. *)
Theorem InitRootModule_keeps_existing order fs fs' err p :
  fileExists fs p = true ->
  InitRootModule input dir perms false order fs = (fs', err) -> files fs' !! p = files fs !! p.
Proof.
  intros Hex. apply init_loop_keeps. intros e _ Hp. right. by split.
Qed.

Definition written (fs : Disk) (e : string * FileFunc) : Disk :=
  if skips_module_vars input e.1 then fs
  else put_file perms fs (path_of e) (content input e.2 (path_of e)).

Lemma init_loop_forced order fs :
  Forall (fun e => renders input e.2 /\ faults_free fs (path_of e)) order ->
  init_loop input dir perms true order fs = (foldl written fs order, None).
Proof.
  revert fs. induction order as [|[fn f] order IH]; intros fs Hall; simpl; [done|].
  apply Forall_cons in Hall as [[Hr Hff] Hall].
  unfold written at 2. simpl. destruct (skips_module_vars input fn) eqn:Hs.
  - rewrite processFile_skip by (by left). by apply IH.
  - rewrite processFile_write; [|done|by rewrite andb_false_r|done|done].
    by apply IH.
Qed.

Lemma foldl_written_keeps order fs p :
  p ∉ map path_of order -> files (foldl written fs order) !! p = files fs !! p.
Proof.
  revert fs. induction order as [|e order IH]; intros fs Hp; simpl; [done|].
  apply not_elem_of_cons in Hp as [Hp1 Hp2]. rewrite IH by done.
  unfold written. case_match; [done|]. simpl. by rewrite lookup_insert_ne.
Qed.

Lemma foldl_written_lookup order fs fn f :
  NoDup (map fst order) -> plain_names order -> (fn, f) ∈ order -> skips_module_vars input fn = false ->
  files (foldl written fs order) !! join dir fn = Some (content input f (join dir fn)).
Proof.
  revert fs. induction order as [|[fn' f'] order IH]; intros fs Hnd Hpl Hin Hs; simpl.
  { by apply elem_of_nil in Hin. }
  simpl in Hnd. apply NoDup_cons in Hnd as [Hfn Hnd]. apply Forall_cons in Hpl as [Hp1 Hpl].
  apply elem_of_cons in Hin as [[= -> ->]|Hin].
  - rewrite foldl_written_keeps.
    + unfold written. simpl. rewrite Hs. simpl. by rewrite lookup_insert_eq.
    + intros (e & He & Hein)%list_elem_of_fmap. apply Hfn.
      apply join_inj in He; [|done|by apply (proj1 (Forall_forall _ _) Hpl)].
      rewrite He. by apply list_elem_of_fmap_2.
  - by apply IH.
Qed.

(** With [force] and no failing file operation, every file the task
    needs holds exactly its rendering, whatever was there before. *)
Theorem InitRootModule_forced order fs :
  NoDup (map fst order) -> plain_names order ->
  Forall (fun e => renders input e.2 /\ faults_free fs (path_of e)) order ->
  exists fs', InitRootModule input dir perms true order fs = (fs', None) /\
    forall fn f, (fn, f) ∈ order -> skips_module_vars input fn = false ->
      files fs' !! join dir fn = Some (content input f (join dir fn)).
Proof.
  intros Hnd Hpl Hall. exists (foldl written fs order). split; [by apply init_loop_forced|].
  intros fn f Hin Hs. by apply foldl_written_lookup.
Qed.

(** *** Order independence

    Whether an entry writes is decided on the disk the run starts from:
    no entry writes a file another entry looks at. *)
Definition writes (fs0 : Disk) (force : bool) (e : string * FileFunc) : bool :=
  negb (skips_module_vars input e.1) && negb (fileExists fs0 (path_of e) && negb force).

Definition step (fs0 : Disk) (force : bool) (fs : Disk) (e : string * FileFunc) : Disk :=
  if writes fs0 force e then put_file perms fs (path_of e) (content input e.2 (path_of e)) else fs.

(** The entry's file operations succeed wherever it writes. *)
Definition step_ok (fs0 : Disk) (force : bool) (e : string * FileFunc) : Prop :=
  writes fs0 force e = true -> faults_free fs0 (path_of e).

(** What the loop carries from the starting disk to the current one. *)
Definition agrees (fs0 fs : Disk) (order : list (string * FileFunc)) : Prop :=
  same_faults fs0 fs /\ forall e, e ∈ order -> fileExists fs (path_of e) = fileExists fs0 (path_of e).

Lemma faults_free_same fs0 fs p : same_faults fs0 fs -> faults_free fs p <-> faults_free fs0 p.
Proof. intros (_ & Hc & Hm & Hw). unfold faults_free. by rewrite Hc, Hm, Hw. Qed.

Lemma processFile_fault force fn f fs :
  skips_module_vars input fn = false ->
  (fileExists fs (join dir fn) && negb force) = false ->
  ~ faults_free fs (join dir fn) -> fails_through input f ->
  exists fs' err, processFile input dir perms force fn f fs = (fs', Some err).
Proof.
  intros Hs He Hff Hf. unfold processFile, Create, Chmod, open_writer. rewrite Hs, He.
  set (p := join dir fn) in *. unfold faults_free in Hff.
  destruct (bool_decide (p ∈ dom (files fs))); simpl;
    (case_bool_decide; [by eauto|]); simpl; (case_bool_decide; [by eauto|]); simpl;
    (case_bool_decide; [rewrite Hf; by eauto|naive_solver]).
Qed.

(** After a step at [p], the disk still agrees with [fs0] on the other
    entries. *)
Lemma agrees_step fs0 fs fs' e order force err :
  NoDup (map path_of (e :: order)) -> agrees fs0 fs (e :: order) ->
  processFile input dir perms force e.1 e.2 fs = (fs', err) -> agrees fs0 fs' order.
Proof.
  intros Hnd [HS Hex] Hp. apply processFile_touches in Hp as Ht.
  destruct Ht as (HS' & Ht). split.
  - destruct HS as (?&?&?&?), HS' as (?&?&?&?). split_and!; congruence.
  - intros e' He'. rewrite <- (Hex e') by set_solver.
    eapply fileExists_touches_ne; [by split|]. simpl in Hnd.
    apply NoDup_cons in Hnd as [Hn _]. intros Heq. apply Hn.
    change (path_of e' = path_of e) in Heq. rewrite <- Heq.
    apply list_elem_of_In, in_map, list_elem_of_In, He'.
Qed.

Lemma init_loop_step_ok fs0 force order fs fs' :
  NoDup (map path_of order) -> Forall (fun e => fails_through input e.2) order ->
  agrees fs0 fs order ->
  init_loop input dir perms force order fs = (fs', None) -> Forall (step_ok fs0 force) order.
Proof.
  revert fs. induction order as [|[fn f] order IH]; intros fs Hnd Hft Hag Hrun; [done|].
  simpl in Hrun. apply Forall_cons in Hft as [Hf Hft].
  destruct (processFile input dir perms force fn f fs) as [fs1 [err|]] eqn:Hp; [done|].
  constructor; [|eapply IH; [by inversion Hnd|done|by eapply (agrees_step _ _ _ (fn, f))|done]].
  unfold step_ok, writes. simpl. intros [Hs He]%andb_prop. apply negb_true_iff in Hs, He.
  rewrite <- (proj2 Hag (fn, f)) in He by set_solver.
  destruct (decide (faults_free fs0 (path_of (fn, f)))) as [|Hff]; [done|].
  rewrite <- (faults_free_same _ fs) in Hff by apply Hag.
  destruct (processFile_fault force fn f fs Hs He Hff Hf) as (? & ? & ?). congruence.
Qed.

Lemma agrees_refl fs order : agrees fs fs order.
Proof. split; [split_and!|]; done. Qed.

Lemma writes_true fs0 fs force e :
  fileExists fs (path_of e) = fileExists fs0 (path_of e) -> writes fs0 force e = true ->
  skips_module_vars input e.1 = false /\ (fileExists fs (path_of e) && negb force) = false.
Proof.
  intros Hex [Hs He]%andb_prop. apply negb_true_iff in Hs, He. by rewrite Hex.
Qed.

Lemma writes_false fs0 fs force e :
  fileExists fs (path_of e) = fileExists fs0 (path_of e) -> writes fs0 force e = false ->
  skips_module_vars input e.1 = true \/ (fileExists fs (path_of e) = true /\ force = false).
Proof.
  intros Hex. unfold writes. rewrite Hex.
  destruct (skips_module_vars input e.1), (fileExists fs0 (path_of e)), force; naive_solver.
Qed.

(** A run whose every writing entry has working file operations
    succeeds, and is the fold of [step]. *)
Lemma init_loop_run fs0 force order fs :
  NoDup (map path_of order) -> Forall (fun e => renders input e.2) order ->
  Forall (step_ok fs0 force) order -> agrees fs0 fs order ->
  init_loop input dir perms force order fs = (foldl (step fs0 force) fs order, None).
Proof.
  revert fs. induction order as [|[fn f] order IH]; intros fs Hnd Hr Hok Hag; [done|].
  apply Forall_cons in Hr as [Hr1 Hr], Hok as [Hok1 Hok].
  assert (Hag' : agrees fs0 fs order)
    by (split; [apply Hag|intros e He; apply Hag; by right]).
  pose proof (proj2 Hag (fn, f) ltac:(by left)) as Hex.
  pose proof Hnd as Hnd'. simpl in Hnd'. apply NoDup_cons in Hnd' as [_ Hnd'].
  simpl. unfold step at 2. destruct (writes fs0 force (fn, f)) eqn:Hw.
  - destruct (writes_true fs0 fs force (fn, f) Hex Hw) as [Hs He].
    assert (Hff : faults_free fs (path_of (fn, f))) by (apply (faults_free_same fs0), Hok1, Hw; apply Hag).
    assert (Hp := processFile_write input dir perms force fn f fs Hs He Hff Hr1).
    rewrite Hp. apply IH; [done..|]. by apply (agrees_step fs0 fs _ (fn, f) order force None).
  - rewrite processFile_skip by exact (writes_false fs0 fs force (fn, f) Hex Hw). by apply IH.
Qed.

Lemma step_comm fs0 force fs x y :
  path_of x <> path_of y -> step fs0 force (step fs0 force fs x) y = step fs0 force (step fs0 force fs y) x.
Proof.
  intros Hne. unfold step. destruct (writes fs0 force x), (writes fs0 force y); try done.
  destruct fs. unfold put_file, set_file, set_mode. simpl.
  f_equal; apply insert_insert_ne; congruence.
Qed.

Lemma NoDup_path_of order : NoDup (map fst order) -> plain_names order -> NoDup (map path_of order).
Proof.
  induction order as [|e order IH]; intros Hnd Hpl; simpl; [constructor|].
  simpl in Hnd. apply NoDup_cons in Hnd as [Hn Hnd]. apply Forall_cons in Hpl as [He Hpl].
  constructor; [|by apply IH].
  intros (e' & Hj & Hin)%list_elem_of_In%in_map_iff. apply Hn.
  apply list_elem_of_In in Hin. unfold path_of in Hj.
  apply join_inj in Hj; [|by apply (proj1 (Forall_forall _ _) Hpl)|done].
  rewrite <- Hj. by apply list_elem_of_fmap_2.
Qed.

End Loop.

(** ** The four files of [rootFileFuncs] *)
Section RootFiles.
Context `{SortSlice} (input : RootModuleInputData) (dir : string) (perms : Z).

Lemma rootFileFuncs_NoDup : NoDup (map fst (rootFileFuncs (H := H))).
Proof. apply (bool_decide_unpack _). by vm_compute. Qed.

Lemma rootFileFuncs_render : Forall (fun e => renders input e.2) (rootFileFuncs (H := H)).
Proof. repeat constructor; intros p; reflexivity. Qed.

Lemma rootFileFuncs_fail : Forall (fun e => fails_through input e.2) (rootFileFuncs (H := H)).
Proof. repeat constructor; intros p; reflexivity. Qed.

Lemma rootFileFuncs_plain : plain_names (rootFileFuncs (H := H)).
Proof. repeat constructor; apply (bool_decide_unpack _); by vm_compute. Qed.

Lemma order_facts order :
  order ≡ₚ rootFileFuncs ->
  NoDup (map fst order) /\ Forall (fun e => renders input e.2) order /\ plain_names order.
Proof.
  intros Hp. split_and!.
  - eapply NoDup_map_perm; [symmetry; exact Hp|]. apply rootFileFuncs_NoDup.
  - rewrite Hp. apply rootFileFuncs_render.
  - unfold plain_names. rewrite Hp. apply rootFileFuncs_plain.
Qed.

Lemma forced_content order fs fn f :
  order ≡ₚ rootFileFuncs -> (fn, f) ∈ rootFileFuncs ->
  Forall (fun e => faults_free fs (join dir e.1)) rootFileFuncs ->
  skips_module_vars input fn = false ->
  exists fs', InitRootModule input dir perms true order fs = (fs', None) /\
    files fs' !! join dir fn = Some (content input f (join dir fn)).
Proof.
  intros Hp Hin Hff Hs. destruct (order_facts order Hp) as (Hnd & Hr & Hpl).
  destruct (InitRootModule_forced input dir perms order fs Hnd Hpl) as (fs' & Hrun & Hfiles).
  - apply Forall_and; split; [done|]. by rewrite Hp.
  - exists fs'. split; [done|]. apply Hfiles; [|done]. by rewrite Hp.
Qed.

(** C2: Forced overwrite: whatever [main.tf] held, a forced run in any
    iteration order with working file operations leaves it holding the
    preamble and the canonical rendering. *)
Theorem forced_restores_main_tf order fs :
  order ≡ₚ rootFileFuncs ->
  Forall (fun e => faults_free fs (join dir e.1)) rootFileFuncs ->
  exists fs', InitRootModule input dir perms true order fs = (fs', None) /\
    files fs' !! join dir RootFilename = Some [Raw RootPreamble; Hcl (main_body input)].
Proof.
  intros Hp Hff. by apply (forced_content order fs RootFilename NewMainTF); [|set_solver|..].
Qed.

(** C14: [variables.module.tf]: with no variables no run touches it, forced
    or not; with variables a forced run writes it. *)
Theorem module_vars_file_presence :
  (Variables input = [] -> forall force order fs fs' err, order ≡ₚ rootFileFuncs ->
     InitRootModule input dir perms force order fs = (fs', err) ->
     files fs' !! join dir ModuleVarsFilename = files fs !! join dir ModuleVarsFilename) /\
  (Variables input <> [] -> forall order fs,
     order ≡ₚ rootFileFuncs ->
     Forall (fun e => faults_free fs (join dir e.1)) rootFileFuncs ->
     exists fs', InitRootModule input dir perms true order fs = (fs', None) /\
       files fs' !! join dir ModuleVarsFilename =
         Some [Raw RootPreamble; Hcl (module_variables_body input)]).
Proof.
  split.
  - intros Hv force order fs fs' err Hp. apply init_loop_keeps.
    intros [fn f] Hin Hpath. left.
    destruct (order_facts order Hp) as (_ & _ & Hpl).
    apply join_inj in Hpath; [|by apply (proj1 (Forall_forall _ _) Hpl (fn, f))|by vm_compute].
    simpl in *. subst fn. unfold skips_module_vars. by rewrite Hv.
  - intros Hv order fs Hp Hff. apply (forced_content order fs ModuleVarsFilename NewModuleVariablesTF);
      try done.
    + set_solver.
    + unfold skips_module_vars. rewrite String.eqb_refl. simpl.
      destruct (Variables input); [done|]. done.
Qed.

(** C13: A write that fails on [main.tf] leaves the file created and empty;
    every later run without [force] keeps it empty: the code never
    detects a partial file. *)
Theorem failed_write_leaves_empty_main_tf force fs :
  let p := join dir RootFilename in
  (fileExists fs p && negb force) = false ->
  p ∉ create_fail fs -> p ∉ chmod_fail fs -> p ∈ write_fail fs ->
  exists fs1, processFile input dir perms force RootFilename NewMainTF fs = (fs1, Some (ErrWrite p)) /\
    files fs1 !! p = Some [] /\
    forall order fs2 fs2' err, files fs2 !! p = Some [] ->
      InitRootModule input dir perms false order fs2 = (fs2', err) -> files fs2' !! p = Some [].
Proof.
  intros p He Hc Hm Hw.
  destruct (processFile_write_fails input dir perms force RootFilename NewMainTF fs
              eq_refl He Hc Hm Hw (fun q => eq_refl)) as (fs1 & Hrun & Hfile).
  exists fs1. split_and!; [done|done|].
  intros order fs2 fs2' err Hp2 Hrun2.
  rewrite (init_loop_keeps input dir perms false order fs2 fs2' err p); [done| |done].
  intros e _ _. right. split; [|done]. apply fileExists_spec. left. by apply elem_of_dom.
Qed.
(** C3: The iteration order of [rootFileFuncs] does not matter for a run
    that succeeds: any other order succeeds too and leaves the same
    disk. *)
Theorem InitRootModule_order_independent force order1 order2 fs fs' :
  order1 ≡ₚ rootFileFuncs -> order2 ≡ₚ rootFileFuncs ->
  InitRootModule input dir perms force order1 fs = (fs', None) ->
  InitRootModule input dir perms force order2 fs = (fs', None).
Proof.
  intros Hp1 Hp2 Hrun.
  destruct (order_facts order1 Hp1) as (Hnd1 & Hr1 & Hpl1), (order_facts order2 Hp2) as (Hnd2 & Hr2 & Hpl2).
  assert (Hft1 : Forall (fun e => fails_through input e.2) order1)
    by (rewrite Hp1; apply rootFileFuncs_fail).
  pose proof (init_loop_step_ok input dir perms fs force order1 fs fs'
                (NoDup_path_of dir order1 Hnd1 Hpl1) Hft1 (agrees_refl dir fs order1) Hrun) as Hok1.
  assert (Hok2 : Forall (step_ok input dir fs force) order2) by (rewrite Hp2, <- Hp1; done).
  unfold InitRootModule in *.
  rewrite (init_loop_run input dir perms fs force order1 fs) in Hrun
    by first [by apply NoDup_path_of | apply agrees_refl | done].
  rewrite (init_loop_run input dir perms fs force order2 fs)
    by first [by apply NoDup_path_of | apply agrees_refl | done].
  simplify_eq. f_equal. apply (foldl_perm_comm (path_of dir)).
  - intros acc x y. apply step_comm.
  - by apply NoDup_path_of.
  - by rewrite Hp2, Hp1.
Qed.
End RootFiles.

(** ** The theorems above at concrete inputs *)
Module Witnesses.
#[local] Existing Instance insertion_sort.

Definition inp : RootModuleInputData := Scenario.input [Scenario.svc_db].
Definition empty_disk : Disk := mkDisk ∅ ∅ ∅ ∅ ∅ ∅.
Definition custom_disk : Disk :=
  mkDisk {[ "mod/main.tf" := [Raw "custom"] ]} {[ "mod/main.tf" := 384%Z ]} ∅ ∅ ∅ ∅.
Definition failing_disk : Disk := mkDisk ∅ ∅ ∅ ∅ ∅ {[ "mod/main.tf" ]}.

Lemma InitRootModule_order_independent_witness :
  InitRootModule inp "mod" 420 false (reverse rootFileFuncs) empty_disk =
    (fst (InitRootModule inp "mod" 420 false rootFileFuncs empty_disk), None).
Proof.
  apply (InitRootModule_order_independent inp "mod" 420 false rootFileFuncs);
    [reflexivity|apply reverse_Permutation|vm_compute; reflexivity].
Defined.

Lemma forced_restores_main_tf_witness :
  exists fs', InitRootModule inp "mod" 420 true rootFileFuncs custom_disk = (fs', None) /\
    files fs' !! join "mod" RootFilename = Some [Raw RootPreamble; Hcl (main_body inp)].
Proof.
  apply forced_restores_main_tf; [reflexivity|].
  repeat constructor; unfold faults_free; simpl; set_solver.
Defined.

Lemma InitRootModule_rerun_unchanged_witness :
  let fs1 := fst (InitRootModule inp "mod" 420 true rootFileFuncs empty_disk) in
  InitRootModule inp "mod" 420 false rootFileFuncs fs1 = (fs1, None).
Proof.
  apply (InitRootModule_rerun_unchanged inp "mod" 420 true rootFileFuncs empty_disk).
  vm_compute. reflexivity.
Defined.

Lemma InitRootModule_keeps_existing_witness :
  files (fst (InitRootModule inp "mod" 420 false rootFileFuncs custom_disk)) !! "mod/main.tf" =
    files custom_disk !! "mod/main.tf".
Proof.
  apply (InitRootModule_keeps_existing inp "mod" 420 rootFileFuncs custom_disk _
           (snd (InitRootModule inp "mod" 420 false rootFileFuncs custom_disk)));
    [vm_compute; reflexivity|apply surjective_pairing].
Defined.

Lemma failed_write_leaves_empty_main_tf_witness :
  exists fs1, processFile inp "mod" 420 false RootFilename NewMainTF failing_disk =
                (fs1, Some (ErrWrite (join "mod" RootFilename))) /\
    files fs1 !! join "mod" RootFilename = Some [] /\
    forall order fs2 fs2' err, files fs2 !! join "mod" RootFilename = Some [] ->
      InitRootModule inp "mod" 420 false order fs2 = (fs2', err) ->
      files fs2' !! join "mod" RootFilename = Some [].
Proof.
  apply (failed_write_leaves_empty_main_tf inp "mod" 420 false failing_disk);
    [vm_compute; reflexivity|set_solver..].
Defined.
End Witnesses.
