(* ===== verification/Pipeline.v ===== *)
(** * The synthesis pipeline: [Init], the renderers and [InitRootModule]

    The task scheduler builds a [RootModuleInputData] from the operator's
    configuration and from Consul's catalog, in whatever order those
    deliver providers, services and variables, normalises it with
    [RootModuleInputData.Init] ([root.go] lines 107-129) and hands it to
    [InitRootModule] (lines 131-181), which runs the four renderers of
    [rootFileFuncs] on it.  This file composes the three.

    [same_input d1 d2] says that two inputs hold the same backend, task,
    providers, provider information, variables and services, each list in
    any order, with distinct names.  The theorem: the whole synthesis
    returns the same disk and the same error for both, on every starting
    disk, for every iteration order of [rootFileFuncs], forced or not.
    This is the spec's "byte-identical output for identical logical input
    regardless of construction order", for all four files; the names must
    be distinct because [sort.Slice] is not stable ([RootModule]'s
    [services_order_leaks] shows the order leaking otherwise). *)

From stdpp Require Import gmap.
From S2P Require Import Prelude GoSort Hcl RootModule Synthesize.

Section Pipeline.
Context `{SortSlice}.

(** The same logical input, constructed in two orders. *)
Record same_input (d1 d2 : RootModuleInputData) : Prop := {
  same_Backend : Backend d1 = Backend d2;
  same_backend : backend d1 = backend d2;
  same_Task : Task d1 = Task d2;
  same_Providers : Providers d1 ≡ₚ Providers d2;
  same_Providers_names : NoDup (map nb_Name (map newNamedBlock (Providers d1)));
  same_ProviderInfo : ProviderInfo d1 ≡ₚ ProviderInfo d2;
  same_ProviderInfo_wf : gomap_wf (ProviderInfo d1);
  same_Variables : Variables d1 ≡ₚ Variables d2;
  same_Variables_wf : gomap_wf (Variables d1);
  same_Services : Services d1 ≡ₚ Services d2;
  same_Services_names : NoDup (map Service.Name (Services d1))
}.

(** *** What [Init] leaves of the input *)

Lemma Init_Variables d : Variables (Init d) = Variables d.
Proof. unfold Init. by destruct (Backend d). Qed.


Section Same.
Context (d1 d2 : RootModuleInputData) (Hs : same_input d1 d2).

Lemma same_providers : providers (Init d1) = providers (Init d2).
Proof. apply Init_providers_deterministic; apply Hs. Qed.

Lemma same_services : services (Init d1) = services (Init d2).
Proof. apply Init_services_deterministic; apply Hs. Qed.

Lemma same_Keys : Keys (Variables (Init d1)) = Keys (Variables (Init d2)).
Proof. rewrite !Init_Variables. apply sort_keys_perm; apply Hs. Qed.

Lemma same_main_body : main_body (Init d1) = main_body (Init d2).
Proof. apply main_tf_deterministic; apply Hs. Qed.

(** Each of the four renderers writes the same chunks for both. *)
Lemma same_renderers e w :
  e ∈ rootFileFuncs -> e.2 w (Init d1) = e.2 w (Init d2).
Proof.
  intros Hin. repeat (apply elem_of_cons in Hin as [->|Hin]); [..|by apply elem_of_nil in Hin];
    cbn [snd].
  - unfold NewMainTF. by rewrite same_main_body.
  - unfold NewVariablesTF, variables_body. by rewrite same_providers.
  - unfold NewModuleVariablesTF, module_variables_body. by rewrite same_Keys.
  - unfold NewTFVarsTmpl, tfvars_body. by rewrite same_services.
Qed.

Lemma same_skips fn : skips_module_vars (Init d1) fn = skips_module_vars (Init d2) fn.
Proof.
  unfold skips_module_vars. rewrite !Init_Variables.
  by rewrite (Permutation_length (same_Variables _ _ Hs)).
Qed.

End Same.

(** One iteration, then the loop, only see the input through the
    renderer it runs and the skip condition. *)
Lemma processFile_input i1 i2 dir perms force fn f fs :
  (forall w, f w i1 = f w i2) -> skips_module_vars i1 fn = skips_module_vars i2 fn ->
  processFile i1 dir perms force fn f fs = processFile i2 dir perms force fn f fs.
Proof.
  intros Hf Hskip. unfold processFile. rewrite Hskip.
  destruct (skips_module_vars i2 fn); [done|]. case_match; [done|].
  destruct (Create fs _) as [|fs1]; [done|]. destruct (Chmod fs1 _ _) as [|fs2]; [done|].
  by rewrite Hf.
Qed.

Lemma init_loop_input i1 i2 dir perms force order fs :
  Forall (fun e => (forall w, e.2 w i1 = e.2 w i2) /\
                   skips_module_vars i1 e.1 = skips_module_vars i2 e.1) order ->
  init_loop i1 dir perms force order fs = init_loop i2 dir perms force order fs.
Proof.
  intros Hall. revert fs. induction Hall as [|[fn f] order [Hf Hskip] _ IH]; intros fs; [done|].
  cbn [init_loop]. rewrite (processFile_input i1 i2 dir perms force fn f fs Hf Hskip).
  destruct (processFile i2 dir perms force fn f fs) as [fs' [e|]]; [done|apply IH].
Qed.

(** C1: Deterministic synthesis.  Two inputs holding the same providers,
    provider information, variables and services, constructed in any
    order (names distinct), give the same result of [InitRootModule]
    after [Init]: the same disk (all four files, byte for byte) and the
    same error, whatever the starting disk, the iteration order of
    [rootFileFuncs] and [force]. *)
Theorem InitRootModule_deterministic d1 d2 dir perms force order fs :
  same_input d1 d2 -> order ≡ₚ rootFileFuncs ->
  InitRootModule (Init d1) dir perms force order fs =
    InitRootModule (Init d2) dir perms force order fs.
Proof.
  intros Hs Hp. apply init_loop_input. apply Forall_forall. intros e He.
  rewrite Hp in He. split; [intros w; by apply same_renderers|apply same_skips, Hs].
Qed.

End Pipeline.

Module Witnesses.
#[local] Existing Instance insertion_sort.

Definition prov_aws : gomap (gomap GoValue) := [("aws", [("region", GoString "us-east-1")])].
Definition prov_local : gomap (gomap GoValue) := [("local", [])].
Definition svc_api : Service.t := Service.mk "" "" "api" "" "".
Definition svc_web : Service.t := Service.mk "dc1" "" "web" "" "v1".
Definition vars : gomap GoValue := [("count", GoNumber 2); ("name", GoString "db")].

(** One task, its providers, services and variables delivered in two
    orders. *)
Definition input (ps : list (gomap (gomap GoValue))) (ss : list Service.t) (vs : gomap GoValue)
    : RootModuleInputData :=
  mkInput None ps [] ss (Task.mk "" "db_task" "./module" "") vs None [] [].

Definition empty_disk : Disk := mkDisk ∅ ∅ ∅ ∅ ∅ ∅.

Lemma InitRootModule_deterministic_witness :
  InitRootModule (Init (input [prov_aws; prov_local] [svc_web; svc_api] vars)) "mod" 420 false
    rootFileFuncs empty_disk =
  InitRootModule (Init (input [prov_local; prov_aws] [svc_api; svc_web] (reverse vars))) "mod" 420 false
    rootFileFuncs empty_disk.
Proof.
  apply InitRootModule_deterministic; [|reflexivity].
  constructor; cbn [Backend backend Task Providers ProviderInfo Variables Services input];
    first [ reflexivity | apply perm_swap | apply (bool_decide_unpack _); vm_compute; reflexivity
          | unfold gomap_wf, gomap_keys; apply (bool_decide_unpack _); vm_compute; reflexivity ].
Defined.
End Witnesses.
