(* ===== verification/FileMachine.v ===== *)
(** * The spec's state machine for one output file, and [InitRootModule]
      as a refinement of it

    Section 4.4 of the spec describes each output file as a small state
    machine: from "absent" or "exists" the synthesizer takes one of the
    actions skip (exists, no force, or the module-variables file of a task
    without variables), create (absent) or overwrite (exists, force), and
    the file ends up written or the call stops with an error; no other
    state is possible, and the first error aborts the call without
    touching the files after it.

    [file_step] is that machine over the disk of [Synthesize], [run] its
    use over a sequence of files, stopping at the first failure.  The
    action is chosen from the disk the step starts from.  The main theorem,
    [init_loop_refines], shows that every run of the code's loop is a run
    of the machine; the corollaries read the machine's guarantees back
    onto the code. *)

From stdpp Require Import gmap.
From S2P Require Import Prelude GoSort Hcl RootModule Synthesize.

Inductive action := Skip | CreateFile | Overwrite.

#[export] Instance action_eq_dec : EqDecision action.
Proof. solve_decision. Defined.

Inductive outcome :=
| Skipped
| WrittenOut
| Failed (err : go_error).

Section Machine.
Context (input : RootModuleInputData) (dir : string) (perms : Z).

(** The spec's choice of action for a file, from whether it exists. *)
Definition spec_action (force present skipvars : bool) : action :=
  if skipvars then Skip
  else if present then (if force then Overwrite else Skip)
  else CreateFile.

Definition action_of (force : bool) (fs : Disk) (e : string * FileFunc) : action :=
  spec_action force (fileExists fs (path_of dir e)) (skips_module_vars input e.1).

(** The errors a file operation can report on path [p]: the create, the
    permission change, or a write. *)
Definition io_error (p : string) (err : go_error) : Prop :=
  err = ErrCreate p \/ err = ErrChmod p \/ err = ErrWrite p.

(** One file: skipped with the disk unchanged, written with exactly its
    rendering and the requested mode, or failed with an I/O error on its
    own path having touched nothing else. *)
Inductive file_step (force : bool) (fs : Disk) (e : string * FileFunc) : Disk -> outcome -> Prop :=
| fstep_skip :
    action_of force fs e = Skip -> file_step force fs e fs Skipped
| fstep_write :
    action_of force fs e <> Skip ->
    file_step force fs e (put_file perms fs (path_of dir e) (content input e.2 (path_of dir e))) WrittenOut
| fstep_fail fs' err :
    action_of force fs e <> Skip -> io_error (path_of dir e) err -> touches (path_of dir e) fs fs' ->
    file_step force fs e fs' (Failed err).

(** The files in order; the first failure ends the run with its error. *)
Inductive run (force : bool) : Disk -> list (string * FileFunc) -> Disk -> option go_error -> Prop :=
| run_nil fs : run force fs [] fs None
| run_skip fs e es fs' err :
    file_step force fs e fs Skipped -> run force fs es fs' err -> run force fs (e :: es) fs' err
| run_write fs e es fs1 fs' err :
    file_step force fs e fs1 WrittenOut -> run force fs1 es fs' err -> run force fs (e :: es) fs' err
| run_fail fs e es fs1 err :
    file_step force fs e fs1 (Failed err) -> run force fs (e :: es) fs1 (Some err).

(** ** The code's loop body takes one step of the machine *)

Lemma action_of_skip force fs fn f :
  action_of force fs (fn, f) = Skip <->
  skips_module_vars input fn = true \/ (fileExists fs (join dir fn) = true /\ force = false).
Proof.
  unfold action_of, spec_action, path_of. simpl.
  destruct (skips_module_vars input fn), (fileExists fs (join dir fn)), force; naive_solver.
Qed.

Lemma processFile_failure force fn f fs :
  skips_module_vars input fn = false ->
  (fileExists fs (join dir fn) && negb force) = false ->
  ~ faults_free fs (join dir fn) -> fails_through input f ->
  exists fs' err, processFile input dir perms force fn f fs = (fs', Some err) /\
    io_error (join dir fn) err.
Proof.
  intros Hs He Hff Hf. unfold processFile, Create, Chmod, open_writer, io_error. rewrite Hs, He.
  set (p := join dir fn) in *. unfold faults_free in Hff.
  destruct (bool_decide (p ∈ dom (files fs))); simpl;
    (case_bool_decide; [by eauto 10|]); simpl; (case_bool_decide; [by eauto 10|]); simpl;
    (case_bool_decide; [rewrite Hf; by eauto 10|naive_solver]).
Qed.

Lemma action_not_skip force fs fn f :
  action_of force fs (fn, f) <> Skip ->
  skips_module_vars input fn = false /\ (fileExists fs (join dir fn) && negb force) = false.
Proof.
  rewrite action_of_skip. destruct (skips_module_vars input fn); [naive_solver|].
  intros Hns. split; [done|]. destruct (fileExists fs (join dir fn)), force; naive_solver.
Qed.

Lemma processFile_step force fn f fs fs' r :
  renders input f -> fails_through input f ->
  processFile input dir perms force fn f fs = (fs', r) ->
  exists o, file_step force fs (fn, f) fs' o /\
    match o with Failed err => r = Some err | _ => r = None end.
Proof.
  intros Hr Hf Hp.
  destruct (decide (action_of force fs (fn, f) = Skip)) as [Ha|Hns].
  { rewrite processFile_skip in Hp by (by apply action_of_skip in Ha). injection Hp as <- <-.
    exists Skipped. split; [by constructor|done]. }
  destruct (action_not_skip force fs fn f Hns) as [Hs He].
  destruct (decide (faults_free fs (join dir fn))) as [Hff|Hff].
  - rewrite processFile_write in Hp by done. injection Hp as <- <-.
    exists WrittenOut. split; [by constructor|done].
  - destruct (processFile_failure force fn f fs Hs He Hff Hf) as (fs1 & err & Hp' & Herr).
    rewrite Hp' in Hp. injection Hp as <- <-.
    exists (Failed err). split; [|done].
    constructor; [done|done|]. by apply (processFile_touches input dir perms force fn f fs _ (Some err)).
Qed.

(** ** The loop runs the machine *)

Lemma init_loop_run_machine force order fs fs' err :
  Forall (fun e => renders input e.2 /\ fails_through input e.2) order ->
  init_loop input dir perms force order fs = (fs', err) -> run force fs order fs' err.
Proof.
  revert fs. induction order as [|[fn f] order IH]; intros fs Hall Hrun; simpl in Hrun.
  { injection Hrun as <- <-. constructor. }
  apply Forall_cons in Hall as [[Hr Hf] Hall].
  destruct (processFile input dir perms force fn f fs) as [fs1 r] eqn:Hp.
  destruct (processFile_step force fn f fs fs1 r Hr Hf Hp) as ([| |e] & Hstep & Hres); subst r.
  - inversion Hstep; subst. eapply run_skip; [done|]. by apply IH.
  - eapply run_write; [done|]. by apply IH.
  - injection Hrun as <- <-. by eapply run_fail.
Qed.

(** ** What the machine guarantees *)

Lemma file_step_touches force fs e fs1 o :
  file_step force fs e fs1 o -> touches (path_of dir e) fs fs1.
Proof.
  destruct 1 as [| |fs' err _ _ Ht]; [apply touches_refl| |done].
  eapply touches_trans; [apply touches_set_file|apply touches_set_mode].
Qed.

Lemma touches_frame p fs fs1 q :
  touches p fs fs1 -> q <> p -> files fs1 !! q = files fs !! q /\ fileExists fs1 q = fileExists fs q.
Proof.
  intros Ht Hq. split; [by apply Ht|]. by eapply fileExists_touches_ne.
Qed.

(** A run changes nothing outside the paths of its files. *)
Lemma run_frame force fs es fs' err q :
  run force fs es fs' err -> q ∉ map (path_of dir) es ->
  files fs' !! q = files fs !! q /\ fileExists fs' q = fileExists fs q.
Proof.
  induction 1 as [|fs e es fs' err Hs Hr IH|fs e es fs1 fs' err Hs Hr IH|fs e es fs1 err Hs];
    intros Hq; simpl in Hq; apply not_elem_of_cons in Hq as [Hq1 Hq2] || idtac; try done.
  - by apply IH.
  - destruct (IH Hq2) as [IH1 IH2]. apply file_step_touches in Hs.
    destruct (touches_frame _ _ _ q Hs Hq1) as [T1 T2]. split; congruence.
  - apply file_step_touches in Hs. by apply (touches_frame _ _ _ q Hs Hq1).
Qed.

(** A failed run failed on one file, with an I/O error on its path, and
    left every path outside that file and the ones before it alone. *)
Lemma run_error_localised force fs es fs' err :
  run force fs es fs' (Some err) ->
  exists pre e post, es = pre ++ e :: post /\ io_error (path_of dir e) err /\
    forall q, q ∉ map (path_of dir) (pre ++ [e]) -> files fs' !! q = files fs !! q.
Proof.
  remember (Some err) as r eqn:Er.
  induction 1 as [|fs e es fs' r Hs Hr IH|fs e es fs1 fs' r Hs Hr IH|fs e es fs1 err' Hs];
    [discriminate| | |].
  - destruct (IH Er) as (pre & e' & post & -> & Hio & Hq).
    exists (e :: pre), e', post. split_and!; [done|done|]. intros q Hnot.
    apply Hq. intros Hin. apply Hnot. simpl. by right.
  - destruct (IH Er) as (pre & e' & post & -> & Hio & Hq).
    exists (e :: pre), e', post. split_and!; [done|done|]. intros q Hnot.
    simpl in Hnot. apply not_elem_of_cons in Hnot as [Hn1 Hn2].
    rewrite Hq by done. apply file_step_touches in Hs. by apply (touches_frame _ _ _ q Hs Hn1).
  - injection Er as ->. inversion Hs; subst. exists [], e, es. split_and!; [done|done|].
    intros q Hq. simpl in Hq. apply not_elem_of_cons in Hq as [Hq _].
    by apply (touches_frame _ _ _ q (file_step_touches _ _ _ _ _ Hs) Hq).
Qed.

Lemma action_of_frame force fs fs1 e :
  fileExists fs1 (path_of dir e) = fileExists fs (path_of dir e) ->
  action_of force fs1 e = action_of force fs e.
Proof. unfold action_of. by intros ->. Qed.

(** What the file of an entry holds after a successful run: its old
    content when the action is skip, its rendering otherwise. *)
Definition expected (force : bool) (fs : Disk) (e : string * FileFunc) : option (list Chunk) :=
  if decide (action_of force fs e = Skip) then files fs !! path_of dir e
  else Some (content input e.2 (path_of dir e)).

Lemma expected_frame force fs fs1 e :
  files fs1 !! path_of dir e = files fs !! path_of dir e ->
  fileExists fs1 (path_of dir e) = fileExists fs (path_of dir e) ->
  expected force fs1 e = expected force fs e.
Proof. intros Hf Hx. unfold expected. by rewrite (action_of_frame force fs fs1 e Hx), Hf. Qed.

Lemma path_in_map e es : e ∈ es -> path_of dir e ∈ map (path_of dir) es.
Proof. intros Hin. apply list_elem_of_In, in_map, list_elem_of_In, Hin. Qed.

(** A successful run leaves every file of the task exactly as the machine
    says, each action decided on the disk the run started from. *)
Lemma run_success force fs es fs' :
  run force fs es fs' None -> NoDup (map (path_of dir) es) ->
  forall e, e ∈ es -> files fs' !! path_of dir e = expected force fs e.
Proof.
  remember None as r eqn:Er.
  induction 1 as [|fs e es fs' r Hs Hr IH|fs e es fs1 fs' r Hs Hr IH|fs e es fs1 err Hs];
    intros Hnd e' He'; [by apply elem_of_nil in He'| | |discriminate].
  - simpl in Hnd. apply NoDup_cons in Hnd as [Hn Hnd].
    apply elem_of_cons in He' as [->|Hin]; [|by apply IH].
    inversion Hs as [Ha| |]; subst. unfold expected. rewrite decide_True by done.
    by eapply run_frame.
  - simpl in Hnd. apply NoDup_cons in Hnd as [Hn Hnd].
    pose proof (file_step_touches _ _ _ _ _ Hs) as Ht.
    apply elem_of_cons in He' as [->|Hin].
    + inversion Hs as [|Ha|]; subst. unfold expected. rewrite decide_False by done.
      rewrite (proj1 (run_frame force _ es fs' _ _ Hr Hn)). simpl. by rewrite lookup_insert_eq.
    + rewrite (IH Er Hnd e' Hin). apply expected_frame; apply (touches_frame _ _ _ _ Ht);
        intros Heq; apply Hn; rewrite <- Heq; by apply path_in_map.
Qed.

End Machine.

(** ** [InitRootModule] over its four files *)
Section RootFiles.
Context `{SortSlice} (input : RootModuleInputData) (dir : string) (perms : Z).

Lemma rootFileFuncs_entries order :
  order ≡ₚ rootFileFuncs ->
  Forall (fun e => renders input e.2 /\ fails_through input e.2) order /\ NoDup (map (path_of dir) order).
Proof.
  intros Hp. destruct (order_facts input order Hp) as (Hnd & Hr & Hpl). split.
  - apply Forall_and. split; [done|]. rewrite Hp. apply rootFileFuncs_fail.
  - by apply NoDup_path_of.
Qed.

(** C11: Refinement.  Every run of [InitRootModule], in any iteration
    order of its map, is a run of the spec's per-file machine: each file
    is skipped, created or overwritten as the machine chooses, and the
    first failure ends the run. *)
Theorem InitRootModule_refines force order fs fs' err :
  order ≡ₚ rootFileFuncs ->
  InitRootModule input dir perms force order fs = (fs', err) ->
  run input dir perms force fs order fs' err.
Proof.
  intros Hp. apply init_loop_run_machine. apply (rootFileFuncs_entries order Hp).
Qed.

(** C16: A failed run names an I/O error on the path of the file it
    stopped at, and every path other than that file's and the files
    before it is unchanged: no later file is touched and nothing is rolled
    back. *)
Theorem InitRootModule_error_localised force order fs fs' err :
  order ≡ₚ rootFileFuncs ->
  InitRootModule input dir perms force order fs = (fs', Some err) ->
  exists pre e post, order = pre ++ e :: post /\ io_error (path_of dir e) err /\
    forall q, q ∉ map (path_of dir) (pre ++ [e]) -> files fs' !! q = files fs !! q.
Proof.
  intros Hp Hrun. eapply run_error_localised, init_loop_run_machine; [|exact Hrun].
  apply (rootFileFuncs_entries order Hp).
Qed.

(** C15: A successful run leaves each of the four files exactly as the spec
    says, the action decided on the disk the run started from: the old
    content when it is skipped, the rendering when it is created or
    overwritten. *)
Theorem InitRootModule_success_spec force order fs fs' :
  order ≡ₚ rootFileFuncs ->
  InitRootModule input dir perms force order fs = (fs', None) ->
  forall e, e ∈ rootFileFuncs -> files fs' !! path_of dir e = expected input dir force fs e.
Proof.
  intros Hp Hrun e He. destruct (rootFileFuncs_entries order Hp) as [Hall Hnd].
  eapply run_success; [by eapply init_loop_run_machine|done|by rewrite Hp].
Qed.
End RootFiles.

(** ** The theorems above at concrete inputs *)
Module Witnesses.
#[local] Existing Instance insertion_sort.

Definition inp : RootModuleInputData := Scenario.input [Scenario.svc_db].
Definition empty_disk : Disk := mkDisk ∅ ∅ ∅ ∅ ∅ ∅.
(** Every write to [mod/main.tf] fails. *)
Definition failing_disk : Disk := mkDisk ∅ ∅ ∅ ∅ ∅ {[ "mod/main.tf" ]}.

Definition run_on (force : bool) (fs : Disk) : Disk * option go_error :=
  InitRootModule inp "mod" 420 force rootFileFuncs fs.

Lemma InitRootModule_refines_witness :
  run inp "mod" 420 false empty_disk rootFileFuncs (run_on false empty_disk).1 (run_on false empty_disk).2.
Proof. apply (InitRootModule_refines inp "mod" 420 false rootFileFuncs); [reflexivity|apply surjective_pairing]. Defined.

Lemma InitRootModule_error_localised_witness :
  exists pre e post, rootFileFuncs = pre ++ e :: post /\
    io_error (path_of "mod" e) (ErrWrite "mod/main.tf") /\
    forall q, q ∉ map (path_of "mod") (pre ++ [e]) ->
      files (run_on false failing_disk).1 !! q = files failing_disk !! q.
Proof.
  apply (InitRootModule_error_localised inp "mod" 420 false rootFileFuncs failing_disk); [reflexivity|].
  vm_compute. reflexivity.
Defined.

Lemma InitRootModule_success_spec_witness :
  files (run_on false empty_disk).1 !! path_of "mod" (RootFilename, NewMainTF) =
    Some [Raw RootPreamble; Hcl (main_body inp)].
Proof.
  rewrite (InitRootModule_success_spec inp "mod" 420 false rootFileFuncs empty_disk
             (run_on false empty_disk).1 (reflexivity _)); [vm_compute; reflexivity| |constructor].
  vm_compute. reflexivity.
Defined.
End Witnesses.
