(* ===== verification/Crash.v ===== *)
(** * Crash points of [InitRootModule] (lines 135-177 of [root.go])

    [processFile] of [Synthesize] takes one loop iteration as one function.
    The process performs it as a sequence of system calls: [os.Stat],
    [os.Create], [f.Chmod], then one [Write] per chunk the renderer emits,
    each reaching the file before the next begins.  This file splits the
    iteration at those points: [pstep] is one system call, [phase] says
    which comes next, and a crash is the disk of any intermediate state.

    The theorems: the machine finishes within [steps_needed] steps and
    ends where [processFile] ends (so the big-step model is the small-step
    one run to completion); every intermediate disk differs from the
    starting one only at the file being processed, which holds either its
    old content or a prefix of the rendering.  For the whole loop
    ([rstep]), every reachable state is a successful run over the entries
    already finished followed by some system calls of the next one
    ([loop_inv]), so a crash leaves the earlier files written, the later
    ones untouched and the current one old or partial. *)

From stdpp Require Import gmap.
From S2P Require Import Prelude GoSort Hcl RootModule Synthesize.

(** What the iteration does next. *)
Inductive phase :=
| AtStat
| AtCreate
| AtChmod
| Writing (pending : list Chunk) (err : option go_error)
| Finished (err : option go_error).

Definition finished (ph : phase) : bool :=
  match ph with Finished _ => true | _ => false end.

(** A [Write] that reaches the file: the chunk is appended to it. *)
Definition append_chunk (q : string) (fs : Disk) (c : Chunk) : Disk :=
  set_file fs q (default [] (files fs !! q) ++ [c]).

Section Steps.
Context (input : RootModuleInputData) (dir : string) (perms : Z).
Context (force : bool) (fn : string) (f : FileFunc).

(** One system call of the iteration for the entry [(fn, f)]. *)
Definition pstep (cfg : Disk * phase) : Disk * phase :=
  let '(fs, ph) := cfg in
  match ph with
  | AtStat =>
      if skips_module_vars input fn then (fs, Finished None)
      else if fileExists fs (join dir fn) && negb force then (fs, Finished None)
      else (fs, AtCreate)
  | AtCreate =>
      match Create fs (join dir fn) with
      | inl err => (fs, Finished (Some err))
      | inr fs1 => (fs1, AtChmod)
      end
  | AtChmod =>
      match Chmod fs (join dir fn) perms with
      | inl err => (fs, Finished (Some err))
      | inr fs2 =>
          let '(w, err) := f (open_writer fs2 (join dir fn)) input in
          (fs2, Writing (w_out w) err)
      end
  | Writing [] err => (fs, Finished err)
  | Writing (c :: cs) err => (append_chunk (join dir fn) fs c, Writing cs err)
  | Finished err => (fs, Finished err)
  end.

Fixpoint psteps (n : nat) (cfg : Disk * phase) : Disk * phase :=
  match n with 0 => cfg | S n => psteps n (pstep cfg) end.

(** The chunks the renderer emits on this disk.  The writer only depends
    on the write-fault set, which no step changes. *)
Definition chunks (fs : Disk) : list Chunk :=
  w_out (f (open_writer fs (join dir fn)) input).1.

(** Stat, Create, Chmod, one step per chunk, and the step that closes. *)
Definition steps_needed (fs : Disk) : nat := 4 + length (chunks fs).

End Steps.

(** ** Running the steps *)

Lemma set_file_id fs q c : files fs !! q = Some c -> set_file fs q c = fs.
Proof. destruct fs; unfold set_file; simpl. intros. by rewrite insert_id. Qed.

Lemma set_file_set_file fs q a b : set_file (set_file fs q a) q b = set_file fs q b.
Proof. destruct fs; unfold set_file; simpl. by rewrite insert_insert_eq. Qed.

(** Appending the chunks one [Write] at a time puts them after what the
    file held. *)
Lemma foldl_append_chunk q cs fs pre :
  files fs !! q = Some pre -> foldl (append_chunk q) fs cs = set_file fs q (pre ++ cs).
Proof.
  revert fs pre. induction cs as [|c cs IH]; intros fs pre Hq; simpl.
  { by rewrite app_nil_r, set_file_id. }
  rewrite (IH _ (pre ++ [c])).
  - unfold append_chunk. by rewrite set_file_set_file, <- (assoc_L (++)).
  - unfold append_chunk. simpl. by rewrite lookup_insert_eq, Hq.
Qed.

Lemma open_writer_set_file fs q c p : open_writer (set_file fs q c) p = open_writer fs p.
Proof. done. Qed.

Lemma open_writer_set_mode fs q m p : open_writer (set_mode fs q m) p = open_writer fs p.
Proof. done. Qed.

Lemma psteps_add input dir perms force fn f m n cfg :
  psteps input dir perms force fn f (m + n) cfg =
    psteps input dir perms force fn f n (psteps input dir perms force fn f m cfg).
Proof. revert cfg. induction m; intros cfg; simpl; auto. Qed.

Lemma psteps_Finished input dir perms force fn f n fs err :
  psteps input dir perms force fn f n (fs, Finished err) = (fs, Finished err).
Proof. induction n; simpl; auto. Qed.

Lemma open_writer_faults fs fs' q :
  write_fail fs' = write_fail fs -> open_writer fs' q = open_writer fs q.
Proof. unfold open_writer. by intros ->. Qed.

(** [os.Create] leaves an empty file; [Chmod] changes no content; neither
    changes the write faults. *)
Lemma Create_ok fs q fs1 :
  Create fs q = inr fs1 -> files fs1 !! q = Some [] /\ write_fail fs1 = write_fail fs.
Proof.
  unfold Create. case_bool_decide; [done|]. intros [= <-].
  split; [apply lookup_insert_eq|]. by case_bool_decide.
Qed.

Lemma Chmod_ok fs q m fs2 :
  Chmod fs q m = inr fs2 -> files fs2 = files fs /\ write_fail fs2 = write_fail fs.
Proof. unfold Chmod. case_bool_decide; [done|]. by intros [= <-]. Qed.

Lemma Create_touches fs q fs1 : Create fs q = inr fs1 -> touches q fs fs1.
Proof. unfold Create. case_bool_decide; [done|]. intros [= <-].
  case_bool_decide; [apply touches_set_file|].
  eapply touches_trans; [apply touches_set_mode|apply touches_set_file].
Qed.

Lemma Chmod_touches fs q m fs2 : Chmod fs q m = inr fs2 -> touches q fs fs2.
Proof. unfold Chmod. case_bool_decide; [done|]. intros [= <-]. apply touches_set_mode. Qed.

Lemma touches_write_fail q fs fs' : touches q fs fs' -> write_fail fs' = write_fail fs.
Proof. by intros ((_ & _ & _ & ?) & _). Qed.

Lemma same_faults_refl fs : same_faults fs fs.
Proof. by repeat split. Qed.

Lemma same_faults_trans fs1 fs2 fs3 :
  same_faults fs1 fs2 -> same_faults fs2 fs3 -> same_faults fs1 fs3.
Proof. intros (?&?&?&?) (?&?&?&?). split_and!; congruence. Qed.

#[export] Hint Rewrite open_writer_set_file open_writer_set_mode psteps_Finished : cts_rw.

Section Facts.
Context (input : RootModuleInputData) (dir : string) (perms : Z).
Context (force : bool) (fn : string) (f : FileFunc).

(** Reduce the steps of a run that has ended. *)
Local Ltac step_done :=
  repeat (cbn [Crash.pstep fst snd]; match goal with H : _ = _ |- _ => rewrite H; clear H end);
  cbn [Crash.pstep fst snd]; autorewrite with cts_rw.

Local Notation pstep := (pstep input dir perms force fn f).
Local Notation psteps := (psteps input dir perms force fn f).
Local Notation p := (join dir fn).

(** The writing phase takes one step per chunk and one to close. *)
Lemma psteps_Writing cs err fs k :
  psteps (S (length cs) + k) (fs, Writing cs err) = (foldl (append_chunk p) fs cs, Finished err).
Proof.
  revert fs. induction cs as [|c cs IH]; intros fs; simpl.
  - by rewrite psteps_Finished.
  - apply IH.
Qed.

(** [steps_needed] system calls run the iteration to its end. *)
Lemma psteps_run fs :
  psteps (steps_needed input dir fn f fs) (fs, AtStat) =
    ((processFile input dir perms force fn f fs).1,
     Finished (processFile input dir perms force fn f fs).2).
Proof.
  unfold steps_needed, chunks.
  replace (4 + _) with (S (S (S (S (length (w_out (f (open_writer fs p) input).1)) + 0))))
    by lia.
  cbn [Crash.psteps]. unfold processFile.
  destruct (skips_module_vars input fn) eqn:Hs; [by step_done|].
  destruct (fileExists fs p && negb force) eqn:He; [by step_done|].
  destruct (Create fs p) as [err|fs1] eqn:Hc; [by step_done|].
  destruct (Chmod fs1 p perms) as [err|fs2] eqn:Hm; [by step_done|].
  cbn [Crash.pstep]. rewrite Hs, He. cbn [Crash.pstep]. rewrite Hc.
  cbn [Crash.pstep]. rewrite Hm.
  apply Create_ok in Hc as [Hc1 Hc2]. apply Chmod_ok in Hm as [Hm1 Hm2].
  rewrite (open_writer_faults fs fs2) by congruence.
  destruct (f (open_writer fs p) input) as [w err]. cbn [fst snd].
  rewrite psteps_Writing, (foldl_append_chunk _ _ _ []); [done|].
  by rewrite Hm1.
Qed.

(** The iteration finishes within [steps_needed] system calls, and the
    disk and error it finishes with are those of [processFile]: the
    big-step model is the small-step one run to completion. *)
Theorem psteps_processFile fs n :
  steps_needed input dir fn f fs <= n ->
  psteps n (fs, AtStat) =
    ((processFile input dir perms force fn f fs).1,
     Finished (processFile input dir perms force fn f fs).2).
Proof.
  intros Hn. destruct (Nat.le_exists_sub _ _ Hn) as (k & -> & _).
  by rewrite Nat.add_comm, psteps_add, psteps_run, psteps_Finished.
Qed.

(** An iteration that has finished, after any number of calls, has
    finished as [processFile] does. *)
Lemma psteps_Finished_processFile k fs fs' r :
  psteps k (fs, AtStat) = (fs', Finished r) ->
  processFile input dir perms force fn f fs = (fs', r).
Proof.
  intros Hk.
  pose proof (psteps_add input dir perms force fn f k (steps_needed input dir fn f fs) (fs, AtStat)) as E.
  rewrite Hk, psteps_Finished, Nat.add_comm, psteps_add, psteps_run, psteps_Finished in E.
  destruct (processFile _ _ _ _ _ _ _). by simplify_eq.
Qed.

Lemma pstep_touches fs ph : touches p fs (pstep (fs, ph)).1.
Proof.
  destruct ph as [| | |[|c cs] err|err]; cbn [Crash.pstep fst].
  - repeat case_match; apply touches_refl.
  - destruct (Create fs p) eqn:Hc; [apply touches_refl|by apply Create_touches].
  - destruct (Chmod fs p perms) eqn:Hm; [apply touches_refl|].
    destruct (f _ input). by eapply Chmod_touches.
  - apply touches_refl.
  - apply touches_set_file.
  - apply touches_refl.
Qed.

(** What the disk holds at each phase of an iteration started on [fs0]:
    nothing but the target changes, and the target goes from its old
    content to empty to longer and longer prefixes of the rendering. *)
Definition crash_inv (fs0 : Disk) (cfg : Disk * phase) : Prop :=
  touches p fs0 cfg.1 /\
  match cfg.2 with
  | AtStat | AtCreate => cfg.1 = fs0
  | AtChmod => files cfg.1 !! p = Some []
  | Writing cs _ => exists pre, pre ++ cs = chunks input dir fn f fs0 /\ files cfg.1 !! p = Some pre
  | Finished _ => files cfg.1 !! p = files fs0 !! p \/
      exists pre, pre `prefix_of` chunks input dir fn f fs0 /\ files cfg.1 !! p = Some pre
  end.

Lemma crash_inv_step fs0 cfg : crash_inv fs0 cfg -> crash_inv fs0 (pstep cfg).
Proof.
  destruct cfg as [fs ph]. intros [Ht Hph].
  destruct ph as [| | |[|c cs] err|err]; cbn [Crash.pstep fst snd] in *.
  - subst fs. repeat case_match; split; cbn; auto.
  - subst fs. destruct (Create fs0 p) as [err|fs1] eqn:Hc; [split; cbn; auto|].
    split; [by apply Create_touches|by apply Create_ok in Hc as [? _]].
  - destruct (Chmod fs p perms) as [err|fs2] eqn:Hm.
    { split; [done|]. right. exists []. split; [apply prefix_nil|done]. }
    pose proof (Chmod_touches _ _ _ _ Hm) as Ht2. apply Chmod_ok in Hm as [Hm1 _].
    destruct (f (open_writer fs2 p) input) as [w err] eqn:Hw.
    split; [by eapply touches_trans|]. exists []. split; [|cbn; by rewrite Hm1].
    unfold chunks. rewrite <- (open_writer_faults fs0 fs2), Hw; [done|].
    eapply touches_write_fail, touches_trans; eauto.
  - destruct Hph as (pre & Hpre & Hf). split; [done|]. right.
    exists pre. rewrite app_nil_r in Hpre. subst pre. split; [done|done].
  - destruct Hph as (pre & Hpre & Hf). unfold append_chunk.
    split; [eapply touches_trans; [done|apply touches_set_file]|].
    exists (pre ++ [c]). rewrite <- (assoc_L (++)). split; [done|].
    cbn. by rewrite lookup_insert_eq, Hf.
  - by split.
Qed.

Lemma crash_inv_steps fs0 n cfg : crash_inv fs0 cfg -> crash_inv fs0 (psteps n cfg).
Proof. revert cfg. induction n; intros cfg H; simpl; [done|]. by apply IHn, crash_inv_step. Qed.

(** A crash at any point of an iteration leaves every other file as it
    was, and the target with its old content or a prefix of the chunks the
    renderer emits, never anything else. *)
Theorem crash_leaves_prefix fs n :
  let fs' := (psteps n (fs, AtStat)).1 in
  (forall q, q <> p -> files fs' !! q = files fs !! q) /\
  (files fs' !! p = files fs !! p \/
   exists pre, pre `prefix_of` chunks input dir fn f fs /\ files fs' !! p = Some pre).
Proof.
  destruct (crash_inv_steps fs n (fs, AtStat)) as [(_ & Hq & _) Hph];
    [split; [apply touches_refl|done]|].
  split; [done|].
  destruct (psteps n (fs, AtStat)) as [fs' [| | |cs err|err]]; cbn in *.
  - subst fs'. by left.
  - subst fs'. by left.
  - right. exists []. split; [apply prefix_nil|done].
  - destruct Hph as (pre & <- & Hf). right. exists pre. split; [by exists cs|done].
  - done.
Qed.

End Facts.

(** ** The whole loop, one system call at a time

    A state is the disk, the entries of [rootFileFuncs] not yet finished
    (the first one is in progress) and the phase of the first one.  When
    an iteration ends without error the loop moves to the next entry;
    when it ends with an error the function returns it and the state no
    longer moves. *)
Definition rstate : Type := Disk * list (string * FileFunc) * phase.

Section Loop.
Context (input : RootModuleInputData) (dir : string) (perms : Z) (force : bool).

Definition rstep (c : rstate) : rstate :=
  match c with
  | (fs, [], ph) => c
  | (fs, (fn, f) :: rest, ph) =>
      if finished ph then c else
      match pstep input dir perms force fn f (fs, ph) with
      | (fs', Finished None) => (fs', rest, AtStat)
      | (fs', ph') => (fs', (fn, f) :: rest, ph')
      end
  end.

Fixpoint rsteps (n : nat) (c : rstate) : rstate :=
  match n with 0 => c | S n => rsteps n (rstep c) end.

(** What [InitRootModule] has returned once the state is final. *)
Definition outcome_of (c : rstate) : option (Disk * option go_error) :=
  match c with
  | (fs, [], _) => Some (fs, None)
  | (fs, _ :: _, Finished err) => Some (fs, err)
  | _ => None
  end.

End Loop.

Lemma rsteps_add input dir perms force m n c :
  rsteps input dir perms force (m + n) c =
    rsteps input dir perms force n (rsteps input dir perms force m c).
Proof. revert c. induction m; intros c; simpl; auto. Qed.

Lemma rstep_final input dir perms force c :
  outcome_of c <> None -> rstep input dir perms force c = c.
Proof. destruct c as [[fs [|[fn f] rest]] [| | | |err]]; simpl; done. Qed.

Lemma rsteps_final input dir perms force n c :
  outcome_of c <> None -> rsteps input dir perms force n c = c.
Proof. intros H. induction n; simpl; [done|]. by rewrite rstep_final. Qed.

Section LoopFacts.
Context (input : RootModuleInputData) (dir : string) (perms : Z) (force : bool).

Local Notation rsteps := (rsteps input dir perms force).

(** The loop follows the iteration of its first entry until it ends. *)
Lemma rsteps_iteration fn f rest m fs ph fs' r :
  finished ph = false ->
  psteps input dir perms force fn f m (fs, ph) = (fs', Finished r) ->
  exists t, rsteps t (fs, (fn, f) :: rest, ph) =
    match r with None => (fs', rest, AtStat) | Some _ => (fs', (fn, f) :: rest, Finished r) end.
Proof.
  revert fs ph. induction m as [|m IH]; intros fs ph Hph Hm; cbn [Crash.psteps] in Hm.
  { by simplify_eq. }
  destruct (pstep input dir perms force fn f (fs, ph)) as [fs1 ph1] eqn:E.
  destruct (finished ph1) eqn:F.
  - destruct ph1 as [| | | |r1]; try done. rewrite psteps_Finished in Hm. simplify_eq.
    exists 1. cbn [Crash.rsteps Crash.rstep]. rewrite Hph, E. by destruct r.
  - destruct (IH _ _ F Hm) as [t Ht]. exists (S t). cbn [Crash.rsteps Crash.rstep]. rewrite Hph, E.
    by destruct ph1.
Qed.

Lemma rsteps_init_loop order fs :
  exists n, outcome_of (rsteps n (fs, order, AtStat)) = Some (init_loop input dir perms force order fs).
Proof.
  revert fs. induction order as [|[fn f] rest IH]; intros fs; [by exists 0|].
  cbn [init_loop]. destruct (processFile input dir perms force fn f fs) as [fs1 r] eqn:Hp.
  pose proof (psteps_run input dir perms force fn f fs) as Hs.
  rewrite Hp in Hs. cbn [fst snd] in Hs.
  destruct (rsteps_iteration fn f rest _ _ AtStat _ _ eq_refl Hs) as [t Ht].
  destruct r as [err|].
  - exists t. by rewrite Ht.
  - destruct (IH fs1) as [n Hn]. exists (t + n). by rewrite rsteps_add, Ht.
Qed.

(** No step changes which operations fail. *)
Lemma rsteps_same_faults n c : same_faults c.1.1 (rsteps n c).1.1.
Proof.
  revert c. induction n as [|n IH]; intros c; simpl; [apply same_faults_refl|].
  eapply same_faults_trans; [|apply IH].
  destruct c as [[fs [|[fn f] rest]] ph]; cbn [Crash.rstep]; [apply same_faults_refl|].
  destruct (finished ph); [apply same_faults_refl|].
  pose proof (pstep_touches input dir perms force fn f fs ph) as [Hs _].
  destruct (pstep input dir perms force fn f (fs, ph)) as [fs' [| | | |[e|]]]; exact Hs.
Qed.

(** Liveness: started on any disk, in any iteration order, the loop
    reaches a final state, stays in it, and has returned what
    [InitRootModule] returns. *)
Theorem InitRootModule_terminates order fs :
  exists n, forall m, n <= m ->
    outcome_of (rsteps m (fs, order, AtStat)) = Some (InitRootModule input dir perms force order fs).
Proof.
  destruct (rsteps_init_loop order fs) as [n Hn]. exists n. intros m Hm.
  replace m with (n + (m - n)) by lia. rewrite rsteps_add, rsteps_final; [done|by rewrite Hn].
Qed.

(** Running the loop over [pre ++ [e]] is running it over [pre], then
    the iteration for [e] if no error stopped it. *)
Lemma init_loop_snoc pre fn f fs :
  init_loop input dir perms force (pre ++ [(fn, f)]) fs =
    match init_loop input dir perms force pre fs with
    | (fs1, None) => processFile input dir perms force fn f fs1
    | r => r
    end.
Proof.
  revert fs. induction pre as [|[fn' f'] pre IH]; intros fs; cbn [init_loop app].
  - by destruct (processFile _ _ _ _ _ _ _) as [? [?|]].
  - destruct (processFile input dir perms force fn' f' fs) as [fs1 [e|]]; [done|apply IH].
Qed.

(** What a state of the loop is made of: a successful run over the
    entries already finished, then [k] system calls of the next one. *)
Definition loop_inv (fs0 : Disk) (order : list (string * FileFunc)) (c : rstate) : Prop :=
  let '(fs, rest, ph) := c in
  exists pre fs1, order = pre ++ rest /\
    init_loop input dir perms force pre fs0 = (fs1, None) /\
    match rest with
    | [] => fs = fs1
    | (fn, f) :: _ => exists k, psteps input dir perms force fn f k (fs1, AtStat) = (fs, ph)
    end.

Lemma loop_inv_start fs0 order : loop_inv fs0 order (fs0, order, AtStat).
Proof. exists [], fs0. split_and!; [done|done|]. destruct order as [|[fn f] ?]; [done|]. by exists 0. Qed.

Lemma loop_inv_step fs0 order c : loop_inv fs0 order c -> loop_inv fs0 order (rstep input dir perms force c).
Proof.
  destruct c as [[fs rest] ph]. intros (pre & fs1 & Ho & Hi & Hr).
  destruct rest as [|[fn f] rest]; [by exists pre, fs1|]. destruct Hr as [k Hk].
  cbn [Crash.rstep]. destruct (finished ph); [exists pre, fs1; eauto|].
  destruct (pstep input dir perms force fn f (fs, ph)) as [fs' ph'] eqn:E.
  assert (psteps input dir perms force fn f (k + 1) (fs1, AtStat) = (fs', ph')) as Hk'
    by (by rewrite psteps_add, Hk).
  destruct ph' as [| | | |[e|]]; try by exists pre, fs1; eauto.
  exists (pre ++ [(fn, f)]), fs'. split_and!.
  - by rewrite Ho, <- (assoc_L (++)).
  - rewrite init_loop_snoc, Hi. by eapply psteps_Finished_processFile.
  - destruct rest as [|[fn' f'] ?]; [done|]. by exists 0.
Qed.

Lemma loop_inv_steps fs0 order n c :
  loop_inv fs0 order c -> loop_inv fs0 order (rsteps n c).
Proof. revert c. induction n as [|n IH]; intros c Hc; [done|]. by apply IH, loop_inv_step. Qed.

(** C17: Crash states of the whole loop.  Interrupted after any number of
    system calls, in any iteration order, the disk is that of a
    successful run over the entries already finished ([pre]), which left
    every file outside their paths as it was, except that the target of
    the entry in progress may hold, instead, a prefix of the chunks its
    renderer emits: the files before the crash point are written, the
    later ones untouched, and the current one old, empty or partial. *)
Theorem loop_crash_state order fs n :
  let '(fs', rest, _) := rsteps n (fs, order, AtStat) in
  exists pre fs1, order = pre ++ rest /\
    InitRootModule input dir perms force pre fs = (fs1, None) /\
    (forall q, q ∉ map (path_of dir) pre -> files fs1 !! q = files fs !! q) /\
    forall q, files fs' !! q = files fs1 !! q \/
      exists fn f rest', rest = (fn, f) :: rest' /\ q = join dir fn /\
        exists c, c `prefix_of` chunks input dir fn f fs1 /\ files fs' !! q = Some c.
Proof.
  pose proof (loop_inv_steps fs order n _ (loop_inv_start fs order)) as Hinv.
  destruct (rsteps n (fs, order, AtStat)) as [[fs' rest] ph].
  destruct Hinv as (pre & fs1 & Ho & Hi & Hr). exists pre, fs1.
  split_and!; [done|done|by apply init_loop_touches in Hi as (_ & _ & ?)|].
  intros q. destruct rest as [|[fn f] rest']; [subst; by left|].
  destruct Hr as [k Hk].
  destruct (crash_leaves_prefix input dir perms force fn f fs1 k) as [Hother Hp].
  rewrite Hk in Hother, Hp. cbn [fst] in Hother, Hp.
  destruct (decide (q = join dir fn)) as [->|Hq]; [|left; by apply Hother].
  destruct Hp as [Hp|Hp]; [by left|right]. eauto 10.
Qed.

End LoopFacts.

Module Witnesses.
#[local] Existing Instance insertion_sort.

Definition inp : RootModuleInputData := Scenario.input [Scenario.svc_db].
Definition empty_disk : Disk := mkDisk ∅ ∅ ∅ ∅ ∅ ∅.

(** The iteration for [main.tf] on an empty disk, stopped after [n]
    system calls. *)
Definition main_after (n : nat) : Disk * phase :=
  psteps inp "mod" 420 false RootFilename NewMainTF n (empty_disk, AtStat).

(** [NewMainTF] writes two chunks: six calls finish the iteration. *)
Lemma psteps_processFile_witness :
  main_after 6 =
    ((processFile inp "mod" 420 false RootFilename NewMainTF empty_disk).1,
     Finished (processFile inp "mod" 420 false RootFilename NewMainTF empty_disk).2).
Proof. apply psteps_processFile. vm_compute. lia. Defined.

(** Interrupted after its fourth call, the first [Write], [main.tf]
    holds only the preamble, and a later run without force keeps it. *)
Example crash_partial_main_tf :
  files (main_after 4).1 !! "mod/main.tf" = Some [Raw RootPreamble] /\
  files (InitRootModule inp "mod" 420 false rootFileFuncs (main_after 4).1).1 !! "mod/main.tf" =
    Some [Raw RootPreamble].
Proof. split; vm_compute; reflexivity. Qed.

End Witnesses.
