(* ===== verification/Concurrency.v ===== *)
(** * Two synthesis runs interleaved on one disk

    Section 5 of the spec: [InitRootModule] is not safe to run
    concurrently on one task directory, but runs for different task
    directories may run in parallel.  The process's runs share nothing but
    the file system, and each run is the system-call machine of [Crash]
    ([rstep]: one [Stat], [Create], [Chmod] or [Write] per step).  A
    concurrent execution is therefore an interleaving of the two machines'
    steps on one disk, chosen by a schedule (a list of booleans: [true]
    steps the first run, [false] the second).

    Each step reads and writes the disk only at the path of the entry it
    is processing (its content and its mode) and reads the fault sets,
    which no step changes ([pstep_local], [pstep_only]).  Two runs whose
    paths are disjoint therefore commute step by step
    ([interleave_step_comm]), every interleaving is the first run's
    steps followed by the second's
    ([interleave_sequential]), and once each run has had enough steps the
    disk and both results are those of running [InitRootModule] for the
    first task and then for the second ([concurrent_InitRootModule]). *)

From stdpp Require Import gmap.
From S2P Require Import Prelude GoSort Hcl RootModule Synthesize Crash.

(** ** The part of a disk at one path *)

Definition at_path (fs : Disk) (p : string) : option (list Chunk) * option Z :=
  (files fs !! p, modes fs !! p).

(** [fs'] differs from [fs] at most at the paths [P]. *)
Definition only_at (P : list string) (fs fs' : Disk) : Prop :=
  same_faults fs fs' /\ forall q, q ∉ P -> at_path fs' q = at_path fs q.

(** [fs] and [fs'] agree at the paths [P] and on the faults. *)
Definition agree_on (P : list string) (fs fs' : Disk) : Prop :=
  same_faults fs fs' /\ forall q, q ∈ P -> at_path fs' q = at_path fs q.

(** Two results of a fallible disk operation that agree at [P]. *)
Definition sum_agree (P : list string) (r1 r2 : go_error + Disk) : Prop :=
  match r1, r2 with
  | inl e1, inl e2 => e1 = e2
  | inr fs1, inr fs2 => agree_on P fs1 fs2
  | _, _ => False
  end.

Lemma disk_ext fs fs' : same_faults fs fs' -> (forall q, at_path fs q = at_path fs' q) -> fs = fs'.
Proof.
  destruct fs as [f m s c h w], fs' as [f' m' s' c' h' w'].
  intros (Hs & Hc & Hh & Hw) Hq. cbn in *. subst.
  assert (f = f') as -> by (apply map_eq; intros q; by injection (Hq q)).
  assert (m = m') as -> by (apply map_eq; intros q; by injection (Hq q)).
  done.
Qed.

Lemma only_at_refl P fs : only_at P fs fs.
Proof. split; [apply same_faults_refl|done]. Qed.

Lemma only_at_trans P fs1 fs2 fs3 : only_at P fs1 fs2 -> only_at P fs2 fs3 -> only_at P fs1 fs3.
Proof.
  intros [F1 E1] [F2 E2]. split; [by eapply same_faults_trans|]. intros q Hq. by rewrite E2, E1.
Qed.

Lemma only_at_weaken P Q fs fs' : P ⊆ Q -> only_at P fs fs' -> only_at Q fs fs'.
Proof. intros HPQ [F E]. split; [done|]. intros q Hq. apply E. set_solver. Qed.

Lemma agree_on_refl P fs : agree_on P fs fs.
Proof. split; [apply same_faults_refl|done]. Qed.

Lemma agree_on_sym P fs1 fs2 : agree_on P fs1 fs2 -> agree_on P fs2 fs1.
Proof.
  intros [(?&?&?&?) E]. split; [split_and!; congruence|]. intros q Hq. by rewrite E.
Qed.

Lemma agree_on_weaken P Q fs fs' : Q ⊆ P -> agree_on P fs fs' -> agree_on Q fs fs'.
Proof. intros HQP [F E]. split; [done|]. intros q Hq. apply E. set_solver. Qed.

(** A disk that only changed at [p] agrees with the old one elsewhere. *)
Lemma only_at_agree p P fs fs' : p ∉ P -> only_at [p] fs fs' -> agree_on P fs fs'.
Proof. intros Hp [F E]. split; [done|]. intros q Hq. apply E. set_solver. Qed.

#[export] Hint Resolve only_at_refl agree_on_refl same_faults_refl : cts.

(** ** The primitive operations are local to their path *)

Lemma set_file_only fs p c : only_at [p] fs (set_file fs p c).
Proof.
  split; [done|]. intros q Hq. unfold at_path. cbn. rewrite lookup_insert_ne; set_solver.
Qed.

Lemma set_mode_only fs p m : only_at [p] fs (set_mode fs p m).
Proof.
  split; [done|]. intros q Hq. unfold at_path. cbn. rewrite lookup_insert_ne; set_solver.
Qed.

Lemma set_file_agree P fs1 fs2 p c :
  agree_on P fs1 fs2 -> agree_on P (set_file fs1 p c) (set_file fs2 p c).
Proof.
  intros [F E]. split; [done|]. intros q Hq. specialize (E q Hq). unfold at_path in *. cbn.
  destruct (decide (q = p)) as [->|Hne].
  - rewrite !lookup_insert_eq. by injection E as _ ->.
  - by rewrite !lookup_insert_ne.
Qed.

Lemma set_mode_agree P fs1 fs2 p m :
  agree_on P fs1 fs2 -> agree_on P (set_mode fs1 p m) (set_mode fs2 p m).
Proof.
  intros [F E]. split; [done|]. intros q Hq. specialize (E q Hq). unfold at_path in *. cbn.
  destruct (decide (q = p)) as [->|Hne].
  - rewrite !lookup_insert_eq. by injection E as -> _.
  - by rewrite !lookup_insert_ne.
Qed.

Lemma agree_on_files p P fs1 fs2 : p ∈ P -> agree_on P fs1 fs2 -> files fs2 !! p = files fs1 !! p.
Proof. intros Hp [_ E]. by injection (E p Hp). Qed.

Lemma agree_on_dom p P fs1 fs2 :
  p ∈ P -> agree_on P fs1 fs2 ->
  bool_decide (p ∈ dom (files fs1)) = bool_decide (p ∈ dom (files fs2)).
Proof.
  intros Hp Ha. apply bool_decide_ext. by rewrite !elem_of_dom, (agree_on_files p P fs1 fs2 Hp Ha).
Qed.

Lemma fileExists_agree p P fs1 fs2 :
  p ∈ P -> agree_on P fs1 fs2 -> fileExists fs1 p = fileExists fs2 p.
Proof.
  intros Hp Ha. unfold fileExists, Stat. rewrite (agree_on_dom p P fs1 fs2 Hp Ha).
  destruct Ha as [(Hs & _) _]. by rewrite Hs.
Qed.

Lemma Create_agree p P fs1 fs2 :
  p ∈ P -> agree_on P fs1 fs2 -> sum_agree P (Create fs1 p) (Create fs2 p).
Proof.
  intros Hp Ha. unfold Create. rewrite (agree_on_dom p P fs1 fs2 Hp Ha).
  pose proof Ha as [(_ & Hc & _) _]. rewrite Hc.
  case_bool_decide; [done|]. cbn [sum_agree].
  apply set_file_agree. case_bool_decide; [done|by apply set_mode_agree].
Qed.

Lemma Create_only p fs fs' : Create fs p = inr fs' -> only_at [p] fs fs'.
Proof.
  unfold Create. case_bool_decide; [done|]. intros [= <-].
  case_bool_decide; [apply set_file_only|].
  eapply only_at_trans; [apply set_mode_only|apply set_file_only].
Qed.

Lemma Chmod_agree p P fs1 fs2 m :
  agree_on P fs1 fs2 -> sum_agree P (Chmod fs1 p m) (Chmod fs2 p m).
Proof.
  intros Ha. pose proof Ha as [(_ & _ & Hh & _) _]. unfold Chmod. rewrite Hh.
  case_bool_decide; [done|]. cbn [sum_agree]. by apply set_mode_agree.
Qed.

Lemma Chmod_only p fs m fs' : Chmod fs p m = inr fs' -> only_at [p] fs fs'.
Proof. unfold Chmod. case_bool_decide; [done|]. intros [= <-]. apply set_mode_only. Qed.

Lemma append_chunk_agree p P fs1 fs2 c :
  p ∈ P -> agree_on P fs1 fs2 -> agree_on P (append_chunk p fs1 c) (append_chunk p fs2 c).
Proof.
  intros Hp Ha. unfold append_chunk. rewrite (agree_on_files p P fs1 fs2 Hp Ha).
  by apply set_file_agree.
Qed.

(** ** One system call, and one step of the loop, are local *)

Section Step.
Context (input : RootModuleInputData) (dir : string) (perms : Z) (force : bool).
Context (fn : string) (f : FileFunc).

Local Notation p := (join dir fn).
Local Notation pstep := (pstep input dir perms force fn f).

(** A system call of the iteration for [fn] changes the disk only at its
    target. *)
Lemma pstep_only fs ph : only_at [p] fs (pstep (fs, ph)).1.
Proof.
  destruct ph as [| | |[|c cs] err|err]; cbn [Crash.pstep fst].
  - repeat case_match; apply only_at_refl.
  - destruct (Create fs p) eqn:E; [apply only_at_refl|by apply Create_only].
  - destruct (Chmod fs p perms) eqn:E; [apply only_at_refl|]. destruct (f _ input). by eapply Chmod_only.
  - apply only_at_refl.
  - apply set_file_only.
  - apply only_at_refl.
Qed.

(** ... and what it does depends on the disk only at its target and on
    the faults: on two disks that agree there, it takes the same
    transition and leaves disks that still agree there. *)
Lemma pstep_local P fs1 fs2 ph :
  p ∈ P -> agree_on P fs1 fs2 ->
  (pstep (fs1, ph)).2 = (pstep (fs2, ph)).2 /\ agree_on P (pstep (fs1, ph)).1 (pstep (fs2, ph)).1.
Proof.
  intros Hp Ha. destruct ph as [| | |[|c cs] err|err]; cbn [Crash.pstep fst snd].
  - rewrite (fileExists_agree p P fs1 fs2 Hp Ha). by repeat case_match.
  - pose proof (Create_agree p P fs1 fs2 Hp Ha) as Hc.
    destruct (Create fs1 p), (Create fs2 p); cbn in Hc; [by subst|done|done|done].
  - pose proof (Chmod_agree p P fs1 fs2 perms Ha) as Hc.
    destruct (Chmod fs1 p perms) as [|fs1'], (Chmod fs2 p perms) as [|fs2']; cbn in Hc;
      [by subst|done|done|].
    rewrite (open_writer_faults fs2' fs1'); [|by destruct Hc as [(_ & _ & _ & ->) _]].
    by destruct (f _ input).
  - done.
  - split; [done|]. by apply append_chunk_agree.
  - done.
Qed.

End Step.

Section Loop.
Context (input : RootModuleInputData) (dir : string) (perms : Z) (force : bool).

Local Notation rstep := (rstep input dir perms force).

(** The paths the remaining entries of a run write. *)
Definition paths (order : list (string * FileFunc)) : list string := map (path_of dir) order.

Lemma rstep_paths fs order ph : paths (rstep (fs, order, ph)).1.2 ⊆ paths order.
Proof.
  destruct order as [|[fn f] rest]; cbn [Crash.rstep]; [done|].
  destruct (finished ph); [done|]. destruct (pstep _ _ _ _ _ _ _) as [fs' [| | | |[e|]]]; set_solver.
Qed.

Lemma rstep_only P fs order ph : paths order ⊆ P -> only_at P fs (rstep (fs, order, ph)).1.1.
Proof.
  intros HP. destruct order as [|[fn f] rest]; cbn [Crash.rstep]; [apply only_at_refl|].
  destruct (finished ph); [apply only_at_refl|].
  apply (only_at_weaken [join dir fn]); [set_solver|].
  pose proof (pstep_only input dir perms force fn f fs ph) as Ho.
  destruct (pstep _ _ _ _ _ _ _) as [fs' [| | | |[e|]]]; exact Ho.
Qed.

Lemma rstep_local P fs1 fs2 order ph :
  paths order ⊆ P -> agree_on P fs1 fs2 ->
  (rstep (fs1, order, ph)).1.2 = (rstep (fs2, order, ph)).1.2 /\
  (rstep (fs1, order, ph)).2 = (rstep (fs2, order, ph)).2 /\
  agree_on P (rstep (fs1, order, ph)).1.1 (rstep (fs2, order, ph)).1.1.
Proof.
  intros HP Ha. destruct order as [|[fn f] rest]; cbn [Crash.rstep]; [done|].
  destruct (finished ph); [done|].
  destruct (pstep_local input dir perms force fn f P fs1 fs2 ph) as [Hph Hag]; [set_solver|done|].
  destruct (pstep _ _ _ _ _ _ (fs1, ph)) as [fs1' ph1], (pstep _ _ _ _ _ _ (fs2, ph)) as [fs2' ph2].
  cbn in Hph, Hag. subst ph2. destruct ph1 as [| | | |[e|]]; done.
Qed.

End Loop.

(** ** Two disks that each changed in one of two disjoint regions *)

Lemma only_at_disjoint P Q fs fs' : P ## Q -> only_at P fs fs' -> agree_on Q fs fs'.
Proof. intros HPQ [F E]. split; [done|]. intros q Hq. apply E. set_solver. Qed.

(** The two orders in which two disjoint changes can be made end on the
    same disk. *)
Lemma disk_diamond P1 P2 fs fsA fsB fsAB fsBA :
  P1 ## P2 -> only_at P1 fs fsA -> only_at P2 fs fsB -> only_at P2 fsA fsAB -> only_at P1 fsB fsBA ->
  agree_on P1 fsA fsBA -> agree_on P2 fsB fsAB -> fsAB = fsBA.
Proof.
  intros Hd [FA EA] [FB EB] [FAB EAB] [FBA EBA] [_ GA] [_ GB].
  apply disk_ext.
  { destruct FA as (?&?&?&?), FB as (?&?&?&?), FAB as (?&?&?&?), FBA as (?&?&?&?).
    split_and!; congruence. }
  intros q. destruct (decide (q ∈ P1)) as [H1|H1]; [|destruct (decide (q ∈ P2)) as [H2|H2]].
  - rewrite EAB, GA by set_solver. done.
  - rewrite EBA, GB by set_solver. done.
  - by rewrite EAB, EBA, EA, EB.
Qed.

(** ** A run settles *)

Lemma outcome_of_disk c fs' e : outcome_of c = Some (fs', e) -> c.1.1 = fs'.
Proof. destruct c as [[fs [|x o]] [| | | |err]]; cbn; by intros [= ->]. Qed.

(** Whether a run has returned, and what, does not depend on the disk. *)
Lemma outcome_of_move fs fs' o ph e :
  outcome_of (fs, o, ph) = Some (fs, e) -> outcome_of (fs', o, ph) = Some (fs', e).
Proof. destruct o as [|x o], ph as [| | | |err]; cbn; by intros [= ->]. Qed.

(** Some number of steps brings a run to the state it then stays in, and
    that state has returned what [InitRootModule] returns. *)
Lemma rsteps_settle input dir perms force order fs :
  exists n, (forall m, n <= m -> rsteps input dir perms force m (fs, order, AtStat) =
                                  rsteps input dir perms force n (fs, order, AtStat)) /\
    outcome_of (rsteps input dir perms force n (fs, order, AtStat)) =
      Some (InitRootModule input dir perms force order fs).
Proof.
  destruct (rsteps_init_loop input dir perms force order fs) as [n Hn]. exists n. split; [|done].
  intros m Hm. replace m with (n + (m - n)) by lia. rewrite rsteps_add, rsteps_final; [done|by rewrite Hn].
Qed.

(** ** Interleavings *)

Section Interleave.
Context (input1 input2 : RootModuleInputData) (dir1 dir2 : string) (perms : Z).
Context (force1 force2 : bool).

(** The shared disk and, for each run, the entries it has not finished
    and the phase of the first one. *)
Definition istate : Type :=
  Disk * (list (string * FileFunc) * phase) * (list (string * FileFunc) * phase).

Definition step1 (s : istate) : istate :=
  let '(fs, (o1, ph1), r2) := s in
  let '(fs', o1', ph1') := rstep input1 dir1 perms force1 (fs, o1, ph1) in (fs', (o1', ph1'), r2).

Definition step2 (s : istate) : istate :=
  let '(fs, r1, (o2, ph2)) := s in
  let '(fs', o2', ph2') := rstep input2 dir2 perms force2 (fs, o2, ph2) in (fs', r1, (o2', ph2')).

(** The scheduler's choice: [true] runs the first task's next system
    call, [false] the second's. *)
Definition istep (b : bool) (s : istate) : istate := if b then step1 s else step2 s.

Definition interleave (sched : list bool) (s : istate) : istate :=
  foldl (fun s b => istep b s) s sched.

(** How many turns a schedule gives a run. *)
Fixpoint turns (b : bool) (sched : list bool) : nat :=
  match sched with
  | [] => 0
  | b' :: sched => (if Bool.eqb b b' then 1 else 0) + turns b sched
  end.

Fixpoint steps1 (n : nat) (s : istate) : istate :=
  match n with 0 => s | S n => steps1 n (step1 s) end.
Fixpoint steps2 (n : nat) (s : istate) : istate :=
  match n with 0 => s | S n => steps2 n (step2 s) end.

Lemma steps1_rsteps n fs o ph r2 :
  steps1 n (fs, (o, ph), r2) =
    let '(fs', o', ph') := rsteps input1 dir1 perms force1 n (fs, o, ph) in (fs', (o', ph'), r2).
Proof.
  revert fs o ph. induction n as [|n IH]; intros fs o ph; [done|]. cbn [steps1 Crash.rsteps].
  unfold step1 at 1. destruct (rstep input1 dir1 perms force1 (fs, o, ph)) as [[fs' o'] ph'].
  apply IH.
Qed.

Lemma steps2_rsteps n fs r1 o ph :
  steps2 n (fs, r1, (o, ph)) =
    let '(fs', o', ph') := rsteps input2 dir2 perms force2 n (fs, o, ph) in (fs', r1, (o', ph')).
Proof.
  revert fs o ph. induction n as [|n IH]; intros fs o ph; [done|]. cbn [steps2 Crash.rsteps].
  unfold step2 at 1. destruct (rstep input2 dir2 perms force2 (fs, o, ph)) as [[fs' o'] ph'].
  apply IH.
Qed.

Section Disjoint.
Context (P1 P2 : list string) (Hdisj : P1 ## P2).

(** The remaining entries of each run stay within its paths. *)
Definition within (s : istate) : Prop :=
  paths dir1 s.1.2.1 ⊆ P1 /\ paths dir2 s.2.1 ⊆ P2.

Lemma within_step1 s : within s -> within (step1 s).
Proof.
  destruct s as [[fs [o1 ph1]] [o2 ph2]]. intros [H1 H2]. unfold step1.
  pose proof (rstep_paths input1 dir1 perms force1 fs o1 ph1) as Hp.
  destruct (rstep _ _ _ _ _) as [[fs' o1'] ph1']. split; [cbn in *; set_solver|done].
Qed.

Lemma within_step2 s : within s -> within (step2 s).
Proof.
  destruct s as [[fs [o1 ph1]] [o2 ph2]]. intros [H1 H2]. unfold step2.
  pose proof (rstep_paths input2 dir2 perms force2 fs o2 ph2) as Hp.
  destruct (rstep _ _ _ _ _) as [[fs' o2'] ph2']. split; [done|cbn in *; set_solver].
Qed.

Lemma within_steps1 n s : within s -> within (steps1 n s).
Proof. revert s. induction n; intros s Hs; [done|]. by apply IHn, within_step1. Qed.

(** Steps of runs with disjoint paths commute. *)
Lemma interleave_step_comm s : within s -> step1 (step2 s) = step2 (step1 s).
Proof.
  destruct s as [[fs [o1 ph1]] [o2 ph2]]. intros [H1 H2]. cbn [fst snd] in H1, H2.
  pose proof (rstep_only input1 dir1 perms force1 P1 fs o1 ph1 H1) as OA.
  pose proof (rstep_only input2 dir2 perms force2 P2 fs o2 ph2 H2) as OB.
  destruct (rstep_local input2 dir2 perms force2 P2 fs
              (rstep input1 dir1 perms force1 (fs, o1, ph1)).1.1 o2 ph2 H2) as (Eo2 & Eph2 & GB);
    [by eapply only_at_disjoint|].
  destruct (rstep_local input1 dir1 perms force1 P1 fs
              (rstep input2 dir2 perms force2 (fs, o2, ph2)).1.1 o1 ph1 H1) as (Eo1 & Eph1 & GA);
    [apply (only_at_disjoint P2 P1); [set_solver|done]|].
  unfold step1, step2.
  destruct (rstep input1 dir1 perms force1 (fs, o1, ph1)) as [[fsA o1'] ph1'].
  destruct (rstep input2 dir2 perms force2 (fs, o2, ph2)) as [[fsB o2'] ph2'].
  cbn [fst snd] in *.
  pose proof (rstep_only input2 dir2 perms force2 P2 fsA o2 ph2 H2) as OAB.
  pose proof (rstep_only input1 dir1 perms force1 P1 fsB o1 ph1 H1) as OBA.
  destruct (rstep input2 dir2 perms force2 (fsA, o2, ph2)) as [[fsAB o2''] ph2''].
  destruct (rstep input1 dir1 perms force1 (fsB, o1, ph1)) as [[fsBA o1''] ph1''].
  cbn [fst snd] in *. subst.
  by rewrite (disk_diamond P1 P2 fs fsA fsB fsAB fsBA).
Qed.

Lemma steps1_step2 n s : within s -> steps1 n (step2 s) = step2 (steps1 n s).
Proof.
  revert s. induction n as [|n IH]; intros s Hs; [done|]. cbn [steps1].
  rewrite interleave_step_comm by done. by apply IH, within_step1.
Qed.

(** Every interleaving ends where the first run's steps, followed by the
    second run's, end. *)
Lemma interleave_sequential sched s :
  within s -> interleave sched s = steps2 (turns false sched) (steps1 (turns true sched) s).
Proof.
  revert s. induction sched as [|b sched IH]; intros s Hs; [done|].
  change (interleave (b :: sched) s) with (interleave sched (istep b s)).
  destruct b; cbn [istep turns Bool.eqb Nat.add].
  - rewrite (IH (step1 s)); [done|by apply within_step1].
  - rewrite (IH (step2 s)), steps1_step2; [done|done|by apply within_step2].
Qed.

End Disjoint.

(** C18: Concurrent runs for two task directories.  When no path the
    first run writes is a path of the second (two task directories), the
    scheduler may interleave their system calls in any way: once each
    run has had enough turns, the disk is the one of running
    [InitRootModule] for the first task and then for the second, and
    each run has returned what it returns in that sequential execution.
    This is the spec's "concurrent synthesis for different task
    directories is safe". *)
Theorem concurrent_InitRootModule order1 order2 fs :
  paths dir1 order1 ## paths dir2 order2 ->
  exists n1 n2, forall sched, n1 <= turns true sched -> n2 <= turns false sched ->
    let r1 := InitRootModule input1 dir1 perms force1 order1 fs in
    let r2 := InitRootModule input2 dir2 perms force2 order2 r1.1 in
    let '(fs', (o1, ph1), (o2, ph2)) := interleave sched (fs, (order1, AtStat), (order2, AtStat)) in
    fs' = r2.1 /\ outcome_of (fs', o1, ph1) = Some (fs', r1.2) /\ outcome_of (fs', o2, ph2) = Some r2.
Proof.
  intros Hd.
  destruct (rsteps_settle input1 dir1 perms force1 order1 fs) as (n1 & S1 & O1).
  destruct (InitRootModule input1 dir1 perms force1 order1 fs) as [d1 e1].
  cbv zeta. cbn [fst snd].
  destruct (rsteps_settle input2 dir2 perms force2 order2 d1) as (n2 & S2 & O2).
  destruct (InitRootModule input2 dir2 perms force2 order2 d1) as [d2 e2].
  exists n1, n2. intros sched Hn1 Hn2. cbn [fst snd].
  rewrite (interleave_sequential (paths dir1 order1) (paths dir2 order2) Hd) by done.
  rewrite steps1_rsteps, S1 by done.
  destruct (rsteps input1 dir1 perms force1 n1 (fs, order1, AtStat)) as [[fs1 o1] ph1].
  pose proof (outcome_of_disk _ _ _ O1) as D1. cbn [fst] in D1. subst fs1.
  rewrite steps2_rsteps, S2 by done.
  destruct (rsteps input2 dir2 perms force2 n2 (d1, order2, AtStat)) as [[fs2 o2] ph2].
  pose proof (outcome_of_disk _ _ _ O2) as D2. cbn [fst] in D2. subst fs2.
  split_and!; [done|by eapply outcome_of_move|done].
Qed.
End Interleave.

Module Witnesses.
#[local] Existing Instance insertion_sort.

Definition inp : RootModuleInputData := Scenario.input [Scenario.svc_db].
Definition empty_disk : Disk := mkDisk ∅ ∅ ∅ ∅ ∅ ∅.

(** Two tasks in the directories [a] and [b], run concurrently. *)
Lemma concurrent_InitRootModule_witness :
  exists n1 n2, forall sched, n1 <= turns true sched -> n2 <= turns false sched ->
    let r1 := InitRootModule inp "a" 420 false rootFileFuncs empty_disk in
    let r2 := InitRootModule inp "b" 420 false rootFileFuncs r1.1 in
    let '(fs', (o1, ph1), (o2, ph2)) :=
      interleave inp inp "a" "b" 420 false false sched
        (empty_disk, (rootFileFuncs, AtStat), (rootFileFuncs, AtStat)) in
    fs' = r2.1 /\ outcome_of (fs', o1, ph1) = Some (fs', r1.2) /\ outcome_of (fs', o2, ph2) = Some r2.
Proof.
  apply concurrent_InitRootModule.
  assert (paths "a" rootFileFuncs =
    ["a/main.tf"; "a/variables.tf"; "a/variables.module.tf"; "a/terraform.tfvars.tmpl"]) as ->
    by (vm_compute; reflexivity).
  assert (paths "b" rootFileFuncs =
    ["b/main.tf"; "b/variables.tf"; "b/variables.module.tf"; "b/terraform.tfvars.tmpl"]) as ->
    by (vm_compute; reflexivity).
  set_solver.
Defined.

(** The two runs alternating system calls end on the disk of running the
    first, then the second. *)
Example alternating_schedule :
  (interleave inp inp "a" "b" 420 false false (concat (repeat [true; false] 30))
     (empty_disk, (rootFileFuncs, AtStat), (rootFileFuncs, AtStat))).1.1 =
  (InitRootModule inp "b" 420 false rootFileFuncs
     (InitRootModule inp "a" 420 false rootFileFuncs empty_disk).1).1.
Proof. vm_compute. reflexivity. Qed.
End Witnesses.
