(* ===== verification/Router.v ===== *)
(** * [src/api/oapigen/server.go]: the generated HTTP router

    The file is generated by oapi-codegen for the chi router.  It has two
    parts; the routing part is modelled here.

    - Routing.  [HandlerWithOptions] registers two routes on a chi router,
      [POST <BaseURL>/v1/tasks] and [DELETE <BaseURL>/v1/tasks/{name}],
      whose handlers are the methods of [ServerInterfaceWrapper]: each
      binds its parameter with the oapi-codegen runtime, answers 400 when
      binding fails, and otherwise runs the server's handler wrapped in the
      [HandlerMiddlewares], the last one outermost.
    - The embedded OpenAPI document, in [Swagger].

    A handler is a function from a request to the list of things it writes
    ([Response]); a middleware maps a handler to a handler, as
    [MiddlewareFunc] does.  The runtime's parameter binders are a class,
    [ParamBinding]: the theorems about the wrapper hold for any binder, and
    [oapi_runtime] is the runtime's behaviour on the parameters this API
    has (string parameters; values are taken as given, without
    percent-decoding).  chi is modelled as a list of routes, the most
    recent registration first: a request goes to the most recently
    registered route whose method and pattern match it, a path that only
    matches under another method gets 405 with an empty body, any other
    path 404.  chi's preference of static segments over parameters among
    different patterns is not modelled: [HandlerWithOptions] registers no
    two patterns that match the same path.  A [{name}] segment matches one
    non-empty path segment, as chi's tree does for a parameter at the end
    of a pattern. *)

From S2P Require Import Prelude.
From Stdlib Require Import Ascii.

(** ** HTTP *)

(** [url.Values]: each query key with its values in order. *)
Definition Values := gomap (list string).

Record Request := mkRequest {
  Method : string;
  Path : string;
  Query : Values;
  (** The URL parameters chi's routing put in the request context. *)
  URLParams : gomap string
}.

(** What a handler does to its [http.ResponseWriter]: a status with a
    body, or an effect of the application's own code. *)
Inductive Event :=
| Written (code : Z) (body : string)
| Emit (what : string).

Definition Response := list Event.
Definition HandlerFunc := Request -> Response.
Definition MiddlewareFunc := HandlerFunc -> HandlerFunc.

Definition newline : string := String (ascii_of_nat 10) EmptyString.

(** [http.Error(w, error, code)]: the status and the message on a line. *)
Definition http_Error (error : string) (code : Z) : Response :=
  [Written code (error +:+ newline)].

Definition StatusBadRequest : Z := 400.

(** [chi.URLParam(r, key)]: the empty string when the route set none. *)
Definition URLParam (r : Request) (key : string) : string :=
  default EmptyString (gomap_lookup key (URLParams r)).

(** ** The generated types *)

Record CreateTaskParams := mkCreateTaskParams { Run : option string }.

Record ServerInterface := mkServerInterface {
  CreateTask : Request -> CreateTaskParams -> Response;
  DeleteTaskByName : Request -> string -> Response
}.

Record ServerInterfaceWrapper := mkServerInterfaceWrapper {
  Handler : ServerInterface;
  HandlerMiddlewares : list MiddlewareFunc
}.

(** ** The runtime's parameter binders *)

Class ParamBinding := {
  (** [BindQueryParameter(style, explode, required, name, query, &dest)]:
      the error, and the destination afterwards. *)
  BindQueryParameter : string -> bool -> bool -> string -> Values -> option string ->
                       option string * option string;
  (** [BindStyledParameter(style, explode, name, value, &dest)]. *)
  BindStyledParameter : string -> bool -> string -> string -> string + string
}.

Definition quote (s : string) : string := "'" +:+ s +:+ "'".

(** The runtime on a primitive destination: a form-exploded query
    parameter binds its one value, is left alone when absent (unless
    required), and is an error when given more than once; a styled
    parameter must not be empty. *)
#[export] Instance oapi_runtime : ParamBinding := {|
  BindQueryParameter style explode required paramName queryParams dest :=
    if negb (String.eqb style "form" && explode) then (Some ("unsupported style " +:+ style), dest) else
    match default [] (gomap_lookup paramName queryParams) with
    | [] => if required then (Some ("query parameter " +:+ quote paramName +:+ " is required"), dest)
            else (None, dest)
    | [v] => (None, Some v)
    | _ => (Some ("multiple values for single value parameter " +:+ quote paramName), dest)
    end;
  BindStyledParameter style explode paramName value :=
    if String.eqb value "" then inl ("parameter " +:+ quote paramName +:+ " is empty, can't bind its value")
    else inr value
|}.

(** ** [ServerInterfaceWrapper] (lines 39-94) *)
Section Wrapper.
Context `{ParamBinding}.

(** Lines 63-65: each middleware wraps the handler built so far, so the
    last one is the outermost. *)
Definition apply_middlewares (mws : list MiddlewareFunc) (h : HandlerFunc) : HandlerFunc :=
  foldl (fun handler middleware => middleware handler) h mws.

(** Lines 40-68.  The empty [if] of lines 49-51 has no effect. *)
Definition siw_CreateTask (siw : ServerInterfaceWrapper) (r : Request) : Response :=
  let '(err, run) := BindQueryParameter "form" true false "run" (Query r) None in
  match err with
  | Some e => http_Error ("Invalid format for parameter run: " +:+ e) StatusBadRequest
  | None =>
      let params := mkCreateTaskParams run in
      let handler := fun r => CreateTask (Handler siw) r params in
      apply_middlewares (HandlerMiddlewares siw) handler r
  end.

(** Lines 71-94. *)
Definition siw_DeleteTaskByName (siw : ServerInterfaceWrapper) (r : Request) : Response :=
  match BindStyledParameter "simple" false "name" (URLParam r "name") with
  | inl e => http_Error ("Invalid format for parameter name: " +:+ e) StatusBadRequest
  | inr name =>
      let handler := fun r => DeleteTaskByName (Handler siw) r name in
      apply_middlewares (HandlerMiddlewares siw) handler r
  end.
End Wrapper.

(** ** chi *)

Inductive Segment :=
| Lit (s : string)
| Param (name : string).

(** A pattern segment [{name}] is a parameter; any other is literal. *)
Definition segment_of (s : string) : Segment :=
  match s with
  | String "{" t =>
      match split_at "}" t with
      | Some (name, EmptyString) => Param name
      | _ => Lit s
      end
  | _ => Lit s
  end.

Definition parse_pattern (pattern : string) : list Segment := map segment_of (split_on "/" pattern).

(** The URL parameters of a path that matches the pattern. *)
Fixpoint match_segments (pat : list Segment) (segs : list string) : option (gomap string) :=
  match pat, segs with
  | [], [] => Some []
  | Lit l :: pat', s :: segs' => if String.eqb l s then match_segments pat' segs' else None
  | Param n :: pat', s :: segs' =>
      if String.eqb s "" then None
      else match match_segments pat' segs' with
           | Some ps => Some ((n, s) :: ps)
           | None => None
           end
  | _, _ => None
  end.

Record Route := mkRoute {
  rt_method : string;
  rt_pattern : string;
  rt_handler : HandlerFunc
}.

(** A [chi.Router]: its routes, the most recently registered first. *)
Definition Router := list Route.

(** [chi.NewRouter()]. *)
Definition NewRouter : Router := [].

(** [r.Method(method, pattern, h)]: chi panics on a pattern that does not
    start with [/]; [None] is that panic. *)
Definition handle (r : Router) (method pattern : string) (h : HandlerFunc) : option Router :=
  match pattern with
  | String "/" _ => Some (mkRoute method pattern h :: r)
  | _ => None
  end.

Definition route_params (rt : Route) (path : string) : option (gomap string) :=
  match_segments (parse_pattern (rt_pattern rt)) (split_on "/" path).

Fixpoint find_route (routes : Router) (method path : string) : option (Route * gomap string) :=
  match routes with
  | [] => None
  | rt :: routes' =>
      match route_params rt path with
      | Some ps => if String.eqb (rt_method rt) method then Some (rt, ps)
                   else find_route routes' method path
      | None => find_route routes' method path
      end
  end.

Definition path_known (routes : Router) (path : string) : bool :=
  existsb (fun rt => bool_decide (is_Some (route_params rt path))) routes.

(** [ServeHTTP]: the route's handler with its URL parameters, or chi's
    default 405 and 404 handlers. *)
Definition ServeHTTP (routes : Router) (r : Request) : Response :=
  match find_route routes (Method r) (Path r) with
  | Some (rt, ps) => rt_handler rt (mkRequest (Method r) (Path r) (Query r) ps)
  | None =>
      if path_known routes (Path r) then [Written 405 EmptyString]
      else [Written 404 ("404 page not found" +:+ newline)]
  end.

(** ** The generated constructors (lines 96-141) *)

Record ChiServerOptions := mkChiServerOptions {
  BaseURL : string;
  BaseRouter : option Router;
  Middlewares : list MiddlewareFunc
}.

Section Handlers.
Context `{ParamBinding}.

(** Lines 122-141: the two groups add no middleware of their own, so each
    registers its route on [r] itself. *)
Definition HandlerWithOptions (si : ServerInterface) (options : ChiServerOptions) : option Router :=
  let r := default NewRouter (BaseRouter options) in
  let wrapper := mkServerInterfaceWrapper si (Middlewares options) in
  r ← handle r "POST" (BaseURL options +:+ "/v1/tasks") (siw_CreateTask wrapper);
  handle r "DELETE" (BaseURL options +:+ "/v1/tasks/{name}") (siw_DeleteTaskByName wrapper).

Definition Handler_ (si : ServerInterface) : option Router :=
  HandlerWithOptions si (mkChiServerOptions "" None []).

Definition HandlerFromMux (si : ServerInterface) (r : Router) : option Router :=
  HandlerWithOptions si (mkChiServerOptions "" (Some r) []).

Definition HandlerFromMuxWithBaseURL (si : ServerInterface) (r : Router) (baseURL : string)
    : option Router :=
  HandlerWithOptions si (mkChiServerOptions baseURL (Some r) []).
End Handlers.

(** ** Paths and patterns *)

(** A prefix of literal segments matches itself and nothing else. *)
Definition all_literal (segs : list string) : Prop := Forall (fun s => segment_of s = Lit s) segs.

Lemma match_segments_literal_prefix (pre : list string) p q :
  all_literal pre -> match_segments (map segment_of pre ++ p) (pre ++ q) = match_segments p q.
Proof.
  induction pre as [|s pre IH]; intros Hl; [done|].
  apply Forall_cons in Hl as [Hs Hl]. simpl. rewrite Hs, String.eqb_refl. by apply IH.
Qed.

(** A path with fewer segments than the pattern does not match it. *)
Lemma match_segments_short p q : length q < length p -> match_segments p q = None.
Proof.
  revert q. induction p as [|sp p IH]; intros [|s q] Hq; simpl in *; try lia; [by destruct sp|].
  destruct sp as [l|n]; [destruct (String.eqb l s)|destruct (String.eqb s "")]; try done.
  - apply IH. lia.
  - rewrite IH by lia. done.
Qed.

Lemma match_segments_literal_len (pre : list string) p q :
  all_literal pre -> length q < length pre + length p ->
  match_segments (map segment_of pre ++ p) q = None.
Proof.
  revert q. induction pre as [|s pre IH]; intros q Hl Hq; [by apply match_segments_short|].
  apply Forall_cons in Hl as [Hs Hl]. destruct q as [|s' q]; simpl; [by rewrite Hs|].
  rewrite Hs. destruct (String.eqb s s'); [|done]. apply IH; [done|]. simpl in Hq. lia.
Qed.

Lemma split_tasks_path base :
  split_on "/" (base +:+ "/v1/tasks") = split_on "/" base ++ ["v1"; "tasks"].
Proof.
  change ("/v1/tasks" : string) with (String "/" ("v1" +:+ String "/" "tasks")).
  by rewrite !split_on_app_sep.
Qed.

Lemma split_task_path base name :
  has_char "/" name = false ->
  split_on "/" (base +:+ "/v1/tasks/" +:+ name) = split_on "/" base ++ ["v1"; "tasks"; name].
Proof.
  intros Hn.
  change ("/v1/tasks/" +:+ name) with (String "/" ("v1" +:+ String "/" ("tasks" +:+ String "/" name))).
  rewrite !split_on_app_sep, (split_on_no_sep _ name Hn). done.
Qed.

Lemma parse_tasks_pattern base :
  parse_pattern (base +:+ "/v1/tasks") = map segment_of (split_on "/" base) ++ [Lit "v1"; Lit "tasks"].
Proof. unfold parse_pattern. by rewrite split_tasks_path, map_app. Qed.

Lemma parse_task_pattern base :
  parse_pattern (base +:+ "/v1/tasks/{name}") =
    map segment_of (split_on "/" base) ++ [Lit "v1"; Lit "tasks"; Param "name"].
Proof.
  unfold parse_pattern. change ("/v1/tasks/{name}" : string) with ("/v1/tasks/" +:+ "{name}").
  rewrite split_task_path by done. by rewrite map_app.
Qed.

(** ** The routes [HandlerWithOptions] registers *)
Section Routing.
Context `{ParamBinding} (si : ServerInterface) (base : string) (mws : list MiddlewareFunc).
Hypothesis Hbase : base = "" \/ exists t, base = String "/" t.
Hypothesis Hlit : all_literal (split_on "/" base).

Let wrapper := mkServerInterfaceWrapper si mws.
Let post_route := mkRoute "POST" (base +:+ "/v1/tasks") (siw_CreateTask wrapper).
Let delete_route := mkRoute "DELETE" (base +:+ "/v1/tasks/{name}") (siw_DeleteTaskByName wrapper).

Lemma HandlerWithOptions_fresh :
  HandlerWithOptions si (mkChiServerOptions base None mws) = Some [delete_route; post_route].
Proof. destruct Hbase as [->|[t ->]]; reflexivity. Qed.

Lemma post_route_params_tasks : route_params post_route (base +:+ "/v1/tasks") = Some [].
Proof.
  unfold route_params. simpl. rewrite parse_tasks_pattern, split_tasks_path.
  by rewrite match_segments_literal_prefix.
Qed.

Lemma delete_route_params_tasks : route_params delete_route (base +:+ "/v1/tasks") = None.
Proof.
  unfold route_params. simpl. rewrite parse_task_pattern, split_tasks_path.
  apply match_segments_literal_len; [done|]. rewrite length_app. simpl. lia.
Qed.

Lemma delete_route_params_task name :
  name <> "" -> has_char "/" name = false ->
  route_params delete_route (base +:+ "/v1/tasks/" +:+ name) = Some [("name", name)].
Proof.
  intros Hne Hn. unfold route_params. simpl. rewrite parse_task_pattern, split_task_path by done.
  rewrite match_segments_literal_prefix by done. simpl. by rewrite string_eqb_neq.
Qed.

Lemma post_route_params_task name :
  has_char "/" name = false -> route_params post_route (base +:+ "/v1/tasks/" +:+ name) = None.
Proof.
  intros Hn. unfold route_params. simpl. rewrite parse_tasks_pattern, split_task_path by done.
  by rewrite match_segments_literal_prefix.
Qed.
End Routing.

Lemma find_route_skip rt rs m p :
  route_params rt p = None -> find_route (rt :: rs) m p = find_route rs m p.
Proof. simpl. by intros ->. Qed.

Lemma find_route_hit rt rs m p ps :
  route_params rt p = Some ps -> rt_method rt = m -> find_route (rt :: rs) m p = Some (rt, ps).
Proof. simpl. intros -> ->. by rewrite String.eqb_refl. Qed.

Lemma find_route_other_method rt rs m p ps :
  route_params rt p = Some ps -> rt_method rt <> m -> find_route (rt :: rs) m p = find_route rs m p.
Proof. simpl. intros -> Hm. by rewrite string_eqb_neq. Qed.

Lemma path_known_hit rt rs p ps : route_params rt p = Some ps -> path_known (rt :: rs) p = true.
Proof. simpl. intros ->. by rewrite bool_decide_true. Qed.

Lemma path_known_later rt rs p : path_known rs p = true -> path_known (rt :: rs) p = true.
Proof. simpl. intros ->. apply orb_true_r. Qed.

(** ** What the router answers *)
Section Serving.
Context `{ParamBinding} (si : ServerInterface) (base : string) (mws : list MiddlewareFunc).
Hypothesis Hbase : base = "" \/ exists t, base = String "/" t.
Hypothesis Hlit : all_literal (split_on "/" base).

(** The [DELETE] route alone, for the constructors that build on it. *)
Lemma HandlerWithOptions_delete name q ps :
  name <> "" -> has_char "/" name = false ->
  exists rt, HandlerWithOptions si (mkChiServerOptions base None mws) = Some rt /\
    (ServeHTTP rt (mkRequest "DELETE" (base +:+ "/v1/tasks/" +:+ name) q ps) =
     siw_DeleteTaskByName (mkServerInterfaceWrapper si mws)
       (mkRequest "DELETE" (base +:+ "/v1/tasks/" +:+ name) q [("name", name)])).
Proof.
  intros Hne Hn. eexists. split; [apply (HandlerWithOptions_fresh si base mws Hbase Hlit)|].
  unfold ServeHTTP. cbn [Method Path Query].
  by rewrite (find_route_hit _ _ _ _ [("name", name)]); [|apply delete_route_params_task|].
Qed.

(** C30: Routing.  On a fresh router, [HandlerWithOptions] sends
    [POST <BaseURL>/v1/tasks] to the wrapper's [CreateTask] and
    [DELETE <BaseURL>/v1/tasks/<name>], for a non-empty one-segment name,
    to its [DeleteTaskByName] with the URL parameter [name] set; any other
    method on those paths gets 405. *)
Theorem HandlerWithOptions_serves :
  exists rt, HandlerWithOptions si (mkChiServerOptions base None mws) = Some rt /\
  (forall q ps, ServeHTTP rt (mkRequest "POST" (base +:+ "/v1/tasks") q ps) =
     siw_CreateTask (mkServerInterfaceWrapper si mws) (mkRequest "POST" (base +:+ "/v1/tasks") q [])) /\
  (forall name q ps, name <> "" -> has_char "/" name = false ->
     ServeHTTP rt (mkRequest "DELETE" (base +:+ "/v1/tasks/" +:+ name) q ps) =
     siw_DeleteTaskByName (mkServerInterfaceWrapper si mws)
       (mkRequest "DELETE" (base +:+ "/v1/tasks/" +:+ name) q [("name", name)])) /\
  (forall m q ps, m <> "POST" ->
     ServeHTTP rt (mkRequest m (base +:+ "/v1/tasks") q ps) = [Written 405 ""]) /\
  (forall m name q ps, m <> "DELETE" -> name <> "" -> has_char "/" name = false ->
     ServeHTTP rt (mkRequest m (base +:+ "/v1/tasks/" +:+ name) q ps) = [Written 405 ""]).
Proof.
  eexists. split; [apply (HandlerWithOptions_fresh si base mws Hbase Hlit)|]. unfold ServeHTTP.
  cbn [Method Path Query].
  pose proof (delete_route_params_tasks si base mws Hlit) as D1.
  pose proof (post_route_params_tasks si base mws Hlit) as P1.
  pose proof (delete_route_params_task si base mws Hlit) as D2.
  pose proof (post_route_params_task si base mws Hlit) as P2.
  split_and!.
  - intros q ps. by rewrite find_route_skip, (find_route_hit _ _ _ _ []).
  - intros name q ps Hne Hn. by rewrite (find_route_hit _ _ _ _ [("name", name)]); [| apply D2|].
  - intros m q ps Hm. rewrite find_route_skip, (find_route_other_method _ _ _ _ []) by done.
    by rewrite path_known_later by (apply (path_known_hit _ _ _ []), P1).
  - intros m name q ps Hm Hne Hn.
    rewrite (find_route_other_method _ _ _ _ [("name", name)]) by first [by apply D2 | done].
    rewrite find_route_skip by (apply P2; done). by rewrite (path_known_hit _ _ _ [("name", name)]) by (by apply D2).
Qed.
End Serving.

(** ** The wrapper: binding, then the middleware chain *)

(** A middleware that records when the request enters and leaves it. *)
Definition tracing (label : string) : MiddlewareFunc :=
  fun next r => Emit ("enter " +:+ label) :: next r ++ [Emit ("exit " +:+ label)].

Definition enter (label : string) : Event := Emit ("enter " +:+ label).
Definition exit (label : string) : Event := Emit ("exit " +:+ label).

Lemma apply_middlewares_tracing labels (h : HandlerFunc) r :
  apply_middlewares (map tracing labels) h r =
    map enter (reverse labels) ++ h r ++ map exit labels.
Proof.
  revert h. induction labels as [|l labels IH]; intros h; simpl.
  - by rewrite app_nil_r.
  - rewrite IH, reverse_cons, map_app. unfold tracing. simpl.
    by rewrite <- !(assoc_L (++)).
Qed.

(** C31: Middleware order.  With [HandlerMiddlewares = [m1; ...; mn]] and
    a parameter that binds, the request enters [mn] first and [m1] last,
    then reaches the server's [CreateTask] with the bound parameter, and
    leaves the middlewares in the opposite order. *)
Theorem CreateTask_middleware_order `{ParamBinding} si labels r run :
  BindQueryParameter "form" true false "run" (Query r) None = (None, run) ->
  siw_CreateTask (mkServerInterfaceWrapper si (map tracing labels)) r =
    map enter (reverse labels) ++ CreateTask si r (mkCreateTaskParams run) ++ map exit labels.
Proof. intros Hb. unfold siw_CreateTask. rewrite Hb. apply apply_middlewares_tracing. Qed.

(** C32: The [run] query parameter.  No value: the server gets no [Run];
    one value, even the empty one: the server gets it; two or more: 400
    with the runtime's message, and neither a middleware nor the server
    runs. *)
Theorem CreateTask_run_binding siw r :
  siw_CreateTask (H := oapi_runtime) siw r =
    match default [] (gomap_lookup "run" (Query r)) with
    | [] => apply_middlewares (HandlerMiddlewares siw)
              (fun r => CreateTask (Handler siw) r (mkCreateTaskParams None)) r
    | [v] => apply_middlewares (HandlerMiddlewares siw)
               (fun r => CreateTask (Handler siw) r (mkCreateTaskParams (Some v))) r
    | _ => [Written 400 ("Invalid format for parameter run: multiple values for single value parameter 'run'"
                         +:+ newline)]
    end.
Proof. unfold siw_CreateTask. simpl. by destruct (default [] (gomap_lookup "run" (Query r))) as [|? [|]]. Qed.

(** C33: A request whose parameter does not bind is answered 400 by the
    wrapper itself, whatever the server and its middlewares are: no
    middleware sees it. *)
Theorem binding_error_bypasses_middlewares `{ParamBinding} siw1 siw2 r :
  (forall e run, BindQueryParameter "form" true false "run" (Query r) None = (Some e, run) ->
     siw_CreateTask siw1 r = siw_CreateTask siw2 r /\
     siw_CreateTask siw1 r = [Written 400 ("Invalid format for parameter run: " +:+ e +:+ newline)]) /\
  (forall e, BindStyledParameter "simple" false "name" (URLParam r "name") = inl e ->
     siw_DeleteTaskByName siw1 r = siw_DeleteTaskByName siw2 r /\
     siw_DeleteTaskByName siw1 r = [Written 400 ("Invalid format for parameter name: " +:+ e +:+ newline)]).
Proof.
  split; [intros e run Hb|intros e Hb]; unfold siw_CreateTask, siw_DeleteTaskByName; rewrite Hb;
    unfold http_Error; by rewrite string_app_assoc.
Qed.

(** ** End to end, and the other constructors *)

(** [DELETE /v1/tasks/<name>] on [Handler si] reaches the server's
    [DeleteTaskByName] with that name, through the middlewares. *)
Theorem Handler_delete_task si name q ps :
  name <> "" -> has_char "/" name = false ->
  exists rt, Handler_ (H := oapi_runtime) si = Some rt /\
    ServeHTTP rt (mkRequest "DELETE" ("/v1/tasks/" +:+ name) q ps) =
      DeleteTaskByName si (mkRequest "DELETE" ("/v1/tasks/" +:+ name) q [("name", name)]) name.
Proof.
  intros Hne Hn.
  destruct (HandlerWithOptions_delete (H := oapi_runtime) si "" [] ltac:(by left)
              ltac:(by repeat constructor) name q ps Hne Hn) as (rt & Hrt & Hd).
  exists rt. split; [done|].
  rewrite string_app_nil_l in Hd. rewrite Hd. unfold siw_DeleteTaskByName. simpl.
  by rewrite string_eqb_neq.
Qed.

(** A base URL that is neither empty nor starts with [/] makes chi
    panic when the first route is registered. *)
Theorem HandlerWithOptions_bad_base `{ParamBinding} si base mws r0 :
  base <> "" -> (forall t, base <> String "/" t) ->
  HandlerWithOptions si (mkChiServerOptions base r0 mws) = None.
Proof.
  intros Hne Hs. unfold HandlerWithOptions. simpl.
  destruct base as [|a t]; [done|]. rewrite string_app_cons.
  destruct (Ascii.eqb_spec a "/") as [->|Ha]; [by destruct (Hs t)|].
  destruct a as [[] [] [] [] [] [] [] []]; try done; by destruct Ha.
Qed.

Lemma HandlerFromMux_routes `{ParamBinding} si r0 :
  HandlerFromMux si r0 =
    Some (mkRoute "DELETE" "/v1/tasks/{name}" (siw_DeleteTaskByName (mkServerInterfaceWrapper si [])) ::
          mkRoute "POST" "/v1/tasks" (siw_CreateTask (mkServerInterfaceWrapper si [])) :: r0).
Proof. reflexivity. Qed.

(** On a router that already has routes, [HandlerFromMux] answers
    the two API routes itself and leaves every request whose path matches
    neither API pattern to the routes that were there. *)
Theorem HandlerFromMux_other_paths `{ParamBinding} si r0 :
  exists rt, HandlerFromMux si r0 = Some rt /\
  (forall q ps, ServeHTTP rt (mkRequest "POST" "/v1/tasks" q ps) =
     siw_CreateTask (mkServerInterfaceWrapper si []) (mkRequest "POST" "/v1/tasks" q [])) /\
  (forall req, match_segments (parse_pattern "/v1/tasks") (split_on "/" (Path req)) = None ->
     match_segments (parse_pattern "/v1/tasks/{name}") (split_on "/" (Path req)) = None ->
     ServeHTTP rt req = ServeHTTP r0 req).
Proof.
  eexists. split; [apply HandlerFromMux_routes|]. split.
  - intros q ps. unfold ServeHTTP. cbn [Method Path Query].
    by rewrite find_route_skip, (find_route_hit _ _ _ _ []).
  - intros req H1 H2. unfold ServeHTTP. rewrite !find_route_skip by done.
    unfold path_known, route_params. cbn [existsb rt_pattern]. rewrite H1, H2. done.
Qed.

(** ** The theorems above at concrete inputs *)
Module Witnesses.

(** A server that records which operation ran with which argument. *)
Definition demo_si : ServerInterface :=
  mkServerInterface (fun _ p => [Emit ("create " +:+ default "-" (Run p))])
                    (fun _ name => [Emit ("delete " +:+ name)]).

Lemma HandlerWithOptions_serves_witness :
  exists rt, HandlerWithOptions (H := oapi_runtime) demo_si (mkChiServerOptions "/api" None []) = Some rt /\
    ServeHTTP rt (mkRequest "DELETE" "/api/v1/tasks/web" [] []) = [Emit "delete web"] /\
    ServeHTTP rt (mkRequest "GET" "/api/v1/tasks" [] []) = [Written 405 ""].
Proof.
  destruct (HandlerWithOptions_serves (H := oapi_runtime) demo_si "/api" [])
    as (rt & Hrt & _ & Hdel & Hpost405 & _);
    [right; exists "api"; reflexivity|repeat constructor|].
  exists rt. split_and!; [exact Hrt| |].
  - change ("/api/v1/tasks/web" : string) with ("/api" +:+ "/v1/tasks/" +:+ "web").
    rewrite (Hdel "web" [] []); [reflexivity|discriminate|reflexivity].
  - change ("/api/v1/tasks" : string) with ("/api" +:+ "/v1/tasks").
    apply Hpost405. discriminate.
Defined.

Lemma CreateTask_middleware_order_witness :
  siw_CreateTask (H := oapi_runtime) (mkServerInterfaceWrapper demo_si (map tracing ["auth"; "log"]))
    (mkRequest "POST" "/v1/tasks" [("run", ["now"])] []) =
  [Emit "enter log"; Emit "enter auth"; Emit "create now"; Emit "exit auth"; Emit "exit log"].
Proof.
  rewrite (CreateTask_middleware_order (H := oapi_runtime) demo_si ["auth"; "log"]
             (mkRequest "POST" "/v1/tasks" [("run", ["now"])] []) (Some "now")); reflexivity.
Defined.

Lemma Handler_delete_task_witness :
  exists rt, Handler_ (H := oapi_runtime) demo_si = Some rt /\
    ServeHTTP rt (mkRequest "DELETE" ("/v1/tasks/" +:+ "web") [] []) =
      DeleteTaskByName demo_si (mkRequest "DELETE" ("/v1/tasks/" +:+ "web") [] [("name", "web")]) "web".
Proof. apply Handler_delete_task; [discriminate|reflexivity]. Defined.

Lemma HandlerWithOptions_bad_base_witness :
  HandlerWithOptions (H := oapi_runtime) demo_si (mkChiServerOptions "api" None []) = None.
Proof. apply HandlerWithOptions_bad_base; [discriminate|intros t; discriminate]. Defined.
End Witnesses.
