(* ===== verification/Swagger.v ===== *)
(** * [src/api/oapigen/server.go], lines 143-254: the embedded OpenAPI document

    [swaggerSpec] is the base64 text of a gzip stream holding the API's
    OpenAPI document.  [decodeSpec] decodes it ([DecodeString], then gzip)
    and [decodeSpecCached] does so once; [PathToRawSpec] maps a path to the
    raw document and [GetSwagger] hands the loader a resolver for external
    references built from it.  [base64.StdEncoding.DecodeString] is
    modelled from its documentation; gzip decompression and the OpenAPI
    loader are arguments of the definitions that use them. *)

From S2P Require Import Prelude.
From Stdlib Require Import Ascii.


(** Lines 144-182: base64 text of the gzipped JSON document. *)
Definition swaggerSpec : list string :=
  ["H4sIAAAAAAAC/9xY62/buhX/Vzh2H3o72/IzDwP90KYZbrC2N0hy7z7UhkGRRxYbidQlqThG4P3tAx+2";
   "LFuO0y3bHZYChSWdF8/5nRefMJV5IQUIo/H4CWuaQk7cz49lkoC6BsUls8+FkgUow8F9BUHiDNwHeCR5";
   "kQEeG1VCC5tlAXiMYykzIAKvWjgnjzU6PNJ4Q6eN4mLuyLiok/W7DXSrzRsZfwdqLOcFMSST81tQD5yC";
   "vpCCccOl2DebEUMoCAOqrorRXpNJguSgC0JhhxoSUmamkUMymOVgiOUgzNtBsuuaFXtcG9FP+B6WeIwf";
   "SFYCbjqrgjk8FnV7FhB33jVZU2qYET3LJSszmHFRlMZ5IdgfIrYRlJBMN0TQaf295MrG+9vagmlTIA57";
   "nvoYzXQIkn33ZwUJHuM3UQXCKCAwOhjTVQtTKXSZze4fjgpxhH/7rcZtP1p/HGO+DXR15hea32D3qtlh";
   "Owb+9yFbEJPWifNl28KwgVYBLZWGGogCao6h6D+ERmf99BnXfnHqrtba/j+d+1KnXCol1b4bctCazHdO";
   "ZVKuEdeICASWDa2pmmrytvY13UEDbkAXUviT7rSVtX3P5ZY/RFAK2sw4O8Zy4ymvPu0Z6zXWZE1XLfws";
   "an64/mxL+xeKSI29qYxUx6tFMI5PBpSddttnyXDUHibDfjvun8btmPbJSTI8H/TgBLdwIlVODB7jsuSs";
   "CZg3ZVNBT4mYg54VCjSIkMmaKl74Oob/noJJQSGpkJAGcZEooo0qqSkVoMCOFqAAMTBADTDESqsTGaLv";
   "ERe6AGqFdXBTOSkysjMw+MrSMaBN24roZJKSbJbwDDpzBWC4qBrQGN1AokCnVqE2xECn00HfOHvfZ6Pu";
   "8DwenrLeCTunQ9YbUTo6Px91E8YGDPrD+PT8tHcynYiXaDys6OR8MOzTER2cw4jAKOl2T08JUDro025y";
   "1jvr9ZL4rHc+mE7ERNyBUsSGCpUaGDIpIA2Zd1uh5ANnoDQyEs1BgCIGHEkis0wurGZ4BFpab06E9VwH";
   "3YCWpaKAiHOyRkQB4oJxSqzMBTfpjgi9zGOZ6fFEtKO/IAbaKLlERDhrBKIKrFoFRUYo5CBM3e4FzzJU";
   "gHIPdcnBhLFlQOgN+qFIorzUBsUbzczbp9bnm+CKe4LRBO9JmGD0ZBXbv38gKoUBYVDt7z2alN3ugPr/";
   "25e/3KE3KJHK6q+duGJpo58hy2QLkYL/afsDWn9YQPySD5e/3FXWcYb2/96jCX4pbCcYtd0pAL29F3Ih";
   "EEkMKESKIlv+VGl9g94OUCl8ojJEjFE8Lg1olHLGQATSlY3ZdUbEGPUs/AhjLdS1vzxny78OaOlMRFOF";
   "MQmdqVLMSpXtF5JL258LxTUgKbJlB/168xnJBFXIushkyZAqBTIpMYhKpVyLYS4hLNRcRVGlKyVVwUiN";
   "KfQ4ikhRdMxaWodL+yLKl22p5tFCqnvX87V9s9CRKoX7r01i+gn+Ov+Zf7/v9QfD0cuWlf2xcr+0KrlT";
   "2d4h/++LFEfbr+Nu6r0v2I/cgGN/cAO5rtnwza4ZuIVJwbekb4XQvyBKkeUft6gcPPSzDf2POXaTuXdE";
   "39eY3bRRhSusUe3tEWKtEnfeOaH17LGAXy/r3o3ey1atmkdBURRe+hnXTn9E31/gFt60Fjz+Nt0eXXYc";
   "80AUt1pclQ3ED6C0N6LX6Xa6rmnX/B67O4ZZsblkeG4aql1I+C2w8suRKaxa4GrO2Q6SHXP9gysWTSjd";
   "uvQ4hMyDdyByvXJWGhvdv38tspMTz510Z870oazN9ETff2jcU6owb4N/2qpS4ij0tzH57yfSGlBHp+Tf";
   "AuEXUji+Nei2z+3xd6xyOn9tYjU9kJ6fIAMDh3eY19hKtreRA2YE5mM6XEHZsLyqzS2syqPJZ3cHG91Q";
   "146b+mOe2A7+j9y47QiyWrlIZKi3hlCz7gsWkwVvGykzLuZtKhXs1RH84foKfZK0tCMgse/saIj8+tfe";
   "zCnt26WgLfcpl27Y9quXpdcA6JtnQF+vPqAP11fTt+v5ZLFYdPzSaYcTJqmOBCcRKfhPuIUzTiFENRj8";
   "5fpzu9/pos/hSwu7wWoz78y5Scu4Q2UepUSnnEpVRF5BezMHtfVS0CjOZBzlhIvo89XF5dfbS+c9blxa";
   "XdzdWkNxY6mXBQib7GM8CNlXEJO6cEQPvcgiwj0UUjdsjxdumdCIIAELV5Hd5GiD6hx2xTZEd75cF0SR";
   "HIxvVbviPnHbPOxUn0sG2sVAlUJwMe+g27IopDLaTZBCLtAi5TS1T7oaHnmeA+PEQLacCLvzWOKwowYG";
   "urGZqaUfRy2nm0m5XhPbWVowxLimRDG7rRDj1IBgdqy1P7d2X3dsbs/wewlqWXVom3ytcGPvr+TL3FUx";
   "uXAcTkJDqV1NN7cdHyVbriEfdni7BdgNkEsRfde+jlY6jqXvuiit9ueQO+cKGZyEt7PcNk2X9r48OVT0";
   "u71XtizUvkOmqQ1Bq+rur2RA/darwYJfBTwGbPgLKUuiyzwnatmYDLaXkbkbw3wiTS3HJq+iJwuSlU8r";
   "2672E8y3MStTczEPUw+KiQaGpHAotDLWdwtsL/m8AOu7j8uvvnM+m4KWxuE7ACEYFsDtriw32A6duA6R";
   "GtiPjTQe5TVADV8VUDtjwCFY+VOy/0VUVQjwoV+i4PY9ZIXhrjmudyk0dzp063g23eepUNJIKrPVOIqe";
   "UqnNavxkC+8K74x76aYlBI/5Gxz32g6rUu18PhuNzsIY6zTUv9q259YgXyDDo2uG7nTT1T8DAAD//7l6";
   "GVIIHQAA"].

(** [base64.StdEncoding]: the value of a character of the alphabet. *)
Definition b64_value (a : ascii) : option Z :=
  let n := Z.of_nat (nat_of_ascii a) in
  if ((65 <=? n) && (n <=? 90))%Z then Some (n - 65)%Z
  else if ((97 <=? n) && (n <=? 122))%Z then Some (n - 71)%Z
  else if ((48 <=? n) && (n <=? 57))%Z then Some (n + 4)%Z
  else if (n =? 43)%Z then Some 62%Z
  else if (n =? 47)%Z then Some 63%Z
  else None.

Definition is_pad (a : ascii) : bool := Ascii.eqb a "=".

(** One quantum of four characters, the last two of which may be padding:
    its one to three bytes. *)
Definition b64_quantum (a b c d : ascii) : option (list Z) :=
  match b64_value a, b64_value b with
  | Some va, Some vb =>
      let b1 := Z.lor (Z.shiftl va 2) (Z.shiftr vb 4) in
      if is_pad c && is_pad d then Some [b1] else
      match b64_value c with
      | None => None
      | Some vc =>
          let b2 := Z.lor (Z.shiftl (Z.land vb 15) 4) (Z.shiftr vc 2) in
          if is_pad d then Some [b1; b2] else
          match b64_value d with
          | None => None
          | Some vd => Some [b1; b2; Z.lor (Z.shiftl (Z.land vc 3) 6) vd]
          end
      end
  | _, _ => None
  end.

(** Quanta in order; a padded quantum must be the last one. *)
Fixpoint b64_quanta (cs : list ascii) : option (list Z) :=
  match cs with
  | [] => Some []
  | a :: b :: c :: d :: rest =>
      match b64_quantum a b c d with
      | Some bs =>
          if (length bs <? 3)%nat && negb (bool_decide (rest = [])) then None
          else match b64_quanta rest with
               | Some bs' => Some (bs ++ bs')
               | None => None
               end
      | None => None
      end
  | _ => None
  end.

(** [base64.StdEncoding.DecodeString]: carriage returns and newlines are
    skipped; any other character outside the alphabet, a misplaced pad or
    a trailing partial quantum is an error. *)
Definition DecodeString (s : string) : option (list Z) :=
  b64_quanta (filter (fun a => negb (Ascii.eqb a (ascii_of_nat 10) || Ascii.eqb a (ascii_of_nat 13)))
                     (String.list_ascii_of_string s)).

(** Lines 186-202.  [gunzip] is [gzip.NewReader] followed by
    [buf.ReadFrom]: the decompressed bytes or the error's text. *)
Definition decodeSpec (gunzip : list Z -> string + list Z) : go_error + list Z :=
  match DecodeString (String.concat "" swaggerSpec) with
  | None => inl (ErrorString "error base64 decoding spec: illegal base64 data")
  | Some zipped =>
      match gunzip zipped with
      | inl e => inl (ErrorString ("error decompressing spec: " +:+ e))
      | inr data => inr data
      end
  end.

(** Lines 204-212: the document is decoded once, and every call of
    [rawSpec] returns that one result. *)
Definition decodeSpecCached (gunzip : list Z -> string + list Z) : unit -> go_error + list Z :=
  let r := decodeSpec gunzip in fun _ => r.

(** Lines 215-222. *)
Definition PathToRawSpec {A} (rawSpec : A) (pathToFile : string) : gomap A :=
  if Nat.ltb 0 (String.length pathToFile) then [(pathToFile, rawSpec)] else [].

(** Lines 234-243: the loader's [ReadFromURIFunc], on the URL's text. *)
Definition read_from_uri (resolvePath : gomap (unit -> go_error + list Z))
    (url : string) : go_error + list Z :=
  let pathToFile := Clean url in
  match gomap_lookup pathToFile resolvePath with
  | None => inl (ErrorString ("path not found: " +:+ pathToFile))
  | Some getSpec => getSpec tt
  end.

(** Lines 229-254.  [LoadFromData] is the OpenAPI loader given its
    reader for external references. *)
Definition GetSwagger {Doc} (rawSpec : unit -> go_error + list Z)
    (LoadFromData : (string -> go_error + list Z) -> list Z -> go_error + Doc)
    : option Doc * option go_error :=
  let resolvePath := PathToRawSpec rawSpec "" in
  let read := read_from_uri resolvePath in
  match rawSpec tt with
  | inl err => (None, Some err)
  | inr specData =>
      match LoadFromData read specData with
      | inl err => (None, Some err)
      | inr swagger => (Some swagger, None)
      end
  end.

(** ** The embedded document *)

Lemma PathToRawSpec_lookup {A} (x : A) p q :
  gomap_lookup q (PathToRawSpec x p) = if bool_decide (p <> "" /\ q = p) then Some x else None.
Proof.
  unfold PathToRawSpec. case_bool_decide as Hb.
  - destruct Hb as [Hp ->]. destruct p as [|a p]; [done|]. cbn [String.length Nat.ltb Nat.leb gomap_lookup].
    by rewrite String.eqb_refl.
  - destruct p as [|a p]; [done|]. cbn [String.length Nat.ltb Nat.leb gomap_lookup].
    destruct (String.eqb _ _) eqn:E; [|done].
    apply String.eqb_eq in E. destruct Hb. split; [discriminate|congruence].
Qed.

(** C34: [GetSwagger] enables external references but resolves them with
    [PathToRawSpec ""], which is empty: the loader gets a reader that
    fails on every URL with [path not found]. *)
Theorem GetSwagger_external_refs_fail {Doc} rawSpec
    (LoadFromData : (string -> go_error + list Z) -> list Z -> go_error + Doc) :
  exists read, (forall url, read url = inl (ErrorString ("path not found: " +:+ Clean url))) /\
  GetSwagger rawSpec LoadFromData =
    match rawSpec tt with
    | inl err => (None, Some err)
    | inr specData =>
        match LoadFromData read specData with
        | inl err => (None, Some err)
        | inr swagger => (Some swagger, None)
        end
    end.
Proof.
  exists (read_from_uri (PathToRawSpec rawSpec "")). split; [|done].
  intros url. unfold read_from_uri. rewrite PathToRawSpec_lookup, bool_decide_false; [done|].
  naive_solver.
Qed.

(** The gzip trailer's [ISIZE]: the length of the decompressed data,
    little-endian in the last four bytes. *)
Definition gzip_isize (zipped : list Z) : Z :=
  match drop (length zipped - 4) zipped with
  | [b0; b1; b2; b3] => (b0 + 256 * b1 + 65536 * b2 + 16777216 * b3)%Z
  | _ => 0%Z
  end.

(** The embedded text is valid base64 of a 2106-byte gzip member
    (magic [1f 8b], deflate, no optional header fields) whose trailer
    gives a 7432-byte document, so [decodeSpec] never fails on base64 and
    its result is that of decompressing this member. *)
Theorem decodeSpec_base64_ok :
  exists zipped, DecodeString (String.concat "" swaggerSpec) = Some zipped /\
    take 4 zipped = [31; 139; 8; 0]%Z /\ length zipped = 2106 /\ gzip_isize zipped = 7432%Z /\
    forall gunzip, decodeSpec gunzip =
      match gunzip zipped with
      | inl e => inl (ErrorString ("error decompressing spec: " +:+ e))
      | inr data => inr data
      end.
Proof.
  destruct (DecodeString (String.concat "" swaggerSpec)) as [zipped|] eqn:E.
  - exists zipped. split_and!; [done|..].
    + vm_compute in E. by injection E as <-.
    + vm_compute in E. by injection E as <-.
    + vm_compute in E. by injection E as <-.
    + intros gunzip. unfold decodeSpec. by rewrite E.
  - vm_compute in E. discriminate.
Qed.

